(** * A shallow embedding of the glTF web viewer's scene session

    The viewer is a React component ([ModelViewer]) that keeps three.js
    objects in refs, plus the page component ([Home]) that owns the
    selection state.  This file embeds the functions that manage the
    loaded model and its materials, frame the camera, and export a still
    image, and proves the properties the specification states for them.

    - JavaScript numbers are IEEE binary64 values: [float].
    - The two [Map<string, Material | Material[]>] refs are [gmap string].
    - Object identity of materials and of material arrays is an id drawn
      from a counter of the store; [===] on them compares ids.
    - A mesh object is identified with its [uuid]; the [material] field of
      every mesh lives in the store map [meshMaterial]. *)

From Stdlib Require Import NArith String Ascii List Bool Lia.
From Stdlib Require Import Floats.PrimFloat.
From stdpp Require Import base option list gmap strings.

Set Warnings "-inexact-float,-register-all".

Local Open Scope string_scope.

(* ===================================================================== *)
(** ** JavaScript numbers *)
(* ===================================================================== *)

Module Js.

(** [x || d] on numbers: [0], [-0] and [NaN] are falsy. *)
Definition truthy (x : float) : bool := negb (is_zero x || is_nan x).

Definition or_else (x d : float) : float := if truthy x then x else d.

(** [Number.isFinite]. *)
Definition Number_isFinite (x : float) : bool := is_finite x.

(** [Math.max] of two numbers: [NaN] if either is, and [+0] above [-0]. *)
Definition max2 (a b : float) : float :=
  if is_nan a || is_nan b then nan
  else if (a <? b)%float then b
  else if (b <? a)%float then a
  else if get_sign a then b else a.

Definition min2 (a b : float) : float :=
  if is_nan a || is_nan b then nan
  else if (a <? b)%float then a
  else if (b <? a)%float then b
  else if get_sign a then a else b.

(** [Math.max(a, b, c)]. *)
Definition Math_max (a b c : float) : float := max2 (max2 a b) c.

(** [Math.floor] and [Math.round] (halves go up), up to the sign of a
    zero result.  Numbers of magnitude [2^52] and above are integers
    already; below, adding and removing [2^52] rounds to an integer, which
    is then stepped down if it overshot. *)
Definition two52 : float := 4503599627370496%float.

Definition Math_floor (x : float) : float :=
  if is_nan x || (two52 <=? abs x)%float then x
  else
    let r := if (x <? 0)%float then (x - two52 + two52)%float
             else (x + two52 - two52)%float in
    if (x <? r)%float then (r - 1)%float else r.

Definition Math_round (x : float) : float :=
  let f := Math_floor x in
  if (0.5 <=? x - f)%float then (f + 1)%float else f.

End Js.

(* ===================================================================== *)
(** ** The three.js values the viewer manipulates *)
(* ===================================================================== *)

Module Three.

Record Vector3 := mkVector3 { x : float; y : float; z : float }.

Definition origin : Vector3 := mkVector3 0 0 0.

Definition Vector3_sub (a b : Vector3) : Vector3 :=
  mkVector3 (x a - x b) (y a - y b) (z a - z b).

Definition Vector3_add (a b : Vector3) : Vector3 :=
  mkVector3 (x a + x b) (y a + y b) (z a + z b).

Definition Vector3_multiplyScalar (a : Vector3) (k : float) : Vector3 :=
  mkVector3 (x a * k) (y a * k) (z a * k).

(** [Box3]: [min] and [max] corners; the empty box has [max < min]. *)
Record Box3 := mkBox3 { bmin : Vector3; bmax : Vector3 }.

Definition Box3_empty : Box3 :=
  mkBox3 (mkVector3 infinity infinity infinity)
         (mkVector3 neg_infinity neg_infinity neg_infinity).

Definition Box3_isEmpty (b : Box3) : bool :=
  (x (bmax b) <? x (bmin b))%float
  || (y (bmax b) <? y (bmin b))%float
  || (z (bmax b) <? z (bmin b))%float.

Definition Box3_getSize (b : Box3) : Vector3 :=
  if Box3_isEmpty b then origin else Vector3_sub (bmax b) (bmin b).

Definition Box3_getCenter (b : Box3) : Vector3 :=
  if Box3_isEmpty b then origin
  else Vector3_multiplyScalar (Vector3_add (bmin b) (bmax b)) 0.5.

(** [THREE.Color], kept as its 24-bit [0xRRGGBB] value. *)
Definition Color : Type := N.

Definition hexDigit (d : N) : ascii :=
  match d with
  | 0 => "0" | 1 => "1" | 2 => "2" | 3 => "3" | 4 => "4" | 5 => "5"
  | 6 => "6" | 7 => "7" | 8 => "8" | 9 => "9" | 10 => "a" | 11 => "b"
  | 12 => "c" | 13 => "d" | 14 => "e" | _ => "f"
  end%N%char.

Definition nibble (c : Color) (i : N) : N := N.land (N.shiftr c (4 * i)) 15.

(** [color.getHexString()]: six lower-case hexadecimal digits. *)
Definition getHexString (c : Color) : string :=
  String (hexDigit (nibble c 5)) (String (hexDigit (nibble c 4))
 (String (hexDigit (nibble c 3)) (String (hexDigit (nibble c 2))
 (String (hexDigit (nibble c 1)) (String (hexDigit (nibble c 0)) ""))))).

Definition hexValue (a : ascii) : option N :=
  let n := N_of_ascii a in
  if (48 <=? n)%N && (n <=? 57)%N then Some (n - 48)%N
  else if (97 <=? n)%N && (n <=? 102)%N then Some (n - 87)%N
  else if (65 <=? n)%N && (n <=? 70)%N then Some (n - 55)%N
  else None.

Fixpoint parseHex (s : string) (acc : N) : option N :=
  match s with
  | EmptyString => Some acc
  | String a rest =>
      match hexValue a with
      | Some d => parseHex rest (16 * acc + d)%N
      | None => None
      end
  end.

(** [color.setStyle(style)] for the [#rrggbb] and [#rgb] notations, the
    ones a colour input and [getHexString] produce.  [None] stands for
    a style three.js does not recognise (it warns and leaves the colour
    as it was).  Only the hex notations are read here: a colour name or
    a functional notation ([rgb(...)], [hsl(...)]), which three.js does
    read, is [None] too, so what is proved of a colour given by such a
    string is proved of white. *)
Definition Color_setStyle (style : string) : option Color :=
  match style with
  | String "#"%char digits =>
      match parseHex digits 0 with
      | Some v =>
          if (String.length digits =? 6)%nat then Some v
          else if (String.length digits =? 3)%nat then
            let r := N.land (N.shiftr v 8) 15 in
            let g := N.land (N.shiftr v 4) 15 in
            let b := N.land v 15 in
            Some (r * 17 * 65536 + g * 17 * 256 + b * 17)%N
          else None
      | None => None
      end
  | _ => None
  end.

(** [new THREE.Color(style)]: a colour starts white. *)
Definition Color_new (style : string) : Color :=
  default 0xffffff%N (Color_setStyle style).

(** The material classes [cloneAndColorMaterial] tests with
    [instanceof]; every other class is [OtherMaterial]. *)
Inductive MaterialClass :=
| MeshStandardMaterial
| MeshBasicMaterial
| MeshPhongMaterial
| MeshLambertMaterial
| MeshToonMaterial
| OtherMaterial.

Definition hasSettableColor (k : MaterialClass) : bool :=
  match k with OtherMaterial => false | _ => true end.

(** A material object.  [mat_color] is [Some c] when the object has an
    own property [color] that is a [THREE.Color]. *)
Record Material := mkMaterial {
  mat_id : nat;
  mat_class : MaterialClass;
  mat_color : option Color;
}.

(** [THREE.Material | THREE.Material[]]; an array is an object too and
    has an identity of its own. *)
Inductive MaterialSlot :=
| One (m : Material)
| Many (array_id : nat) (ms : list Material).

(** [a === b]. *)
Definition sameRef (a b : MaterialSlot) : bool :=
  match a, b with
  | One m, One m' => Nat.eqb (mat_id m) (mat_id m')
  | Many i _, Many j _ => Nat.eqb i j
  | _, _ => false
  end.

Definition slotMaterials (s : MaterialSlot) : list Material :=
  match s with One m => [m] | Many _ ms => ms end.

(** The ids of the materials a slot holds: what [dispose()] is called
    on when the slot is released. *)
Definition slotIds (s : MaterialSlot) : list nat :=
  mat_id <$> slotMaterials s.

Definition slotColors (s : MaterialSlot) : list (option Color) :=
  mat_color <$> slotMaterials s.

(** [material.clone()]: a new object of the same class with the same
    properties. *)
Definition Material_clone (fresh : nat) (m : Material) : Material :=
  mkMaterial fresh (mat_class m) (mat_color m).

(** A node of the scene graph: a mesh or any other kind of object. *)
Inductive Object3D :=
| Mesh (uuid : string) (material : MaterialSlot) (children : list Object3D)
| Node (uuid : string) (children : list Object3D).

(** [object.traverse(callback)]: the object, then its descendants,
    depth first. *)
Fixpoint traverse (o : Object3D) : list Object3D :=
  let fix traverseAll (os : list Object3D) : list Object3D :=
    match os with
    | [] => []
    | c :: cs => (traverse c ++ traverseAll cs)%list
    end in
  match o with
  | Mesh _ _ cs => o :: traverseAll cs
  | Node _ cs => o :: traverseAll cs
  end.

(** The meshes met by a traversal, with the material each carries. *)
Definition meshesOf (os : list Object3D) : list (string * MaterialSlot) :=
  omap (fun o => match o with
                 | Mesh u m _ => Some (u, m)
                 | Node _ _ => None
                 end) os.

(** The root [Group] of a loaded model.  [geometryBounds] is the union
    of the bounding boxes of the geometry below the root, in the root's
    own frame; the root is not rotated. *)
Record Group := mkGroup {
  group_uuid : string;
  group_children : list Object3D;
  position : Vector3;
  scale : Vector3;
  geometryBounds : Box3;
}.

Definition Group_traverse (g : Group) : list Object3D :=
  traverse (Node (group_uuid g) (group_children g)).

Definition Group_meshes (g : Group) : list (string * MaterialSlot) :=
  meshesOf (Group_traverse g).

(** [new THREE.Box3().setFromObject(group)]: the world-space box of the
    geometry, each corner scaled and translated by the root.  The
    coordinates are moved axis by axis, which is what the product with
    the root's matrix gives when the coordinates are finite (with an
    infinite one the product has [NaN]s on the other axes as well). *)
Definition Box3_setFromObject (g : Group) : Box3 :=
  let b := geometryBounds g in
  if Box3_isEmpty b then Box3_empty
  else
    let ax := (x (scale g) * x (bmin b) + x (position g))%float in
    let bx := (x (scale g) * x (bmax b) + x (position g))%float in
    let ay := (y (scale g) * y (bmin b) + y (position g))%float in
    let by' := (y (scale g) * y (bmax b) + y (position g))%float in
    let az := (z (scale g) * z (bmin b) + z (position g))%float in
    let bz := (z (scale g) * z (bmax b) + z (position g))%float in
    mkBox3 (mkVector3 (Js.min2 ax bx) (Js.min2 ay by') (Js.min2 az bz))
           (mkVector3 (Js.max2 ax bx) (Js.max2 ay by') (Js.max2 az bz)).

End Three.

Import Three.

(* ===================================================================== *)
(** ** The state of the viewer *)
(* ===================================================================== *)

(** The container [div] the canvas is mounted in. *)
Record Mount := mkMount { clientWidth : float; clientHeight : float }.

(** [THREE.WebGLRenderer]: the drawing-surface size and pixel ratio. *)
Record Renderer := mkRenderer {
  r_width : float;
  r_height : float;
  r_pixelRatio : float;
}.

Definition Renderer_setSize (w h : float) (r : Renderer) : Renderer :=
  mkRenderer w h (r_pixelRatio r).

(** [setPixelRatio(value)] stores the ratio and resizes the surface to the
    size it already has. *)
Definition Renderer_setPixelRatio (value : float) (r : Renderer) : Renderer :=
  Renderer_setSize (r_width r) (r_height r)
    (mkRenderer (r_width r) (r_height r) value).

Record Camera := mkCamera { aspect : float; cam_position : Vector3 }.

(** One [renderer.render(scene, camera)] call: the surface size and the
    camera aspect it was drawn with. *)
Record Frame := mkFrame {
  frame_width : float;
  frame_height : float;
  frame_aspect : float;
}.

(** A [toast({ title, variant })] notification. *)
Record Toast := mkToast { title : string; destructive : bool }.

(** The refs of [ModelViewer] ([xxxRef] stands for [xxxRef.current]), its
    [isLoading] state, the state of [Home] the viewer reads and writes
    through its props, and the store of the objects they point to.
    - [sceneRef]: the uuids of the model roots among [scene.children];
    - [controlsRef]: the orbit controls, by their [target];
    - [spotLightRef]: the spot light, by the position of its [target];
    - [groundPlaneRef]: the ground plane, by its [position.y];
    - [gltfLoaderRef]: whether the loader exists;
    - [disposedMaterials], [disposedGeometries]: the [dispose()] calls made
      so far, on materials (by id) and on mesh geometries (by mesh uuid);
    - [frames], [toasts]: the frames rendered by the export and the
      notifications shown, oldest first. *)
#[projections(primitive)]
Record Viewer := mkViewer {
  mountRef : option Mount;
  sceneRef : option (list string);
  cameraRef : option Camera;
  rendererRef : option Renderer;
  controlsRef : option Vector3;
  spotLightRef : option Vector3;
  groundPlaneRef : option float;
  gltfLoaderRef : bool;
  modelGroupRef : option Group;
  gltfOriginalMaterialsRef : gmap string MaterialSlot;
  activeMaterialsRef : gmap string MaterialSlot;
  isLoading : bool;
  meshMaterial : gmap string MaterialSlot;
  nextId : nat;
  disposedMaterials : list nat;
  disposedGeometries : list string;
  frames : list Frame;
  toasts : list Toast;
  selectedPart : option string;
  selectedPartColor : string;
  spotlightPosition : Vector3;
}.

Definition set_mountRef (v : option Mount) (s : Viewer) : Viewer :=
  {| mountRef := v; sceneRef := sceneRef s; cameraRef := cameraRef s;
     rendererRef := rendererRef s; controlsRef := controlsRef s;
     spotLightRef := spotLightRef s; groundPlaneRef := groundPlaneRef s;
     gltfLoaderRef := gltfLoaderRef s; modelGroupRef := modelGroupRef s;
     gltfOriginalMaterialsRef := gltfOriginalMaterialsRef s;
     activeMaterialsRef := activeMaterialsRef s; isLoading := isLoading s;
     meshMaterial := meshMaterial s; nextId := nextId s;
     disposedMaterials := disposedMaterials s;
     disposedGeometries := disposedGeometries s; frames := frames s;
     toasts := toasts s; selectedPart := selectedPart s;
     selectedPartColor := selectedPartColor s;
     spotlightPosition := spotlightPosition s |}.

Definition set_sceneRef (v : option (list string)) (s : Viewer) : Viewer :=
  {| mountRef := mountRef s; sceneRef := v; cameraRef := cameraRef s;
     rendererRef := rendererRef s; controlsRef := controlsRef s;
     spotLightRef := spotLightRef s; groundPlaneRef := groundPlaneRef s;
     gltfLoaderRef := gltfLoaderRef s; modelGroupRef := modelGroupRef s;
     gltfOriginalMaterialsRef := gltfOriginalMaterialsRef s;
     activeMaterialsRef := activeMaterialsRef s; isLoading := isLoading s;
     meshMaterial := meshMaterial s; nextId := nextId s;
     disposedMaterials := disposedMaterials s;
     disposedGeometries := disposedGeometries s; frames := frames s;
     toasts := toasts s; selectedPart := selectedPart s;
     selectedPartColor := selectedPartColor s;
     spotlightPosition := spotlightPosition s |}.

Definition set_cameraRef (v : option Camera) (s : Viewer) : Viewer :=
  {| mountRef := mountRef s; sceneRef := sceneRef s; cameraRef := v;
     rendererRef := rendererRef s; controlsRef := controlsRef s;
     spotLightRef := spotLightRef s; groundPlaneRef := groundPlaneRef s;
     gltfLoaderRef := gltfLoaderRef s; modelGroupRef := modelGroupRef s;
     gltfOriginalMaterialsRef := gltfOriginalMaterialsRef s;
     activeMaterialsRef := activeMaterialsRef s; isLoading := isLoading s;
     meshMaterial := meshMaterial s; nextId := nextId s;
     disposedMaterials := disposedMaterials s;
     disposedGeometries := disposedGeometries s; frames := frames s;
     toasts := toasts s; selectedPart := selectedPart s;
     selectedPartColor := selectedPartColor s;
     spotlightPosition := spotlightPosition s |}.

Definition set_rendererRef (v : option Renderer) (s : Viewer) : Viewer :=
  {| mountRef := mountRef s; sceneRef := sceneRef s;
     cameraRef := cameraRef s; rendererRef := v;
     controlsRef := controlsRef s; spotLightRef := spotLightRef s;
     groundPlaneRef := groundPlaneRef s; gltfLoaderRef := gltfLoaderRef s;
     modelGroupRef := modelGroupRef s;
     gltfOriginalMaterialsRef := gltfOriginalMaterialsRef s;
     activeMaterialsRef := activeMaterialsRef s; isLoading := isLoading s;
     meshMaterial := meshMaterial s; nextId := nextId s;
     disposedMaterials := disposedMaterials s;
     disposedGeometries := disposedGeometries s; frames := frames s;
     toasts := toasts s; selectedPart := selectedPart s;
     selectedPartColor := selectedPartColor s;
     spotlightPosition := spotlightPosition s |}.

Definition set_controlsRef (v : option Vector3) (s : Viewer) : Viewer :=
  {| mountRef := mountRef s; sceneRef := sceneRef s;
     cameraRef := cameraRef s; rendererRef := rendererRef s;
     controlsRef := v; spotLightRef := spotLightRef s;
     groundPlaneRef := groundPlaneRef s; gltfLoaderRef := gltfLoaderRef s;
     modelGroupRef := modelGroupRef s;
     gltfOriginalMaterialsRef := gltfOriginalMaterialsRef s;
     activeMaterialsRef := activeMaterialsRef s; isLoading := isLoading s;
     meshMaterial := meshMaterial s; nextId := nextId s;
     disposedMaterials := disposedMaterials s;
     disposedGeometries := disposedGeometries s; frames := frames s;
     toasts := toasts s; selectedPart := selectedPart s;
     selectedPartColor := selectedPartColor s;
     spotlightPosition := spotlightPosition s |}.

Definition set_spotLightRef (v : option Vector3) (s : Viewer) : Viewer :=
  {| mountRef := mountRef s; sceneRef := sceneRef s;
     cameraRef := cameraRef s; rendererRef := rendererRef s;
     controlsRef := controlsRef s; spotLightRef := v;
     groundPlaneRef := groundPlaneRef s; gltfLoaderRef := gltfLoaderRef s;
     modelGroupRef := modelGroupRef s;
     gltfOriginalMaterialsRef := gltfOriginalMaterialsRef s;
     activeMaterialsRef := activeMaterialsRef s; isLoading := isLoading s;
     meshMaterial := meshMaterial s; nextId := nextId s;
     disposedMaterials := disposedMaterials s;
     disposedGeometries := disposedGeometries s; frames := frames s;
     toasts := toasts s; selectedPart := selectedPart s;
     selectedPartColor := selectedPartColor s;
     spotlightPosition := spotlightPosition s |}.

Definition set_groundPlaneRef (v : option float) (s : Viewer) : Viewer :=
  {| mountRef := mountRef s; sceneRef := sceneRef s;
     cameraRef := cameraRef s; rendererRef := rendererRef s;
     controlsRef := controlsRef s; spotLightRef := spotLightRef s;
     groundPlaneRef := v; gltfLoaderRef := gltfLoaderRef s;
     modelGroupRef := modelGroupRef s;
     gltfOriginalMaterialsRef := gltfOriginalMaterialsRef s;
     activeMaterialsRef := activeMaterialsRef s; isLoading := isLoading s;
     meshMaterial := meshMaterial s; nextId := nextId s;
     disposedMaterials := disposedMaterials s;
     disposedGeometries := disposedGeometries s; frames := frames s;
     toasts := toasts s; selectedPart := selectedPart s;
     selectedPartColor := selectedPartColor s;
     spotlightPosition := spotlightPosition s |}.

Definition set_modelGroupRef (v : option Group) (s : Viewer) : Viewer :=
  {| mountRef := mountRef s; sceneRef := sceneRef s;
     cameraRef := cameraRef s; rendererRef := rendererRef s;
     controlsRef := controlsRef s; spotLightRef := spotLightRef s;
     groundPlaneRef := groundPlaneRef s; gltfLoaderRef := gltfLoaderRef s;
     modelGroupRef := v;
     gltfOriginalMaterialsRef := gltfOriginalMaterialsRef s;
     activeMaterialsRef := activeMaterialsRef s; isLoading := isLoading s;
     meshMaterial := meshMaterial s; nextId := nextId s;
     disposedMaterials := disposedMaterials s;
     disposedGeometries := disposedGeometries s; frames := frames s;
     toasts := toasts s; selectedPart := selectedPart s;
     selectedPartColor := selectedPartColor s;
     spotlightPosition := spotlightPosition s |}.

Definition set_gltfOriginalMaterialsRef (v : gmap string MaterialSlot) (s : Viewer) : Viewer :=
  {| mountRef := mountRef s; sceneRef := sceneRef s;
     cameraRef := cameraRef s; rendererRef := rendererRef s;
     controlsRef := controlsRef s; spotLightRef := spotLightRef s;
     groundPlaneRef := groundPlaneRef s; gltfLoaderRef := gltfLoaderRef s;
     modelGroupRef := modelGroupRef s; gltfOriginalMaterialsRef := v;
     activeMaterialsRef := activeMaterialsRef s; isLoading := isLoading s;
     meshMaterial := meshMaterial s; nextId := nextId s;
     disposedMaterials := disposedMaterials s;
     disposedGeometries := disposedGeometries s; frames := frames s;
     toasts := toasts s; selectedPart := selectedPart s;
     selectedPartColor := selectedPartColor s;
     spotlightPosition := spotlightPosition s |}.

Definition set_activeMaterialsRef (v : gmap string MaterialSlot) (s : Viewer) : Viewer :=
  {| mountRef := mountRef s; sceneRef := sceneRef s;
     cameraRef := cameraRef s; rendererRef := rendererRef s;
     controlsRef := controlsRef s; spotLightRef := spotLightRef s;
     groundPlaneRef := groundPlaneRef s; gltfLoaderRef := gltfLoaderRef s;
     modelGroupRef := modelGroupRef s;
     gltfOriginalMaterialsRef := gltfOriginalMaterialsRef s;
     activeMaterialsRef := v; isLoading := isLoading s;
     meshMaterial := meshMaterial s; nextId := nextId s;
     disposedMaterials := disposedMaterials s;
     disposedGeometries := disposedGeometries s; frames := frames s;
     toasts := toasts s; selectedPart := selectedPart s;
     selectedPartColor := selectedPartColor s;
     spotlightPosition := spotlightPosition s |}.

Definition set_isLoading (v : bool) (s : Viewer) : Viewer :=
  {| mountRef := mountRef s; sceneRef := sceneRef s;
     cameraRef := cameraRef s; rendererRef := rendererRef s;
     controlsRef := controlsRef s; spotLightRef := spotLightRef s;
     groundPlaneRef := groundPlaneRef s; gltfLoaderRef := gltfLoaderRef s;
     modelGroupRef := modelGroupRef s;
     gltfOriginalMaterialsRef := gltfOriginalMaterialsRef s;
     activeMaterialsRef := activeMaterialsRef s; isLoading := v;
     meshMaterial := meshMaterial s; nextId := nextId s;
     disposedMaterials := disposedMaterials s;
     disposedGeometries := disposedGeometries s; frames := frames s;
     toasts := toasts s; selectedPart := selectedPart s;
     selectedPartColor := selectedPartColor s;
     spotlightPosition := spotlightPosition s |}.

Definition set_meshMaterial (v : gmap string MaterialSlot) (s : Viewer) : Viewer :=
  {| mountRef := mountRef s; sceneRef := sceneRef s;
     cameraRef := cameraRef s; rendererRef := rendererRef s;
     controlsRef := controlsRef s; spotLightRef := spotLightRef s;
     groundPlaneRef := groundPlaneRef s; gltfLoaderRef := gltfLoaderRef s;
     modelGroupRef := modelGroupRef s;
     gltfOriginalMaterialsRef := gltfOriginalMaterialsRef s;
     activeMaterialsRef := activeMaterialsRef s; isLoading := isLoading s;
     meshMaterial := v; nextId := nextId s;
     disposedMaterials := disposedMaterials s;
     disposedGeometries := disposedGeometries s; frames := frames s;
     toasts := toasts s; selectedPart := selectedPart s;
     selectedPartColor := selectedPartColor s;
     spotlightPosition := spotlightPosition s |}.

Definition set_nextId (v : nat) (s : Viewer) : Viewer :=
  {| mountRef := mountRef s; sceneRef := sceneRef s;
     cameraRef := cameraRef s; rendererRef := rendererRef s;
     controlsRef := controlsRef s; spotLightRef := spotLightRef s;
     groundPlaneRef := groundPlaneRef s; gltfLoaderRef := gltfLoaderRef s;
     modelGroupRef := modelGroupRef s;
     gltfOriginalMaterialsRef := gltfOriginalMaterialsRef s;
     activeMaterialsRef := activeMaterialsRef s; isLoading := isLoading s;
     meshMaterial := meshMaterial s; nextId := v;
     disposedMaterials := disposedMaterials s;
     disposedGeometries := disposedGeometries s; frames := frames s;
     toasts := toasts s; selectedPart := selectedPart s;
     selectedPartColor := selectedPartColor s;
     spotlightPosition := spotlightPosition s |}.

Definition set_disposedMaterials (v : list nat) (s : Viewer) : Viewer :=
  {| mountRef := mountRef s; sceneRef := sceneRef s;
     cameraRef := cameraRef s; rendererRef := rendererRef s;
     controlsRef := controlsRef s; spotLightRef := spotLightRef s;
     groundPlaneRef := groundPlaneRef s; gltfLoaderRef := gltfLoaderRef s;
     modelGroupRef := modelGroupRef s;
     gltfOriginalMaterialsRef := gltfOriginalMaterialsRef s;
     activeMaterialsRef := activeMaterialsRef s; isLoading := isLoading s;
     meshMaterial := meshMaterial s; nextId := nextId s;
     disposedMaterials := v; disposedGeometries := disposedGeometries s;
     frames := frames s; toasts := toasts s; selectedPart := selectedPart s;
     selectedPartColor := selectedPartColor s;
     spotlightPosition := spotlightPosition s |}.

Definition set_disposedGeometries (v : list string) (s : Viewer) : Viewer :=
  {| mountRef := mountRef s; sceneRef := sceneRef s;
     cameraRef := cameraRef s; rendererRef := rendererRef s;
     controlsRef := controlsRef s; spotLightRef := spotLightRef s;
     groundPlaneRef := groundPlaneRef s; gltfLoaderRef := gltfLoaderRef s;
     modelGroupRef := modelGroupRef s;
     gltfOriginalMaterialsRef := gltfOriginalMaterialsRef s;
     activeMaterialsRef := activeMaterialsRef s; isLoading := isLoading s;
     meshMaterial := meshMaterial s; nextId := nextId s;
     disposedMaterials := disposedMaterials s; disposedGeometries := v;
     frames := frames s; toasts := toasts s; selectedPart := selectedPart s;
     selectedPartColor := selectedPartColor s;
     spotlightPosition := spotlightPosition s |}.

Definition set_frames (v : list Frame) (s : Viewer) : Viewer :=
  {| mountRef := mountRef s; sceneRef := sceneRef s;
     cameraRef := cameraRef s; rendererRef := rendererRef s;
     controlsRef := controlsRef s; spotLightRef := spotLightRef s;
     groundPlaneRef := groundPlaneRef s; gltfLoaderRef := gltfLoaderRef s;
     modelGroupRef := modelGroupRef s;
     gltfOriginalMaterialsRef := gltfOriginalMaterialsRef s;
     activeMaterialsRef := activeMaterialsRef s; isLoading := isLoading s;
     meshMaterial := meshMaterial s; nextId := nextId s;
     disposedMaterials := disposedMaterials s;
     disposedGeometries := disposedGeometries s; frames := v;
     toasts := toasts s; selectedPart := selectedPart s;
     selectedPartColor := selectedPartColor s;
     spotlightPosition := spotlightPosition s |}.

Definition set_toasts (v : list Toast) (s : Viewer) : Viewer :=
  {| mountRef := mountRef s; sceneRef := sceneRef s;
     cameraRef := cameraRef s; rendererRef := rendererRef s;
     controlsRef := controlsRef s; spotLightRef := spotLightRef s;
     groundPlaneRef := groundPlaneRef s; gltfLoaderRef := gltfLoaderRef s;
     modelGroupRef := modelGroupRef s;
     gltfOriginalMaterialsRef := gltfOriginalMaterialsRef s;
     activeMaterialsRef := activeMaterialsRef s; isLoading := isLoading s;
     meshMaterial := meshMaterial s; nextId := nextId s;
     disposedMaterials := disposedMaterials s;
     disposedGeometries := disposedGeometries s; frames := frames s;
     toasts := v; selectedPart := selectedPart s;
     selectedPartColor := selectedPartColor s;
     spotlightPosition := spotlightPosition s |}.

Definition set_selectedPart (v : option string) (s : Viewer) : Viewer :=
  {| mountRef := mountRef s; sceneRef := sceneRef s;
     cameraRef := cameraRef s; rendererRef := rendererRef s;
     controlsRef := controlsRef s; spotLightRef := spotLightRef s;
     groundPlaneRef := groundPlaneRef s; gltfLoaderRef := gltfLoaderRef s;
     modelGroupRef := modelGroupRef s;
     gltfOriginalMaterialsRef := gltfOriginalMaterialsRef s;
     activeMaterialsRef := activeMaterialsRef s; isLoading := isLoading s;
     meshMaterial := meshMaterial s; nextId := nextId s;
     disposedMaterials := disposedMaterials s;
     disposedGeometries := disposedGeometries s; frames := frames s;
     toasts := toasts s; selectedPart := v;
     selectedPartColor := selectedPartColor s;
     spotlightPosition := spotlightPosition s |}.

Definition set_selectedPartColor (v : string) (s : Viewer) : Viewer :=
  {| mountRef := mountRef s; sceneRef := sceneRef s;
     cameraRef := cameraRef s; rendererRef := rendererRef s;
     controlsRef := controlsRef s; spotLightRef := spotLightRef s;
     groundPlaneRef := groundPlaneRef s; gltfLoaderRef := gltfLoaderRef s;
     modelGroupRef := modelGroupRef s;
     gltfOriginalMaterialsRef := gltfOriginalMaterialsRef s;
     activeMaterialsRef := activeMaterialsRef s; isLoading := isLoading s;
     meshMaterial := meshMaterial s; nextId := nextId s;
     disposedMaterials := disposedMaterials s;
     disposedGeometries := disposedGeometries s; frames := frames s;
     toasts := toasts s; selectedPart := selectedPart s;
     selectedPartColor := v; spotlightPosition := spotlightPosition s |}.

Definition set_spotlightPosition (v : Vector3) (s : Viewer) : Viewer :=
  {| mountRef := mountRef s; sceneRef := sceneRef s;
     cameraRef := cameraRef s; rendererRef := rendererRef s;
     controlsRef := controlsRef s; spotLightRef := spotLightRef s;
     groundPlaneRef := groundPlaneRef s; gltfLoaderRef := gltfLoaderRef s;
     modelGroupRef := modelGroupRef s;
     gltfOriginalMaterialsRef := gltfOriginalMaterialsRef s;
     activeMaterialsRef := activeMaterialsRef s; isLoading := isLoading s;
     meshMaterial := meshMaterial s; nextId := nextId s;
     disposedMaterials := disposedMaterials s;
     disposedGeometries := disposedGeometries s; frames := frames s;
     toasts := toasts s; selectedPart := selectedPart s;
     selectedPartColor := selectedPartColor s; spotlightPosition := v |}.

Definition toast (t : string) (isDestructive : bool) (s : Viewer) : Viewer :=
  set_toasts (toasts s ++ [mkToast t isDestructive]) s.

(** The viewer once the scene-initialisation effect has run in a
    container of the given client size, before any model is chosen. *)
Definition initialViewer (width height devicePixelRatio : float) : Viewer :=
  {| mountRef := Some (mkMount width height);
     sceneRef := Some [];
     cameraRef := Some (mkCamera (width / height) (mkVector3 0 1.5 5));
     rendererRef :=
       Some (Renderer_setPixelRatio devicePixelRatio
               (Renderer_setSize width height (mkRenderer 0 0 1)));
     controlsRef := Some origin;
     spotLightRef := Some origin;
     groundPlaneRef := Some (-1)%float;
     gltfLoaderRef := true;
     modelGroupRef := None;
     gltfOriginalMaterialsRef := ∅;
     activeMaterialsRef := ∅;
     isLoading := false;
     meshMaterial := ∅;
     nextId := 0;
     disposedMaterials := [];
     disposedGeometries := [];
     frames := [];
     toasts := [];
     selectedPart := None;
     selectedPartColor := "#FF0000";
     spotlightPosition := mkVector3 5 10 7.5 |}.

(* ===================================================================== *)
(** ** Framing the camera and the light: [adjustCameraAndLightsToModel] *)
(* ===================================================================== *)

(** [Math.max(size.x, size.y, size.z) || 1]. *)
Definition maxDimOf (size : Vector3) : float :=
  Js.or_else (Js.Math_max (x size) (y size) (z size)) 1.

(** [fitScale]: [5 / maxDim], replaced by [1] when [maxDim === 0] or the
    quotient is not finite. *)
Definition fitScaleOf (size : Vector3) : float :=
  let maxDim := maxDimOf size in
  let fitScale := (5 / maxDim)%float in
  if (maxDim =? 0)%float || negb (Js.Number_isFinite fitScale) then 1%float
  else fitScale.

Definition adjustCameraAndLightsToModel (s : Viewer) : Viewer :=
  match modelGroupRef s, cameraRef s, controlsRef s, spotLightRef s,
        sceneRef s with
  | Some modelGroup, Some camera, Some _, Some _, Some _ =>
      let box := Box3_setFromObject modelGroup in
      let size := Box3_getSize box in
      let center := Box3_getCenter box in
      let maxDim := maxDimOf size in
      let fitScale := fitScaleOf size in
      let scaled :=
        mkGroup (group_uuid modelGroup) (group_children modelGroup)
                (position modelGroup) (mkVector3 fitScale fitScale fitScale)
                (geometryBounds modelGroup) in
      let scaledBox := Box3_setFromObject scaled in
      let centered :=
        mkGroup (group_uuid scaled) (group_children scaled)
                (Vector3_sub (position scaled) (Box3_getCenter scaledBox))
                (scale scaled) (geometryBounds scaled) in
      let s := set_modelGroupRef (Some centered) s in
      let s :=
        set_cameraRef
          (Some (mkCamera (aspect camera)
                   (mkVector3 0 (y (Box3_getSize scaledBox) * 0.75)
                              (maxDim * fitScale * 1.5)))) s in
      let s := set_controlsRef (Some origin) s in
      let s :=
        match groundPlaneRef s with
        | Some _ => set_groundPlaneRef (Some (y (bmin scaledBox))) s
        | None => s
        end in
      let lightOffsetFactor := 1.5%float in
      let lightX :=
        (x (bmax scaledBox) + x size * fitScale * 0.2 * lightOffsetFactor)%float in
      let lightY :=
        (y (bmax scaledBox) + y size * fitScale * 0.5 * lightOffsetFactor)%float in
      let lightZ := (z center + z size * fitScale * lightOffsetFactor)%float in
      let s := set_spotlightPosition (mkVector3 lightX lightY lightZ) s in
      set_spotLightRef (Some origin) s
  | _, _, _, _, _ => s
  end.

(* ===================================================================== *)
(** ** Exporting a still image: [exportToImage], and [handleResize] *)
(* ===================================================================== *)

Definition render (r : Renderer) (c : Camera) (s : Viewer) : Viewer :=
  set_frames (frames s ++ [mkFrame (r_width r) (r_height r) (aspect c)]) s.

(** [exportToImage(scale)].  The calls into the renderer and the DOM are
    taken not to throw, so the [catch] branch is not entered. *)
Definition exportToImage (scale : float) (s : Viewer) : Viewer :=
  match rendererRef s, sceneRef s, cameraRef s, mountRef s with
  | Some renderer, Some _, Some camera, Some mount =>
      let originalWidth := clientWidth mount in
      let originalHeight := clientHeight mount in
      let targetWidth := Js.Math_round (originalWidth * scale) in
      let targetHeight := Js.Math_round (originalHeight * scale) in
      let currentPixelRatio := r_pixelRatio renderer in
      let originalAspect := aspect camera in
      let renderer := Renderer_setSize targetWidth targetHeight renderer in
      let camera := mkCamera (targetWidth / targetHeight) (cam_position camera) in
      let s := render renderer camera s in
      let renderer := Renderer_setSize originalWidth originalHeight renderer in
      let renderer := Renderer_setPixelRatio currentPixelRatio renderer in
      let camera := mkCamera originalAspect (cam_position camera) in
      let s := render renderer camera s in
      let s := set_rendererRef (Some renderer) (set_cameraRef (Some camera) s) in
      toast "Image Exported" false s
  | _, _, _, _ => toast "Export Error" true s
  end.

(** The window's [resize] listener. *)
Definition handleResize (s : Viewer) : Viewer :=
  match rendererRef s, cameraRef s, mountRef s with
  | Some renderer, Some camera, Some currentMount =>
      let newWidth := clientWidth currentMount in
      let newHeight := clientHeight currentMount in
      set_cameraRef (Some (mkCamera (newWidth / newHeight) (cam_position camera)))
        (set_rendererRef (Some (Renderer_setSize newWidth newHeight renderer)) s)
  | _, _, _ => s
  end.

(** The window is resized: the container, which fills it, takes the new
    client size and the [resize] listener runs. *)
Definition windowResized (width height : float) (s : Viewer) : Viewer :=
  match mountRef s with
  | Some _ => handleResize (set_mountRef (Some (mkMount width height)) s)
  | None => s
  end.

(* ===================================================================== *)
(** ** Recolouring the selected part *)
(* ===================================================================== *)

(** [cloneAndColorMaterial]: clone, then set the colour if the clone has
    a colour property or is of a class known to take one. *)
Definition cloneAndColorMaterial (colorToApply : Color) (fresh : nat)
    (originalMat : Material) : Material :=
  let clonedMat := Material_clone fresh originalMat in
  match mat_color clonedMat with
  | Some _ => mkMaterial (mat_id clonedMat) (mat_class clonedMat) (Some colorToApply)
  | None =>
      if hasSettableColor (mat_class clonedMat)
      then mkMaterial (mat_id clonedMat) (mat_class clonedMat) (Some colorToApply)
      else clonedMat
  end.

(** The new material or, for an array, [original.map(cloneAndColorMaterial)];
    the new objects take the ids from [fresh] on. *)
Definition cloneAndColorSlot (colorToApply : Color) (fresh : nat)
    (trueOriginalMaterialBase : MaterialSlot) : MaterialSlot :=
  match trueOriginalMaterialBase with
  | One m => One (cloneAndColorMaterial colorToApply fresh m)
  | Many _ ms =>
      Many fresh (imap (fun i m => cloneAndColorMaterial colorToApply (S fresh + i) m) ms)
  end.

(** How many objects [cloneAndColorSlot] creates. *)
Definition slotObjects (m : MaterialSlot) : nat :=
  match m with One _ => 1 | Many _ ms => S (length ms) end.

(** The materials the effect disposes before it installs the new one. *)
Definition previousToDispose (previousActiveMaterial : option MaterialSlot)
    (trueOriginalMaterialBase newColoredMaterial : MaterialSlot) : list nat :=
  match previousActiveMaterial with
  | Some previous =>
      if negb (sameRef previous trueOriginalMaterialBase)
         && negb (sameRef previous newColoredMaterial)
      then
        let isPreviousAClone := negb (sameRef previous trueOriginalMaterialBase) in
        if isPreviousAClone then slotIds previous else []
      else []
  | None => []
  end.

(** The body of the effect that depends on [selectedPart] and
    [selectedPartColor]. *)
Definition applyPartColor (currentPart : option string) (partColor : string)
    (s : Viewer) : Viewer :=
  match currentPart, modelGroupRef s with
  | Some uuid, Some _ =>
      match gltfOriginalMaterialsRef s !! uuid with
      | Some trueOriginalMaterialBase =>
          let colorToApply := Color_new partColor in
          let newColoredMaterial :=
            cloneAndColorSlot colorToApply (nextId s) trueOriginalMaterialBase in
          let disposed :=
            previousToDispose (activeMaterialsRef s !! uuid)
              trueOriginalMaterialBase newColoredMaterial in
          let s := set_nextId (nextId s + slotObjects trueOriginalMaterialBase) s in
          let s := set_disposedMaterials (disposedMaterials s ++ disposed) s in
          let s := set_meshMaterial (<[uuid := newColoredMaterial]> (meshMaterial s)) s in
          set_activeMaterialsRef (<[uuid := newColoredMaterial]> (activeMaterialsRef s)) s
      | None => s
      end
  | _, _ => s
  end.

Definition colorEffect (s : Viewer) : Viewer :=
  applyPartColor (selectedPart s) (selectedPartColor s) s.

(** [setPartColor(identifier, color)] of the specification: the effect
    run for that part and colour. *)
Definition setPartColor (identifier : string) (color : string) (s : Viewer) : Viewer :=
  applyPartColor (Some identifier) color s.

(* ===================================================================== *)
(** ** Selecting a part: [handlePartSelect] of the page *)
(* ===================================================================== *)

(** The [for ... of] loop: the colour of the first material that has one. *)
Fixpoint firstColor (currentMaterial : list Material) : option Color :=
  match currentMaterial with
  | [] => None
  | mat :: rest =>
      match mat_color mat with
      | Some c => Some c
      | None => firstColor rest
      end
  end.

Definition hexStyle (c : Color) : string := String "#"%char (getHexString c).

Definition colorToSet (currentMaterial : MaterialSlot) : string :=
  match currentMaterial with
  | Many _ (mat :: rest) =>
      match firstColor (mat :: rest) with
      | Some c => hexStyle c
      | None => "#FF0000"
      end
  | Many _ [] => "#FF0000"
  | One mat =>
      match mat_color mat with
      | Some c => hexStyle c
      | None => "#FF0000"
      end
  end.

Definition handlePartSelect (part : option string) (s : Viewer) : Viewer :=
  let s' := set_selectedPart part s in
  match part with
  | Some uuid =>
      match meshMaterial s !! uuid with
      | Some currentMaterial => set_selectedPartColor (colorToSet currentMaterial) s'
      | None => s'
      end
  | None => s'
  end.

(** After a state update React renders again and runs the colour effect
    if one of its dependencies differs from the previous render. *)
Definition depsChanged (before after : Viewer) : bool :=
  negb (bool_decide (selectedPart before = selectedPart after)
        && bool_decide (selectedPartColor before = selectedPartColor after)).

Definition rerender (before after : Viewer) : Viewer :=
  if depsChanged before after then colorEffect after else after.

(** The [onPartSelect] prop, as [ModelViewer] calls it. *)
Definition onPartSelect (part : option string) (s : Viewer) : Viewer :=
  rerender s (handlePartSelect part s).

(** [selectPart(identifier | absent)] of the specification. *)
Definition selectPart (identifier : option string) (s : Viewer) : Viewer :=
  onPartSelect identifier s.

(** The colour picker of the panel: [onSelectedPartColorChange]. *)
Definition onSelectedPartColorChange (color : string) (s : Viewer) : Viewer :=
  rerender s (set_selectedPartColor color s).

(** [handleCanvasClick], given the first object the ray hits, if any.
    A mesh of the loaded model is selected, anything else clears the
    selection.  (The ray caster, the pointer and the light gizmo, which
    the handler also checks, are not part of the state.) *)
Definition handleCanvasClick (hit : option string) (s : Viewer) : Viewer :=
  match mountRef s, cameraRef s, modelGroupRef s with
  | Some _, Some _, Some modelGroup =>
      match hit with
      | Some uuid =>
          if bool_decide (uuid ∈ (fst <$> Group_meshes modelGroup))
          then onPartSelect (Some uuid) s
          else onPartSelect None s
      | None => onPartSelect None s
      end
  | _, _, _ => s
  end.

(* ===================================================================== *)
(** ** Loading and unloading a model: the effect on [modelFile] *)
(* ===================================================================== *)

(** What the loader hands to its success callback: [gltf.scene], a new
    [Group] with the identity transform. *)
Record GltfScene := mkGltfScene {
  scene_uuid : string;
  scene_children : list Object3D;
  scene_bounds : Box3;
}.

(** How [loader.parse] answers a payload: it calls the success callback
    with the decoded graph, it calls the error callback (a binary header
    it cannot read, an unsupported version, a resource that fails to
    load), or it throws before it has called either (a payload shorter
    than the four bytes of the magic number, as that of an empty file;
    text that is not JSON).  The call is not wrapped in a [try]. *)
Inductive ParseResult :=
| ParseOk (gltf : GltfScene)
| ParseError (message : string)
| ParseThrows.

(** A chosen file, by what reading and then decoding it gives: the read
    fails, or it ends with an [ArrayBuffer] as [event.target.result],
    which is an object, so truthy, also when the file is empty. *)
Inductive File :=
| Unreadable
| Readable (payload : ParseResult).

(** The id by which [===] compares a slot. *)
Definition refId (m : MaterialSlot) : nat :=
  match m with One mat => mat_id mat | Many a _ => a end.

(** [materialOrArray !== originalMat && materialOrArray], for the entry of
    [activeMaterialsRef] under [uuid]. *)
Definition isCloneWeMade (originals : gmap string MaterialSlot)
    (uuid : string) (materialOrArray : MaterialSlot) : bool :=
  match originals !! uuid with
  | Some originalMat => negb (sameRef materialOrArray originalMat)
  | None => true
  end.

Definition clonesToDispose (originals active : gmap string MaterialSlot) : list nat :=
  '(uuid, materialOrArray) ← map_to_list active;
  if isCloneWeMade originals uuid materialOrArray then slotIds materialOrArray else [].

(** The [activeMaterialsRef.current.forEach] that disposes the clones.
    A [Map] is visited in the order its keys were inserted; here the
    entries come in the order [map_to_list] gives, so of the list
    [clonesToDispose] only the elements are meaningful, not their order
    from one entry to the next. *)
Definition disposeActiveClones (s : Viewer) : Viewer :=
  set_disposedMaterials
    (disposedMaterials s
       ++ clonesToDispose (gltfOriginalMaterialsRef s) (activeMaterialsRef s)) s.

(** Remove the model from the scene, if it is there, and dispose the
    geometry of its meshes. *)
Definition removeModelFromScene (s : Viewer) : Viewer :=
  match modelGroupRef s, sceneRef s with
  | Some modelGroup, Some children =>
      if bool_decide (group_uuid modelGroup ∈ children) then
        let s :=
          set_sceneRef
            (Some (filter (fun u => u ≠ group_uuid modelGroup) children)) s in
        set_disposedGeometries
          (disposedGeometries s ++ (fst <$> Group_meshes modelGroup)) s
      else s
  | _, _ => s
  end.

(** The branch taken when [modelFile] is [null]: [unload()]. *)
Definition unloadModel (s : Viewer) : Viewer :=
  let s := disposeActiveClones s in
  let s := removeModelFromScene s in
  let s := set_modelGroupRef None s in
  let s := set_gltfOriginalMaterialsRef ∅ s in
  let s := set_activeMaterialsRef ∅ s in
  let s := onPartSelect None s in
  set_isLoading false s.

(** The start of [reader.onload], before [loader.parse] is called. *)
Definition clearPreviousModel (s : Viewer) : Viewer :=
  let s := disposeActiveClones s in
  let s := set_gltfOriginalMaterialsRef ∅ s in
  let s := set_activeMaterialsRef ∅ s in
  let s := removeModelFromScene s in
  set_modelGroupRef None s.

(** One more than the largest id of a slot's objects. *)
Definition slotBound (m : MaterialSlot) : nat :=
  match m with
  | One mat => S (mat_id mat)
  | Many a ms => foldr Nat.max (S a) (S <$> (mat_id <$> ms))
  end.

Definition meshesBound (meshes : list (string * MaterialSlot)) : nat :=
  foldr Nat.max 0 (slotBound <$> (snd <$> meshes)).

(** The objects of a decoded graph enter the store: every mesh with the
    material the loader gave it, and the next free id moves past the ids
    of the loader's materials. *)
Definition adoptModel (modelGroup : Group) (s : Viewer) : Viewer :=
  let meshes := Group_meshes modelGroup in
  let s :=
    set_meshMaterial
      (foldl (fun store '(uuid, material) => <[uuid := material]> store)
             (meshMaterial s) meshes) s in
  set_nextId (Nat.max (nextId s) (meshesBound meshes)) s.

(** The callback of the traversal: record the material of a mesh in both
    maps.  (The shadow flags it also sets are not part of the state.) *)
Definition recordMaterial (s : Viewer) (child : string * MaterialSlot) : Viewer :=
  let '(uuid, material) := child in
  let s :=
    set_gltfOriginalMaterialsRef
      (<[uuid := material]> (gltfOriginalMaterialsRef s)) s in
  set_activeMaterialsRef (<[uuid := material]> (activeMaterialsRef s)) s.

(** [scene.add(object)]. *)
Definition Scene_add (uuid : string) (children : list string) : list string :=
  (filter (fun u => u ≠ uuid) children ++ [uuid])%list.

(** The success callback of [loader.parse]. *)
Definition parseSuccess (gltf : GltfScene) (s : Viewer) : Viewer :=
  let modelGroup :=
    mkGroup (scene_uuid gltf) (scene_children gltf) origin (mkVector3 1 1 1)
            (scene_bounds gltf) in
  let s := adoptModel modelGroup s in
  let s := set_modelGroupRef (Some modelGroup) s in
  let s := foldl recordMaterial s (Group_meshes modelGroup) in
  let s :=
    match sceneRef s with
    | Some children => set_sceneRef (Some (Scene_add (group_uuid modelGroup) children)) s
    | None => s
    end in
  let s := adjustCameraAndLightsToModel s in
  let s := toast "Model loaded successfully!" false s in
  let s := set_isLoading false s in
  onPartSelect None s.

(** The error callback of [loader.parse]. *)
Definition parseFailure (message : string) (s : Viewer) : Viewer :=
  set_isLoading false (toast "Error loading model" true s).

(** [reader.onload], with the answer of [loader.parse] to the payload.
    Of the test [event.target?.result && loader && sceneRef.current] only
    the scene is in question: the result of a finished read is an
    [ArrayBuffer], and [loader] is the constant the effect has tested
    before it started the read.  When [loader.parse] throws, the handler
    ends there: nothing is shown and [isLoading] is not reset. *)
Definition readerOnload (payload : ParseResult) (s : Viewer) : Viewer :=
  match sceneRef s with
  | Some _ =>
      let s := clearPreviousModel s in
      match payload with
      | ParseOk gltf => parseSuccess gltf s
      | ParseError message => parseFailure message s
      | ParseThrows => s
      end
  | None => set_isLoading false (toast "File Read Issue" true s)
  end.

Definition readerOnerror (s : Viewer) : Viewer :=
  set_isLoading false (toast "Error Reading File" true s).

(** The effect that depends on [modelFile], with the read and the
    decoding it starts run to their end before anything else happens. *)
Definition loadModelEffect (modelFile : option File) (s : Viewer) : Viewer :=
  match gltfLoaderRef s, sceneRef s with
  | true, Some _ =>
      match modelFile with
      | None => unloadModel s
      | Some file =>
          let s := set_isLoading true s in
          match file with
          | Readable payload => readerOnload payload s
          | Unreadable => readerOnerror s
          end
      end
  | _, _ =>
      match modelFile with
      | Some _ => if isLoading s then s else set_isLoading true s
      | None => s
      end
  end.

(** [load(payload)] and [unload()] of the specification. *)
Definition load (payload : ParseResult) (s : Viewer) : Viewer :=
  loadModelEffect (Some (Readable payload)) s.

Definition unload (s : Viewer) : Viewer := loadModelEffect None s.

(** The read and the decoding are asynchronous and nothing cancels
    them: the effect on a chosen file returns once the read is started,
    [reader.onload] or [reader.onerror] runs when the read ends, and the
    decoder calls back later still.  In between the user can act, and
    another file can be chosen, so the pieces of two loads can
    interleave.  These are the pieces, each run at a time of its own. *)
Inductive Callback :=
| FileChosen
| ReaderLoaded
| ReaderFailed
| Decoded (gltf : GltfScene)
| DecodeFailed (message : string).

(** The effect on a chosen file, up to [reader.readAsArrayBuffer]. *)
Definition startReading (s : Viewer) : Viewer :=
  match gltfLoaderRef s, sceneRef s with
  | true, Some _ => set_isLoading true s
  | _, _ => if isLoading s then s else set_isLoading true s
  end.

(** [FileChosen] is the effect on a chosen file up to the start of the
    read.  [ReaderLoaded] is [reader.onload] up to the call of
    [loader.parse], that is [readerOnload] for a decoder that has not
    called back; the decoder answers later, through [Decoded] or
    [DecodeFailed], or not at all.  [ReaderFailed] is [reader.onerror]. *)
Definition fire (cb : Callback) (s : Viewer) : Viewer :=
  match cb with
  | FileChosen => startReading s
  | ReaderLoaded => readerOnload ParseThrows s
  | ReaderFailed => readerOnerror s
  | Decoded gltf => parseSuccess gltf s
  | DecodeFailed message => parseFailure message s
  end.

(** The objects the loader hands over are new: no material and no
    material array of the graph has an id that is in use. *)
Definition newObjects (gltf : GltfScene) (s : Viewer) : Prop :=
  Forall (fun child : string * MaterialSlot =>
            Forall (fun id => nextId s <= id) (refId child.2 :: slotIds child.2))
         (Group_meshes (mkGroup (scene_uuid gltf) (scene_children gltf) origin
                                (mkVector3 1 1 1) (scene_bounds gltf))).

Definition admissible (cb : Callback) (s : Viewer) : Prop :=
  match cb with
  | Decoded gltf => newObjects gltf s
  | _ => True
  end.

(* ===================================================================== *)
(** ** Exporting the model: [exportToGLB] *)
(* ===================================================================== *)

(** What the exporter answers: a binary buffer, a JSON document, or an
    error. *)
Inductive ExporterResult :=
| ExportedBuffer
| ExportedJson
| ExporterError (message : string).

(** [child.material = activeMaterialsRef.current.get(child.uuid)] for the
    meshes that have an entry. *)
Definition reapplyMaterial (active : gmap string MaterialSlot)
    (store : gmap string MaterialSlot) (child : string * MaterialSlot)
    : gmap string MaterialSlot :=
  match active !! child.1 with
  | Some material => <[child.1 := material]> store
  | None => store
  end.

Definition exportToGLB (result : ExporterResult) (s : Viewer) : Viewer :=
  match modelGroupRef s with
  | None => toast "Export Error" true s
  | Some modelGroup =>
      let s :=
        set_meshMaterial
          (foldl (reapplyMaterial (activeMaterialsRef s)) (meshMaterial s)
                 (Group_meshes modelGroup)) s in
      match result with
      | ExportedBuffer => toast "Model Exported" false s
      | ExportedJson => toast "Export Error" true s
      | ExporterError _ => toast "GLTF Export Error" true s
      end
  end.

(* ===================================================================== *)
(** ** The clean-up of the scene-initialisation effect *)
(* ===================================================================== *)

Section Unmount.

(** The uuid three.js gave to the material with a given id. *)
Variable materialUuid : nat -> string.

(** [(materialOrArray as any)?.uuid || ""]: an array has no uuid. *)
Definition originalKey (materialOrArray : MaterialSlot) : string :=
  match materialOrArray with
  | One m => materialUuid (mat_id m)
  | Many _ _ => ""
  end.

(** The [forEach] of the clean-up: the original is looked up under the
    material's own uuid, in a map whose keys are mesh uuids. *)
Definition cleanupToDispose (originals active : gmap string MaterialSlot) : list nat :=
  '(_, materialOrArray) ← map_to_list active;
  match originals !! originalKey materialOrArray with
  | Some originalMat =>
      if negb (sameRef materialOrArray originalMat) then slotIds materialOrArray
      else []
  | None => slotIds materialOrArray
  end.

(** The part of the clean-up that concerns the model: dispose, clear the
    maps, take the model out of the scene, and drop the scene, the camera
    and the renderer. *)
Definition unmountCleanup (s : Viewer) : Viewer :=
  let s :=
    set_disposedMaterials
      (disposedMaterials s
         ++ cleanupToDispose (gltfOriginalMaterialsRef s) (activeMaterialsRef s)) s in
  let s := set_activeMaterialsRef ∅ s in
  let s := set_gltfOriginalMaterialsRef ∅ s in
  let s := removeModelFromScene s in
  let s := set_modelGroupRef None s in
  let s := set_sceneRef None s in
  let s := set_cameraRef None s in
  set_rendererRef None s.

End Unmount.

(* ===================================================================== *)
(** ** The light helper and its gizmo *)
(* ===================================================================== *)

(** The transform controls, by what the effect on [showLightHelper] reads
    and writes: whether the spot light is attached (nothing else ever
    is), and the [visible] and [enabled] flags. *)
Record TransformControls := mkTransformControls {
  attachedToLight : bool;
  tc_visible : bool;
  tc_enabled : bool;
}.

(** [spotLightHelperRef.current], by its [visible] flag, and how many
    helpers have been constructed and added to the scene. *)
Record LightRig := mkLightRig {
  transformControlsRef : option TransformControls;
  lightAndScene : bool;
  spotLightHelperRef : option bool;
  helpersInScene : nat;
}.

(** The effect that depends on [showLightHelper]. *)
Definition lightHelperEffect (showLightHelper : bool) (r : LightRig) : LightRig :=
  match transformControlsRef r, lightAndScene r with
  | Some tc, true =>
      if showLightHelper then
        let tc := mkTransformControls true true true in
        match spotLightHelperRef r with
        | None => mkLightRig (Some tc) true (Some true) (S (helpersInScene r))
        | Some _ => mkLightRig (Some tc) true (Some true) (helpersInScene r)
        end
      else
        let tc := mkTransformControls false false false in
        match spotLightHelperRef r with
        | Some _ => mkLightRig (Some tc) true (Some false) (helpersInScene r)
        | None => mkLightRig (Some tc) true None (helpersInScene r)
        end
  | _, _ => r
  end.

(** The rig after the scene initialisation: controls in the scene, no
    helper yet. *)
Definition initialLightRig : LightRig :=
  mkLightRig (Some (mkTransformControls false true true)) true None 0.

(** The operations of the session, and the viewer after each. *)
Inductive Operation :=
| OpLoadModel (modelFile : option File)
| OpSelectPart (identifier : option string)
| OpCanvasClick (hit : option string)
| OpSetPartColor (identifier : string) (color : string)
| OpPartColorChange (color : string)
| OpExportImage (scale : float)
| OpExportModel (result : ExporterResult)
| OpWindowResize (width height : float).

Definition run (op : Operation) (s : Viewer) : Viewer :=
  match op with
  | OpLoadModel modelFile => loadModelEffect modelFile s
  | OpSelectPart identifier => selectPart identifier s
  | OpCanvasClick hit => handleCanvasClick hit s
  | OpSetPartColor identifier color => setPartColor identifier color s
  | OpPartColorChange color => onSelectedPartColorChange color s
  | OpExportImage scale => exportToImage scale s
  | OpExportModel result => exportToGLB result s
  | OpWindowResize width height => windowResized width height s
  end.

(** The viewer states that can arise: the initial one, those the
    operations lead to, and those the pieces of a load lead to when they
    run one by one, in any order and with anything in between.  (A piece
    may run here although no load has started it; what holds of every
    such state holds of every state of the program.) *)
Inductive reachable : Viewer -> Prop :=
| reachable_initial (width height devicePixelRatio : float) :
    reachable (initialViewer width height devicePixelRatio)
| reachable_run (op : Operation) (s : Viewer) :
    reachable s -> reachable (run op s)
| reachable_fire (cb : Callback) (s : Viewer) :
    reachable s -> admissible cb s -> reachable (fire cb s).

(** The viewer before the scene-initialisation effect has run: every
    ref is [null]. *)
Definition unmountedViewer : Viewer :=
  {| mountRef := None; sceneRef := None; cameraRef := None; rendererRef := None;
     controlsRef := None; spotLightRef := None; groundPlaneRef := None;
     gltfLoaderRef := false; modelGroupRef := None;
     gltfOriginalMaterialsRef := ∅; activeMaterialsRef := ∅; isLoading := false;
     meshMaterial := ∅; nextId := 0; disposedMaterials := [];
     disposedGeometries := []; frames := []; toasts := [];
     selectedPart := None; selectedPartColor := "#FF0000";
     spotlightPosition := mkVector3 5 10 7.5 |}.

(* ===================================================================== *)
(** ** The properties of the session, as predicates on states *)
(* ===================================================================== *)

(** [act] is a clone of [orig] made by the colour effect. *)
Definition cloneOf (orig act : MaterialSlot) : Prop :=
  exists (c : Color) (fresh : nat), act = cloneAndColorSlot c fresh orig.

(** The invariant of the two material maps. *)
Definition session_inv (s : Viewer) : Prop :=
  forall (uuid : string) (act : MaterialSlot),
    activeMaterialsRef s !! uuid = Some act ->
    exists orig : MaterialSlot,
      gltfOriginalMaterialsRef s !! uuid = Some orig
      /\ (sameRef act orig = true \/ cloneOf orig act).

(** Object ids: every object of the two maps was allocated below
    [nextId], and an active entry that is not its original shares no
    material with any original. *)
Definition store_fresh (s : Viewer) : Prop :=
  (forall uuid orig, gltfOriginalMaterialsRef s !! uuid = Some orig ->
     slotBound orig <= nextId s)
  /\ (forall uuid act, activeMaterialsRef s !! uuid = Some act ->
       slotBound act <= nextId s)
  /\ (forall uuid act orig,
       activeMaterialsRef s !! uuid = Some act ->
       gltfOriginalMaterialsRef s !! uuid = Some orig ->
       sameRef act orig = false ->
       forall uuid' orig' id,
         gltfOriginalMaterialsRef s !! uuid' = Some orig' ->
         id ∈ slotIds act -> id ∉ slotIds orig').

(** The objects the initialisation creates are all there, and the
    renderer has the size of its container. *)
Definition stage_ready (s : Viewer) : Prop :=
  gltfLoaderRef s = true
  /\ is_Some (sceneRef s) /\ is_Some (cameraRef s)
  /\ exists renderer mount,
      rendererRef s = Some renderer /\ mountRef s = Some mount
      /\ r_width renderer = clientWidth mount
      /\ r_height renderer = clientHeight mount.

(** What the specification asks of a load whose decoding fails: the
    session is as it was. *)
Definition sessionPreserved (before after : Viewer) : Prop :=
  modelGroupRef after = modelGroupRef before
  /\ gltfOriginalMaterialsRef after = gltfOriginalMaterialsRef before
  /\ activeMaterialsRef after = activeMaterialsRef before
  /\ sceneRef after = sceneRef before.


(** What the specification asks of [selectPart]: nothing cloned,
    installed or disposed, and the active map as it was. *)
Definition materialsUntouched (before after : Viewer) : Prop :=
  activeMaterialsRef after = activeMaterialsRef before
  /\ meshMaterial after = meshMaterial before
  /\ disposedMaterials after = disposedMaterials before
  /\ nextId after = nextId before.

(** The part of the state [stage_ready] looks at. *)
Definition stageView (s : Viewer)
  : option Mount * option Renderer * bool * bool * bool :=
  (mountRef s, rendererRef s, gltfLoaderRef s,
   bool_decide (is_Some (sceneRef s)), bool_decide (is_Some (cameraRef s))).

(** The part of the state the material invariants look at. *)
Definition mapsView (s : Viewer)
  : gmap string MaterialSlot * gmap string MaterialSlot * nat :=
  (gltfOriginalMaterialsRef s, activeMaterialsRef s, nextId s).

(** One step of the traversal on a map: the entry of a mesh. *)
Definition insertEntry (m : gmap string MaterialSlot) (child : string * MaterialSlot)
  : gmap string MaterialSlot := <[child.1 := child.2]> m.

(** Both maps hold the same entries, all allocated below [nextId]: the
    state a load or an unload leaves. *)
Definition freshlyLoaded (s : Viewer) : Prop :=
  activeMaterialsRef s = gltfOriginalMaterialsRef s
  /\ forall uuid m,
       gltfOriginalMaterialsRef s !! uuid = Some m -> slotBound m <= nextId s.

(** Whether [cloneAndColorMaterial] gives the clone of [m] the colour:
    the material has a colour of its own, or is of a class that takes
    one. *)
Definition takesColor (m : Material) : bool :=
  bool_decide (is_Some (mat_color m)) || hasSettableColor (mat_class m).

(** The session proper: the maps, the model, the scene, the store and the
    disposal logs. *)
Definition sessionCore (s : Viewer) :=
  (gltfOriginalMaterialsRef s, activeMaterialsRef s, meshMaterial s, nextId s,
   disposedMaterials s, disposedGeometries s, modelGroupRef s, sceneRef s).

(** The drawing surface: the container, the renderer and the aspect
    ratio of the camera. *)
Definition surfaceView (s : Viewer) : option Mount * option Renderer * option float :=
  (mountRef s, rendererRef s, aspect <$> cameraRef s).

(** The renderer and the camera fit the container. *)
Definition surface_inv (s : Viewer) : Prop :=
  exists renderer camera mount,
    rendererRef s = Some renderer /\ cameraRef s = Some camera
    /\ mountRef s = Some mount
    /\ r_width renderer = clientWidth mount
    /\ r_height renderer = clientHeight mount
    /\ aspect camera = (clientWidth mount / clientHeight mount)%float.

(** The current model is a child of the scene. *)
Definition scene_inv (s : Viewer) : Prop :=
  forall g, modelGroupRef s = Some g ->
    exists children, sceneRef s = Some children /\ group_uuid g ∈ children.

(** Every active entry is the material its mesh carries. *)
Definition installed_inv (s : Viewer) : Prop :=
  forall uuid m, activeMaterialsRef s !! uuid = Some m -> meshMaterial s !! uuid = Some m.

(** Without a model both maps are empty. *)
Definition idle_inv (s : Viewer) : Prop :=
  modelGroupRef s = None ->
  gltfOriginalMaterialsRef s = ∅ /\ activeMaterialsRef s = ∅.

(** Both maps have the same keys. *)
Definition keys_inv (s : Viewer) : Prop :=
  dom (activeMaterialsRef s) = dom (gltfOriginalMaterialsRef s).

(** The load effect tears the previous model down when the file is
    removed, and when it has been read and handed to the decoder. *)
Definition tearsDown (modelFile : option File) : bool :=
  match modelFile with
  | None => true
  | Some (Readable _) => true
  | Some Unreadable => false
  end.

(** The count of helpers agrees with the helper ref: one when there is
    a helper, none otherwise. *)
Definition helper_counted (r : LightRig) : Prop :=
  helpersInScene r = match spotLightHelperRef r with Some _ => 1 | None => 0 end.

(** A loaded model to try the operations on: a car whose body has two
    materials and whose wheel has one, in a 2 x 2 x 2 box around
    (10, 10, 10). *)
Definition paint : Material := mkMaterial 0 MeshStandardMaterial (Some 0xffffff%N).
Definition glass : Material := mkMaterial 2 MeshStandardMaterial (Some 0x00ff00%N).
Definition shader : Material := mkMaterial 3 OtherMaterial None.

Definition car : GltfScene :=
  mkGltfScene "root"
    [Node "chassis"
       [Mesh "body" (Many 1 [glass; shader]) []; Mesh "wheel" (One paint) []]]
    (mkBox3 (mkVector3 9 9 9) (mkVector3 11 11 11)).

Definition carLoaded : Viewer := load (ParseOk car) (initialViewer 800 600 2).

(** A model whose only geometry is one vertex: a box of zero extent. *)
Definition speck : GltfScene :=
  mkGltfScene "root" [Mesh "dot" (One paint) []]
    (mkBox3 (mkVector3 1 2 3) (mkVector3 1 2 3)).

(** A second model, whose objects are created after those of the car. *)
Definition crate : GltfScene :=
  mkGltfScene "crate"
    [Mesh "lid" (One (mkMaterial 10 MeshBasicMaterial (Some 0x0000ff%N))) []]
    (mkBox3 (mkVector3 0 0 0) (mkVector3 1 1 1)).

(** Two loads in flight: the car is chosen and then the crate, both reads
    end before either decoding does, and the decoder answers for the car
    first. *)
Definition twoLoads : Viewer :=
  fire (Decoded crate)
    (fire (Decoded car)
       (fire ReaderLoaded
          (fire ReaderLoaded
             (fire FileChosen (fire FileChosen (initialViewer 800 600 2)))))).

(* ===================================================================== *)
(** * Properties *)
(* ===================================================================== *)

(** ** Numbers and colours on examples *)

Example Math_round_half : Js.Math_round 2.5 = 3%float.
Proof. reflexivity. Qed.

Example Math_round_neg_half : Js.Math_round (-2.5) = (-2)%float.
Proof. reflexivity. Qed.

Example Math_round_scaled : Js.Math_round (1023 * 1.5) = 1535%float.
Proof. reflexivity. Qed.

Example Math_floor_neg : Js.Math_floor (-0.25) = (-1)%float.
Proof. reflexivity. Qed.

Example Math_max_zeros : Js.Math_max (-0) 0 (-0) = 0%float.
Proof. reflexivity. Qed.

Example getHexString_red : getHexString 0xff0000%N = "ff0000".
Proof. reflexivity. Qed.

Example Color_new_upper : Color_new "#FF0000" = 0xff0000%N.
Proof. reflexivity. Qed.

Example Color_new_short : Color_new "#0f8" = 0x00ff88%N.
Proof. reflexivity. Qed.

Example traverse_car :
  fst <$> Group_meshes (mkGroup "root" (scene_children car) origin origin Box3_empty)
  = ["body"; "wheel"].
Proof. reflexivity. Qed.

(** A colour of 24 bits is read back from its hex string. *)
Lemma hexValue_hexDigit (d : N) : (d < 16)%N -> hexValue (hexDigit d) = Some d.
Proof.
  intros H. destruct d as [| p]; [reflexivity |].
  do 4 (destruct p as [p | p |]; try reflexivity); lia.
Qed.

Lemma nibble_spec (c i : N) : nibble c i = ((c / 2 ^ (4 * i)) mod 16)%N.
Proof.
  unfold nibble. rewrite N.shiftr_div_pow2.
  change 15%N with (N.ones 4). rewrite N.land_ones. reflexivity.
Qed.

Lemma parseHex_getHexString (c : Color) :
  (c < 2 ^ 24)%N -> parseHex (getHexString c) 0 = Some c.
Proof.
  intros Hc. unfold getHexString. cbn [parseHex].
  assert (Hn : forall i, (nibble c i < 16)%N).
  { intros i. rewrite nibble_spec. apply N.mod_lt. lia. }
  rewrite !hexValue_hexDigit by apply Hn.
  f_equal. rewrite !nibble_spec.
  change (2 ^ (4 * 5))%N with (16 * 16 * 16 * 16 * 16)%N.
  change (2 ^ (4 * 4))%N with (16 * 16 * 16 * 16)%N.
  change (2 ^ (4 * 3))%N with (16 * 16 * 16)%N.
  change (2 ^ (4 * 2))%N with (16 * 16)%N.
  change (2 ^ (4 * 1))%N with 16%N. change (2 ^ (4 * 0))%N with 1%N.
  change (2 ^ 24)%N with 16777216%N in Hc.
  rewrite <- !N.Div0.div_div. rewrite N.div_1_r.
  assert (Hstep : forall q : N, q = (16 * (q / 16) + q mod 16)%N /\ (q mod 16 < 16)%N).
  { intros q. split; [apply N.div_mod' | by apply N.mod_lt]. }
  destruct (Hstep c) as [E0 L0]. revert E0 L0.
  generalize (c mod 16)%N. generalize (c / 16)%N. intros q1 r0 E0 L0.
  destruct (Hstep q1) as [E1 L1]. revert E1 L1.
  generalize (q1 mod 16)%N. generalize (q1 / 16)%N. intros q2 r1 E1 L1.
  destruct (Hstep q2) as [E2 L2]. revert E2 L2.
  generalize (q2 mod 16)%N. generalize (q2 / 16)%N. intros q3 r2 E2 L2.
  destruct (Hstep q3) as [E3 L3]. revert E3 L3.
  generalize (q3 mod 16)%N. generalize (q3 / 16)%N. intros q4 r3 E3 L3.
  destruct (Hstep q4) as [E4 L4]. revert E4 L4.
  generalize (q4 mod 16)%N. generalize (q4 / 16)%N. intros q5 r4 E4 L4.
  assert (Hq5 : (q5 < 16)%N) by lia.
  rewrite (N.mod_small q5 16 Hq5). lia.
Qed.

Lemma Color_new_hexStyle (c : Color) :
  (c < 2 ^ 24)%N -> Color_new (hexStyle c) = c.
Proof.
  intros Hc. unfold Color_new, hexStyle, Color_setStyle.
  by rewrite (parseHex_getHexString c Hc).
Qed.

(** ** Framing *)

(** [maxDim] is never zero: the [|| 1] has replaced a zero already. *)
Lemma maxDimOf_nonzero (size : Vector3) : (maxDimOf size =? 0)%float = false.
Proof.
  unfold maxDimOf, Js.or_else, Js.truthy.
  destruct (is_zero _) eqn:Hz; simpl.
  - reflexivity.
  - destruct (is_nan _); simpl; [reflexivity | exact Hz].
Qed.

(** Away from the degenerate cases the scale is [5 / max extent]. *)
Lemma fitScaleOf_quotient (size : Vector3) :
  let extent := Js.Math_max (x size) (y size) (z size) in
  Js.truthy extent = true ->
  Js.Number_isFinite (5 / extent) = true ->
  fitScaleOf size = (5 / extent)%float.
Proof.
  intros extent Ht Hf. unfold fitScaleOf.
  rewrite maxDimOf_nonzero. unfold maxDimOf, Js.or_else. fold extent.
  rewrite Ht, Hf. reflexivity.
Qed.

(** In every case the scale is [5 / maxDim] or the fallback [1], and the
    fallback is taken exactly when the quotient is not finite. *)
Lemma fitScaleOf_cases (size : Vector3) :
  fitScaleOf size
  = if Js.Number_isFinite (5 / maxDimOf size) then (5 / maxDimOf size)%float
    else 1%float.
Proof.
  unfold fitScaleOf. rewrite maxDimOf_nonzero. simpl.
  destruct (Js.Number_isFinite _); reflexivity.
Qed.

(** The scenario of the 2 x 2 x 2 cube around (10, 10, 10): scaled by
    2.5 and moved so that the centre of its box is the origin. *)
Example framing_of_cube :
  exists g : Group,
    modelGroupRef carLoaded = Some g
    /\ scale g = mkVector3 2.5 2.5 2.5
    /\ position g = mkVector3 (-25) (-25) (-25)
    /\ Box3_setFromObject g = mkBox3 (mkVector3 (-2.5) (-2.5) (-2.5))
                                     (mkVector3 2.5 2.5 2.5)
    /\ Box3_getCenter (Box3_setFromObject g) = origin.
Proof. eexists. split; [reflexivity |]. repeat split; reflexivity. Qed.

(** C2 (the code departs from the claim): for a bounding box of zero
    extent the scale is 5, not 1.  The test [maxDim === 0] that guards the
    fallback to 1 can never hold, since [|| 1] has already replaced a zero
    [maxDim] by 1; so a model whose geometry is a single point is scaled
    by 5 / 1. *)
Theorem fitScale_of_zero_extent_is_5 :
  (forall size : Vector3, (maxDimOf size =? 0)%float = false)
  /\ fitScaleOf (Box3_getSize (scene_bounds speck)) = 5%float
  /\ fitScaleOf (Box3_getSize Box3_empty) = 5%float
  /\ scale <$> modelGroupRef (load (ParseOk speck) (initialViewer 800 600 2))
     = Some (mkVector3 5 5 5).
Proof.
  split; [exact maxDimOf_nonzero |].
  repeat split; reflexivity.
Qed.

(** ** What each operation leaves alone *)

Lemma stage_ready_view (s t : Viewer) :
  stageView s = stageView t -> stage_ready s -> stage_ready t.
Proof.
  unfold stageView, stage_ready. intros Hv (Hl & Hs & Hc & r & m & Hr & Hm & Hw & Hh).
  injection Hv as Hm' Hr' Hl' Hs' Hc'.
  split; [congruence |].
  split; [apply (bool_decide_unpack _); rewrite <- Hs'; by apply bool_decide_pack |].
  split; [apply (bool_decide_unpack _); rewrite <- Hc'; by apply bool_decide_pack |].
  exists r, m. rewrite <- Hr', <- Hm'. auto.
Qed.

Lemma session_inv_view (s t : Viewer) :
  mapsView s = mapsView t -> session_inv s -> session_inv t.
Proof.
  unfold mapsView, session_inv. intros Hv H. injection Hv as Ho Ha _.
  rewrite <- Ho, <- Ha. exact H.
Qed.

Lemma store_fresh_view (s t : Viewer) :
  mapsView s = mapsView t -> store_fresh s -> store_fresh t.
Proof.
  unfold mapsView, store_fresh. intros Hv H. injection Hv as Ho Ha Hn.
  rewrite <- Ho, <- Ha, <- Hn. exact H.
Qed.

Lemma applyPartColor_stage (part : option string) (color : string) (s : Viewer) :
  stageView (applyPartColor part color s) = stageView s.
Proof. unfold applyPartColor. repeat case_match; reflexivity. Qed.

Lemma handlePartSelect_stage (part : option string) (s : Viewer) :
  stageView (handlePartSelect part s) = stageView s.
Proof. unfold handlePartSelect. repeat case_match; reflexivity. Qed.

Lemma handlePartSelect_maps (part : option string) (s : Viewer) :
  mapsView (handlePartSelect part s) = mapsView s.
Proof. unfold handlePartSelect. repeat case_match; reflexivity. Qed.

Lemma rerender_stage (before after : Viewer) :
  stageView (rerender before after) = stageView after.
Proof.
  unfold rerender, colorEffect. case_match; [apply applyPartColor_stage | reflexivity].
Qed.

Lemma onPartSelect_stage (part : option string) (s : Viewer) :
  stageView (onPartSelect part s) = stageView s.
Proof.
  unfold onPartSelect. rewrite rerender_stage. apply handlePartSelect_stage.
Qed.

Lemma handleCanvasClick_stage (hit : option string) (s : Viewer) :
  stageView (handleCanvasClick hit s) = stageView s.
Proof.
  unfold handleCanvasClick. repeat case_match; auto using onPartSelect_stage.
Qed.

Lemma onSelectedPartColorChange_stage (color : string) (s : Viewer) :
  stageView (onSelectedPartColorChange color s) = stageView s.
Proof. unfold onSelectedPartColorChange. by rewrite rerender_stage. Qed.

Lemma disposeActiveClones_stage (s : Viewer) :
  stageView (disposeActiveClones s) = stageView s.
Proof. reflexivity. Qed.

Lemma removeModelFromScene_stage (s : Viewer) :
  stageView (removeModelFromScene s) = stageView s.
Proof.
  unfold removeModelFromScene.
  destruct (modelGroupRef s) as [g |]; [| reflexivity].
  destruct (sceneRef s) as [children |] eqn:E; [| reflexivity].
  destruct (bool_decide (group_uuid g ∈ children)); [| reflexivity].
  unfold stageView; simpl. rewrite E. reflexivity.
Qed.

Lemma unloadModel_stage (s : Viewer) : stageView (unloadModel s) = stageView s.
Proof.
  unfold unloadModel.
  transitivity (stageView (onPartSelect None
    (set_activeMaterialsRef ∅ (set_gltfOriginalMaterialsRef ∅
      (set_modelGroupRef None (removeModelFromScene (disposeActiveClones s))))))).
  { unfold stageView; simpl; reflexivity. }
  rewrite onPartSelect_stage.
  transitivity (stageView (removeModelFromScene (disposeActiveClones s))).
  { unfold stageView; simpl; reflexivity. }
  by rewrite removeModelFromScene_stage.
Qed.

Lemma clearPreviousModel_stage (s : Viewer) :
  stageView (clearPreviousModel s) = stageView s.
Proof.
  unfold clearPreviousModel.
  transitivity (stageView (removeModelFromScene
    (set_activeMaterialsRef ∅ (set_gltfOriginalMaterialsRef ∅ (disposeActiveClones s))))).
  { unfold stageView; simpl; reflexivity. }
  by rewrite removeModelFromScene_stage.
Qed.

Lemma foldl_recordMaterial_stage (meshes : list (string * MaterialSlot)) (s : Viewer) :
  stageView (foldl recordMaterial s meshes) = stageView s.
Proof.
  revert s. induction meshes as [| [u m] meshes IH]; intros s; simpl; [reflexivity |].
  by rewrite IH.
Qed.

Lemma adjustCameraAndLightsToModel_stage (s : Viewer) :
  stageView (adjustCameraAndLightsToModel s) = stageView s.
Proof.
  unfold adjustCameraAndLightsToModel.
  destruct (modelGroupRef s) as [g |]; [| reflexivity].
  destruct (cameraRef s) as [camera |] eqn:Ec; [| reflexivity].
  destruct (controlsRef s); [| reflexivity].
  destruct (spotLightRef s); [| reflexivity].
  destruct (sceneRef s) eqn:Es; [| reflexivity].
  unfold stageView; simpl. rewrite Ec.
  destruct (groundPlaneRef s); simpl; rewrite Es; reflexivity.
Qed.

Lemma adjustCameraAndLightsToModel_maps (s : Viewer) :
  mapsView (adjustCameraAndLightsToModel s) = mapsView s.
Proof. unfold adjustCameraAndLightsToModel. repeat case_match; reflexivity. Qed.

Lemma parseSuccess_stage (gltf : GltfScene) (s : Viewer) :
  stageView (parseSuccess gltf s) = stageView s.
Proof.
  unfold parseSuccess. rewrite onPartSelect_stage.
  set (g := mkGroup _ _ _ _ _).
  set (s1 := foldl recordMaterial _ _).
  set (s2 := match sceneRef s1 with Some _ => _ | None => _ end).
  transitivity (stageView (adjustCameraAndLightsToModel s2));
    [unfold stageView; simpl; reflexivity |].
  rewrite adjustCameraAndLightsToModel_stage.
  transitivity (stageView s1).
  { subst s2. destruct (sceneRef s1) eqn:E; [| reflexivity].
    unfold stageView; simpl. rewrite E. reflexivity. }
  subst s1. by rewrite foldl_recordMaterial_stage.
Qed.

Lemma loadModelEffect_stage (modelFile : option File) (s : Viewer) :
  stageView (loadModelEffect modelFile s) = stageView s.
Proof.
  unfold loadModelEffect, readerOnload, readerOnerror, parseFailure.
  repeat case_match; simplify_eq; simpl; try reflexivity.
  - rewrite parseSuccess_stage. by rewrite clearPreviousModel_stage.
  - transitivity (stageView (clearPreviousModel (set_isLoading true s)));
      [unfold stageView; simpl; reflexivity |].
    by rewrite clearPreviousModel_stage.
  - by rewrite clearPreviousModel_stage.
  - apply unloadModel_stage.
Qed.

Lemma exportToGLB_stage (result : ExporterResult) (s : Viewer) :
  stageView (exportToGLB result s) = stageView s.
Proof. unfold exportToGLB. repeat case_match; reflexivity. Qed.

Lemma readerOnload_stage (payload : ParseResult) (s : Viewer) :
  stageView (readerOnload payload s) = stageView s.
Proof.
  unfold readerOnload. destruct (sceneRef s) eqn:Hs; [| unfold stageView; simpl; by rewrite Hs].
  destruct payload as [gltf | message |].
  - rewrite parseSuccess_stage. apply clearPreviousModel_stage.
  - transitivity (stageView (clearPreviousModel s)); [reflexivity |].
    apply clearPreviousModel_stage.
  - apply clearPreviousModel_stage.
Qed.

Lemma fire_stage (cb : Callback) (s : Viewer) : stageView (fire cb s) = stageView s.
Proof.
  destruct cb; simpl.
  - unfold startReading. repeat case_match; reflexivity.
  - apply readerOnload_stage.
  - reflexivity.
  - apply parseSuccess_stage.
  - reflexivity.
Qed.

(** ** The still-image export *)

(** With the renderer at the size of its container, the export puts the
    renderer and the camera back exactly as they were. *)
Lemma exportToImage_ready (scale : float) (s : Viewer) :
  stage_ready s ->
  rendererRef (exportToImage scale s) = rendererRef s
  /\ cameraRef (exportToImage scale s) = cameraRef s
  /\ mountRef (exportToImage scale s) = mountRef s.
Proof.
  intros (_ & [sc Hs] & [cam Hc] & r & m & Hr & Hm & Hw & Hh).
  unfold exportToImage. rewrite Hr, Hs, Hc, Hm. simpl.
  destruct r as [w h pr], cam as [a p]. simpl in *. subst w h.
  unfold Renderer_setPixelRatio, Renderer_setSize. simpl. auto.
Qed.

Lemma exportToImage_stage (scale : float) (s : Viewer) :
  stage_ready s -> stageView (exportToImage scale s) = stageView s.
Proof.
  intros H. destruct (exportToImage_ready scale s H) as (Hr & Hc & Hm).
  assert (Hl : gltfLoaderRef (exportToImage scale s) = gltfLoaderRef s).
  { unfold exportToImage. repeat case_match; reflexivity. }
  assert (Hs : sceneRef (exportToImage scale s) = sceneRef s).
  { unfold exportToImage. repeat case_match; simpl; done. }
  unfold stageView. rewrite Hr, Hc, Hm, Hl, Hs. reflexivity.
Qed.

Lemma exportToImage_maps (scale : float) (s : Viewer) :
  mapsView (exportToImage scale s) = mapsView s.
Proof. unfold exportToImage. repeat case_match; reflexivity. Qed.

Lemma windowResized_ready (width height : float) (s : Viewer) :
  stage_ready s -> stage_ready (windowResized width height s).
Proof.
  intros (Hl & [sc Hs] & [cam Hc] & r & m & Hr & Hm & Hw & Hh).
  unfold windowResized, handleResize. rewrite Hm. simpl. rewrite Hr, Hc.
  unfold stage_ready; simpl. rewrite Hs.
  repeat split; eauto. eexists _, _. repeat split; reflexivity.
Qed.

Lemma windowResized_maps (width height : float) (s : Viewer) :
  mapsView (windowResized width height s) = mapsView s.
Proof. unfold windowResized, handleResize. repeat case_match; reflexivity. Qed.

Lemma initialViewer_ready (width height devicePixelRatio : float) :
  stage_ready (initialViewer width height devicePixelRatio).
Proof.
  unfold stage_ready; simpl. repeat split; eauto.
  eexists _, _. repeat split; reflexivity.
Qed.

Lemma run_ready (op : Operation) (s : Viewer) :
  stage_ready s -> stage_ready (run op s).
Proof.
  intros H. destruct op; simpl.
  - eapply stage_ready_view; [symmetry; apply loadModelEffect_stage | exact H].
  - eapply stage_ready_view; [symmetry; apply onPartSelect_stage | exact H].
  - eapply stage_ready_view; [symmetry; apply handleCanvasClick_stage | exact H].
  - eapply stage_ready_view; [symmetry; apply applyPartColor_stage | exact H].
  - eapply stage_ready_view; [symmetry; apply onSelectedPartColorChange_stage | exact H].
  - eapply stage_ready_view; [symmetry; by apply exportToImage_stage | exact H].
  - eapply stage_ready_view; [symmetry; apply exportToGLB_stage | exact H].
  - by apply windowResized_ready.
Qed.

Lemma reachable_ready (s : Viewer) : reachable s -> stage_ready s.
Proof.
  induction 1 as [w h d | op s _ IH | cb s _ IH _];
    [apply initialViewer_ready | by apply run_ready |].
  eapply stage_ready_view; [symmetry; apply fire_stage | exact IH].
Qed.

Lemma reachable_loadModelEffect (modelFile : option File) (s : Viewer) :
  reachable s -> reachable (loadModelEffect modelFile s).
Proof. exact (reachable_run (OpLoadModel modelFile) s). Qed.

Lemma reachable_selectPart (identifier : option string) (s : Viewer) :
  reachable s -> reachable (selectPart identifier s).
Proof. exact (reachable_run (OpSelectPart identifier) s). Qed.

Lemma reachable_setPartColor (identifier color : string) (s : Viewer) :
  reachable s -> reachable (setPartColor identifier color s).
Proof. exact (reachable_run (OpSetPartColor identifier color) s). Qed.

Lemma carLoaded_reachable : reachable carLoaded.
Proof. apply reachable_loadModelEffect, reachable_initial. Qed.

(** C9: in every state the viewer can reach, [exportToImage] renders the
    upscaled frame and then one at the original size, and leaves the
    renderer (surface size and pixel ratio) and the camera (aspect ratio)
    exactly as they were before the export; when the renderer, the scene
    or the camera is missing it only reports "Export Error" and changes
    nothing else. *)
Theorem exportToImage_restores (scale : float) (s : Viewer) :
  (reachable s ->
     exists renderer camera mount,
       rendererRef s = Some renderer /\ cameraRef s = Some camera
       /\ mountRef s = Some mount
       /\ rendererRef (exportToImage scale s) = Some renderer
       /\ cameraRef (exportToImage scale s) = Some camera
       /\ frames (exportToImage scale s)
          = (frames s
             ++ [mkFrame (Js.Math_round (clientWidth mount * scale))
                         (Js.Math_round (clientHeight mount * scale))
                         (Js.Math_round (clientWidth mount * scale)
                          / Js.Math_round (clientHeight mount * scale));
                 mkFrame (r_width renderer) (r_height renderer) (aspect camera)])%list)
  /\ (rendererRef s = None \/ sceneRef s = None \/ cameraRef s = None ->
      exportToImage scale s = toast "Export Error" true s).
Proof.
  split.
  - intros Hreach. pose proof (reachable_ready s Hreach) as Hready.
    destruct (exportToImage_ready scale s Hready) as (Hr' & Hc' & _).
    destruct Hready as (_ & [sc Hs] & [cam Hc] & r & m & Hr & Hm & Hw & Hh).
    exists r, cam, m. rewrite Hr', Hc'. repeat split; try assumption.
    unfold exportToImage. rewrite Hr, Hs, Hc, Hm. simpl.
    rewrite <- app_assoc. simpl. rewrite Hw, Hh. reflexivity.
  - unfold exportToImage. intros [H | [H | H]]; rewrite H;
      repeat case_match; reflexivity.
Qed.

Lemma exportToImage_restores_witness :
  reachable carLoaded
  /\ rendererRef (exportToImage 2 carLoaded) = rendererRef carLoaded
  /\ cameraRef (exportToImage 2 carLoaded) = cameraRef carLoaded
  /\ exportToImage 2 unmountedViewer = toast "Export Error" true unmountedViewer.
Proof.
  assert (Hreach : reachable carLoaded) by apply carLoaded_reachable.
  split; [exact Hreach |].
  destruct (exportToImage_restores 2 carLoaded) as [Hok _].
  destruct (Hok Hreach) as (r & c & m & Hr & Hc & _ & Hr' & Hc' & _).
  split; [congruence |]. split; [congruence |].
  apply (exportToImage_restores 2 unmountedViewer). left. reflexivity.
Defined.

(** ** The colour effect *)

Lemma sameRef_refl (m : MaterialSlot) : sameRef m m = true.
Proof. destruct m; simpl; apply Nat.eqb_refl. Qed.

(** The colour a clone ends with does not depend on the id it takes. *)
Lemma cloneAndColorMaterial_color (c : Color) (fresh : nat) (m : Material) :
  mat_color (cloneAndColorMaterial c fresh m)
  = if bool_decide (is_Some (mat_color m)) || hasSettableColor (mat_class m)
    then Some c else None.
Proof.
  unfold cloneAndColorMaterial, Material_clone; simpl.
  destruct (mat_color m); simpl; [reflexivity |].
  destruct (hasSettableColor (mat_class m)); reflexivity.
Qed.

Lemma cloneAndColorMaterial_id (c : Color) (fresh : nat) (m : Material) :
  mat_id (cloneAndColorMaterial c fresh m) = fresh.
Proof.
  unfold cloneAndColorMaterial, Material_clone; simpl.
  destruct (mat_color m); simpl; [reflexivity |].
  destruct (hasSettableColor (mat_class m)); reflexivity.
Qed.

Lemma cloneAndColorSlot_colors (c : Color) (fresh fresh' : nat) (orig : MaterialSlot) :
  slotColors (cloneAndColorSlot c fresh orig)
  = slotColors (cloneAndColorSlot c fresh' orig).
Proof.
  destruct orig as [m | a ms]; unfold slotColors; simpl.
  - by rewrite !cloneAndColorMaterial_color.
  - rewrite !fmap_imap. apply imap_ext. intros i m _. simpl.
    by rewrite !cloneAndColorMaterial_color.
Qed.

(** The ids of a clone are the new ones, from [fresh] on. *)
Lemma cloneAndColorSlot_ids (c : Color) (fresh : nat) (orig : MaterialSlot) (id : nat) :
  id ∈ slotIds (cloneAndColorSlot c fresh orig) -> fresh <= id.
Proof.
  destruct orig as [m | a ms]; unfold slotIds; simpl.
  - rewrite cloneAndColorMaterial_id. intros ->%list_elem_of_singleton. lia.
  - rewrite fmap_imap. intros (i & m & -> & _)%elem_of_lookup_imap_1. simpl.
    rewrite cloneAndColorMaterial_id. lia.
Qed.

Lemma foldr_max_le (n : nat) (l : list nat) (b : nat) :
  n <= b -> (forall k, k ∈ l -> k <= b) -> foldr Nat.max n l <= b.
Proof.
  intros Hn. induction l as [| k l IH]; simpl; intros Hl; [exact Hn |].
  apply Nat.max_lub; [apply Hl; left | apply IH; intros; apply Hl; by right].
Qed.

Lemma foldr_max_ge_elem (n : nat) (l : list nat) (k : nat) :
  k ∈ l -> k <= foldr Nat.max n l.
Proof.
  induction l as [| k' l IH]; simpl; [by intros ?%not_elem_of_nil |].
  intros [-> | H]%elem_of_cons; [lia |]. specialize (IH H). lia.
Qed.

Lemma foldr_max_ge_init (n : nat) (l : list nat) : n <= foldr Nat.max n l.
Proof. induction l; simpl; lia. Qed.

Lemma cloneAndColorSlot_bound (c : Color) (fresh : nat) (orig : MaterialSlot) :
  slotBound (cloneAndColorSlot c fresh orig) <= fresh + slotObjects orig.
Proof.
  destruct orig as [m | a ms]; simpl.
  - rewrite cloneAndColorMaterial_id. lia.
  - apply foldr_max_le; [lia |].
    intros k (j & -> & Hj)%list_elem_of_fmap.
    rewrite fmap_imap in Hj. apply elem_of_lookup_imap_1 in Hj as (i & m & -> & Hi).
    simpl. rewrite cloneAndColorMaterial_id.
    apply lookup_lt_Some in Hi. lia.
Qed.

(** Every id of a slot is below the slot's bound, and so is the id by
    which the slot itself is compared. *)
Lemma slotIds_lt_bound (m : MaterialSlot) (id : nat) :
  id ∈ slotIds m -> id < slotBound m.
Proof.
  destruct m as [m | a ms]; unfold slotIds; simpl.
  - intros ->%list_elem_of_singleton. lia.
  - intros H. apply Nat.lt_le_trans with (S id); [lia |].
    apply foldr_max_ge_elem. apply list_elem_of_fmap. eauto.
Qed.

Lemma refId_lt_bound (m : MaterialSlot) : refId m < slotBound m.
Proof.
  destruct m as [m | a ms]; simpl; [lia |].
  apply Nat.lt_le_trans with (S a); [lia | apply foldr_max_ge_init].
Qed.

Lemma sameRef_refId (a b : MaterialSlot) : sameRef a b = true -> refId a = refId b.
Proof. destruct a, b; simpl; try discriminate; apply Nat.eqb_eq. Qed.

Lemma cloneAndColorSlot_refId (c : Color) (fresh : nat) (orig : MaterialSlot) :
  refId (cloneAndColorSlot c fresh orig) = fresh.
Proof. destruct orig; simpl; [apply cloneAndColorMaterial_id | reflexivity]. Qed.

(** A clone is a different object from anything allocated before it. *)
Lemma sameRef_clone_fresh (c : Color) (fresh : nat) (orig old : MaterialSlot) :
  slotBound old <= fresh -> sameRef old (cloneAndColorSlot c fresh orig) = false.
Proof.
  intros Hb. destruct (sameRef old _) eqn:E; [| reflexivity].
  apply sameRef_refId in E. rewrite cloneAndColorSlot_refId in E.
  pose proof (refId_lt_bound old). lia.
Qed.

(** What the effect does when the part belongs to the loaded model. *)
Lemma applyPartColor_loaded (uuid color : string) (s : Viewer) (g : Group)
    (orig : MaterialSlot) :
  modelGroupRef s = Some g ->
  gltfOriginalMaterialsRef s !! uuid = Some orig ->
  let new := cloneAndColorSlot (Color_new color) (nextId s) orig in
  let s' := applyPartColor (Some uuid) color s in
  activeMaterialsRef s' = <[uuid := new]> (activeMaterialsRef s)
  /\ meshMaterial s' = <[uuid := new]> (meshMaterial s)
  /\ nextId s' = nextId s + slotObjects orig
  /\ disposedMaterials s'
     = (disposedMaterials s
        ++ previousToDispose (activeMaterialsRef s !! uuid) orig new)%list.
Proof.
  intros Hg Ho. unfold applyPartColor. rewrite Hg, Ho. simpl. auto.
Qed.

(** The effect never touches the model, the originals or the selection. *)
Lemma applyPartColor_frame (part : option string) (color : string) (s : Viewer) :
  let s' := applyPartColor part color s in
  gltfOriginalMaterialsRef s' = gltfOriginalMaterialsRef s
  /\ modelGroupRef s' = modelGroupRef s
  /\ sceneRef s' = sceneRef s
  /\ selectedPart s' = selectedPart s
  /\ selectedPartColor s' = selectedPartColor s
  /\ isLoading s' = isLoading s
  /\ toasts s' = toasts s.
Proof.
  unfold applyPartColor.
  destruct part as [uuid |]; [| simpl; auto 10].
  destruct (modelGroupRef s) eqn:Hg; [| simpl; rewrite Hg; auto 10].
  destruct (gltfOriginalMaterialsRef s !! uuid); simpl; rewrite ?Hg; auto 10.
Qed.

(** When the effect has nothing to do the state is unchanged. *)
Lemma applyPartColor_idle (part : option string) (color : string) (s : Viewer) :
  part = None \/ modelGroupRef s = None
  \/ (exists uuid, part = Some uuid /\ gltfOriginalMaterialsRef s !! uuid = None) ->
  applyPartColor part color s = s.
Proof.
  unfold applyPartColor. intros [-> | [H | (uuid & -> & H)]].
  - reflexivity.
  - rewrite H. by destruct part.
  - rewrite H. by destruct (modelGroupRef s).
Qed.

(** C7: [setPartColor] for an identifier that is not in
    [originalMaterials] returns the state it was given: nothing is cloned,
    installed or disposed, and both maps are as before. *)
Theorem setPartColor_unknown_noop (identifier color : string) (s : Viewer) :
  gltfOriginalMaterialsRef s !! identifier = None ->
  setPartColor identifier color s = s.
Proof.
  intros H. apply applyPartColor_idle. right; right. eauto.
Qed.

Lemma setPartColor_unknown_noop_witness :
  gltfOriginalMaterialsRef carLoaded !! "door" = None
  /\ setPartColor "door" "#0000ff" carLoaded = carLoaded.
Proof.
  assert (H : gltfOriginalMaterialsRef carLoaded !! "door" = None)
    by (vm_compute; reflexivity).
  split; [exact H |].
  exact (setPartColor_unknown_noop "door" "#0000ff" carLoaded H).
Defined.

(** C4: for a mesh [M] that has an original material, recolouring red and
    then blue gives [M] an active material of the same colours as
    recolouring blue at once, and recolouring twice with one colour the
    same as once; with the model loaded, the active material is each time
    a clone of the original with the colour applied, whatever was active
    before. *)
Theorem setPartColor_order_independent (M red blue C : string) (s : Viewer)
    (orig : MaterialSlot) :
  gltfOriginalMaterialsRef s !! M = Some orig ->
  let activeColors (t : Viewer) := slotColors <$> (activeMaterialsRef t !! M) in
  activeColors (setPartColor M blue (setPartColor M red s))
  = activeColors (setPartColor M blue s)
  /\ activeColors (setPartColor M C (setPartColor M C s))
     = activeColors (setPartColor M C s)
  /\ (is_Some (modelGroupRef s) ->
      activeColors (setPartColor M blue s)
      = Some (slotColors (cloneAndColorSlot (Color_new blue) 0 orig))).
Proof.
  intros Ho activeColors.
  destruct (modelGroupRef s) as [g |] eqn:Hg.
  - assert (Hone : forall c t, modelGroupRef t = Some g ->
              gltfOriginalMaterialsRef t !! M = Some orig ->
              activeColors (setPartColor M c t)
              = Some (slotColors (cloneAndColorSlot (Color_new c) 0 orig))).
    { intros c t Hgt Hot. unfold activeColors, setPartColor.
      destruct (applyPartColor_loaded M c t g orig Hgt Hot) as (-> & _).
      rewrite lookup_insert_eq. simpl. f_equal. apply cloneAndColorSlot_colors. }
    assert (Hkeep : forall c, modelGroupRef (setPartColor M c s) = Some g
              /\ gltfOriginalMaterialsRef (setPartColor M c s) !! M = Some orig).
    { intros c. destruct (applyPartColor_frame (Some M) c s) as (Ho' & Hg' & _).
      unfold setPartColor. rewrite Ho', Hg'. auto. }
    repeat split.
    + destruct (Hkeep red) as [Hg' Ho']. by rewrite !Hone.
    + destruct (Hkeep C) as [Hg' Ho']. by rewrite !Hone.
    + intros _. by apply Hone.
  - assert (Hidle : forall c, setPartColor M c s = s).
    { intros c. apply applyPartColor_idle. auto. }
    rewrite !Hidle. repeat split. by intros [? ?].
Qed.

Lemma setPartColor_order_independent_witness :
  slotColors <$> (activeMaterialsRef
     (setPartColor "body" "#0000ff" (setPartColor "body" "#ff0000" carLoaded)) !! "body")
  = Some [Some 0x0000ff%N; None].
Proof.
  destruct (setPartColor_order_independent "body" "#ff0000" "#0000ff" "#0000ff"
              carLoaded (Many 1 [glass; shader]))
    as (H1 & _ & H3).
  - vm_compute; reflexivity.
  - cbv zeta in H1, H3. rewrite H1, H3; [| by eexists]. vm_compute; reflexivity.
Defined.

(** ** The invariants of the material maps *)

Lemma foldl_recordMaterial_maps (meshes : list (string * MaterialSlot)) (s : Viewer) :
  mapsView (foldl recordMaterial s meshes)
  = (foldl insertEntry (gltfOriginalMaterialsRef s) meshes,
     foldl insertEntry (activeMaterialsRef s) meshes, nextId s).
Proof.
  revert s. induction meshes as [| [u m] meshes IH]; intros s; simpl; [reflexivity |].
  by rewrite IH.
Qed.

Lemma foldl_recordMaterial_frame (meshes : list (string * MaterialSlot)) (s : Viewer) :
  let s' := foldl recordMaterial s meshes in
  modelGroupRef s' = modelGroupRef s /\ sceneRef s' = sceneRef s
  /\ selectedPart s' = selectedPart s /\ selectedPartColor s' = selectedPartColor s.
Proof.
  revert s. induction meshes as [| [u m] meshes IH]; intros s; simpl; [auto |].
  destruct (IH (recordMaterial s (u, m))) as (H1 & H2 & H3 & H4).
  simpl in *. auto.
Qed.

Lemma foldl_insertEntry_lookup (meshes : list (string * MaterialSlot))
    (m : gmap string MaterialSlot) (uuid : string) (x : MaterialSlot) :
  foldl insertEntry m meshes !! uuid = Some x ->
  (uuid, x) ∈ meshes \/ m !! uuid = Some x.
Proof.
  revert m. induction meshes as [| [u y] meshes IH]; intros m; simpl; [auto |].
  intros [H | H]%IH; [left; by right |].
  unfold insertEntry in H; simpl in H. rewrite lookup_insert in H.
  case_decide; [| auto]. simplify_eq. left; left.
Qed.

Lemma foldl_insertEntry_union (meshes : list (string * MaterialSlot))
    (m : gmap string MaterialSlot) :
  foldl insertEntry m meshes = foldl insertEntry ∅ meshes ∪ m.
Proof.
  revert m. induction meshes as [| [u x] meshes IH]; intros m; simpl.
  - by rewrite (left_id_L ∅ (∪)).
  - rewrite (IH (insertEntry m (u, x))), (IH (insertEntry ∅ (u, x))).
    unfold insertEntry; simpl.
    rewrite <- (assoc_L (∪)). f_equal.
    rewrite insert_union_singleton_l. by rewrite insert_empty.
Qed.

(** An entry after the traversal is one the traversal wrote, the same in
    whatever map, or one that was there and that it did not overwrite. *)
Lemma foldl_insertEntry_cases (meshes : list (string * MaterialSlot))
    (m : gmap string MaterialSlot) (uuid : string) (x : MaterialSlot) :
  foldl insertEntry m meshes !! uuid = Some x ->
  ((uuid, x) ∈ meshes /\ forall m', foldl insertEntry m' meshes !! uuid = Some x)
  \/ (m !! uuid = Some x
      /\ forall m', foldl insertEntry m' meshes !! uuid = m' !! uuid).
Proof.
  rewrite foldl_insertEntry_union. intros [H | [Hn H]]%lookup_union_Some_raw.
  - left. split.
    + apply foldl_insertEntry_lookup in H as [H | H]; [exact H |].
      by rewrite lookup_empty in H.
    + intros m'. rewrite foldl_insertEntry_union. by apply lookup_union_Some_l.
  - right. split; [exact H |].
    intros m'. rewrite foldl_insertEntry_union. by apply lookup_union_r.
Qed.

(** Every mesh met by the traversal ends with an entry. *)
Lemma foldl_insertEntry_is_Some (meshes : list (string * MaterialSlot))
    (m : gmap string MaterialSlot) (uuid : string) :
  uuid ∈ meshes.*1 \/ is_Some (m !! uuid) ->
  is_Some (foldl insertEntry m meshes !! uuid).
Proof.
  revert m. induction meshes as [| [u y] meshes IH]; intros m; simpl.
  - intros [H%not_elem_of_nil | H]; [done | exact H].
  - intros [[-> | H]%elem_of_cons | H]; apply IH.
    + right. unfold insertEntry; simpl. rewrite lookup_insert_eq. eauto.
    + by left.
    + right. unfold insertEntry; simpl. rewrite lookup_insert.
      case_decide; eauto.
Qed.

Lemma meshesBound_elem (meshes : list (string * MaterialSlot)) (uuid : string)
    (x : MaterialSlot) :
  (uuid, x) ∈ meshes -> slotBound x <= meshesBound meshes.
Proof.
  intros H. unfold meshesBound. apply foldr_max_ge_elem.
  apply list_elem_of_fmap. exists x. split; [reflexivity |].
  apply list_elem_of_fmap. by exists (uuid, x).
Qed.

Lemma onPartSelect_None (s : Viewer) : onPartSelect None s = set_selectedPart None s.
Proof.
  unfold onPartSelect, rerender, colorEffect, handlePartSelect.
  destruct (depsChanged _ _); reflexivity.
Qed.

Lemma clearPreviousModel_maps (s : Viewer) :
  mapsView (clearPreviousModel s) = (∅, ∅, nextId s).
Proof.
  unfold clearPreviousModel, removeModelFromScene, mapsView; simpl.
  repeat case_match; reflexivity.
Qed.

Lemma clearPreviousModel_empty (s : Viewer) :
  gltfOriginalMaterialsRef (clearPreviousModel s) = ∅
  /\ activeMaterialsRef (clearPreviousModel s) = ∅.
Proof.
  pose proof (clearPreviousModel_maps s) as H. unfold mapsView in H.
  split; congruence.
Qed.

Lemma unloadModel_maps (s : Viewer) : mapsView (unloadModel s) = (∅, ∅, nextId s).
Proof.
  unfold unloadModel. rewrite onPartSelect_None.
  unfold removeModelFromScene, mapsView; simpl.
  repeat case_match; reflexivity.
Qed.

(** The maps after the success callback. *)
Lemma parseSuccess_maps (gltf : GltfScene) (s : Viewer) :
  let meshes :=
    Group_meshes (mkGroup (scene_uuid gltf) (scene_children gltf) origin
                          (mkVector3 1 1 1) (scene_bounds gltf)) in
  mapsView (parseSuccess gltf s)
  = (foldl insertEntry (gltfOriginalMaterialsRef s) meshes,
     foldl insertEntry (activeMaterialsRef s) meshes,
     Nat.max (nextId s) (meshesBound meshes)).
Proof.
  intros meshes. unfold parseSuccess. rewrite onPartSelect_None.
  set (g := mkGroup _ _ _ _ _) in *.
  set (s1 := foldl recordMaterial _ _).
  set (s2 := match sceneRef s1 with Some _ => _ | None => _ end).
  transitivity (mapsView (adjustCameraAndLightsToModel s2)); [reflexivity |].
  rewrite adjustCameraAndLightsToModel_maps.
  transitivity (mapsView s1); [subst s2; by destruct (sceneRef s1) |].
  subst s1. rewrite foldl_recordMaterial_maps. reflexivity.
Qed.

Lemma exportToGLB_maps (result : ExporterResult) (s : Viewer) :
  mapsView (exportToGLB result s) = mapsView s.
Proof. unfold exportToGLB. repeat case_match; reflexivity. Qed.

Lemma freshlyLoaded_cleared (s : Viewer) (n : nat) :
  mapsView s = (∅, ∅, n) -> freshlyLoaded s.
Proof.
  intros [= Ho Ha _]. split; [congruence |].
  intros uuid m. rewrite Ho, lookup_empty. discriminate.
Qed.

Lemma parseSuccess_freshlyLoaded (gltf : GltfScene) (s : Viewer) :
  gltfOriginalMaterialsRef s = ∅ -> activeMaterialsRef s = ∅ ->
  freshlyLoaded (parseSuccess gltf s).
Proof.
  intros Ho Ha. pose proof (parseSuccess_maps gltf s) as Hm. cbv zeta in Hm.
  rewrite Ho, Ha in Hm. injection Hm as Ho' Ha' Hn'.
  split; [congruence |].
  intros uuid m. rewrite Ho', Hn'.
  intros [H | H]%foldl_insertEntry_lookup.
  - apply meshesBound_elem in H. lia.
  - by rewrite lookup_empty in H.
Qed.

(** A property of the maps that holds after a load, and that the colour
    effect keeps, holds in every state the viewer reaches. *)
Section Preservation.

Variable P : Viewer -> Prop.
Hypothesis P_view : forall s t, mapsView s = mapsView t -> P s -> P t.
Hypothesis P_loaded : forall s, freshlyLoaded s -> P s.
Hypothesis P_recolor :
  forall part color s, P s -> P (applyPartColor part color s).
Hypothesis P_decoded :
  forall gltf s, newObjects gltf s -> P s -> P (parseSuccess gltf s).

Lemma rerender_keeps (before after : Viewer) : P after -> P (rerender before after).
Proof.
  unfold rerender, colorEffect. intros H.
  destruct (depsChanged _ _); [by apply P_recolor | exact H].
Qed.

Lemma onPartSelect_keeps (part : option string) (s : Viewer) :
  P s -> P (onPartSelect part s).
Proof.
  intros H. apply rerender_keeps.
  eapply P_view; [symmetry; apply handlePartSelect_maps | exact H].
Qed.

Lemma handleCanvasClick_keeps (hit : option string) (s : Viewer) :
  P s -> P (handleCanvasClick hit s).
Proof.
  intros H. unfold handleCanvasClick.
  repeat case_match; auto using onPartSelect_keeps.
Qed.

Lemma loadModelEffect_keeps (modelFile : option File) (s : Viewer) :
  P s -> P (loadModelEffect modelFile s).
Proof.
  intros H. unfold loadModelEffect.
  destruct (gltfLoaderRef s) eqn:Hl; [destruct (sceneRef s) as [children |] eqn:Hs |].
  - destruct modelFile as [[| payload] |].
    + eapply P_view; [| exact H]. reflexivity.
    + unfold readerOnload.
      change (sceneRef (set_isLoading true s)) with (sceneRef s).
      rewrite Hs.
      destruct payload as [gltf | message |].
      * destruct (clearPreviousModel_empty (set_isLoading true s)) as [Ho Ha].
        by apply P_loaded, parseSuccess_freshlyLoaded.
      * eapply P_loaded, freshlyLoaded_cleared.
        transitivity (mapsView (clearPreviousModel (set_isLoading true s)));
          [reflexivity | apply clearPreviousModel_maps].
      * eapply P_loaded, freshlyLoaded_cleared, clearPreviousModel_maps.
    + eapply P_loaded, freshlyLoaded_cleared, unloadModel_maps.
  - destruct modelFile; [destruct (isLoading s) |];
      (eapply P_view; [| exact H]; reflexivity).
  - destruct modelFile; [destruct (isLoading s) |];
      (eapply P_view; [| exact H]; reflexivity).
Qed.

Lemma run_keeps (op : Operation) (s : Viewer) : P s -> P (run op s).
Proof.
  intros H. destruct op; simpl.
  - by apply loadModelEffect_keeps.
  - by apply onPartSelect_keeps.
  - by apply handleCanvasClick_keeps.
  - by apply P_recolor.
  - unfold onSelectedPartColorChange. apply rerender_keeps.
    eapply P_view; [| exact H]. reflexivity.
  - eapply P_view; [symmetry; apply exportToImage_maps | exact H].
  - eapply P_view; [symmetry; apply exportToGLB_maps | exact H].
  - eapply P_view; [symmetry; apply windowResized_maps | exact H].
Qed.

Lemma fire_keeps (cb : Callback) (s : Viewer) :
  admissible cb s -> P s -> P (fire cb s).
Proof.
  intros Hcb H. destruct cb as [| | | gltf | message]; simpl.
  - eapply P_view; [| exact H]. unfold startReading. repeat case_match; reflexivity.
  - unfold readerOnload. destruct (sceneRef s).
    + eapply P_loaded, freshlyLoaded_cleared, clearPreviousModel_maps.
    + eapply P_view; [| exact H]. reflexivity.
  - eapply P_view; [| exact H]. reflexivity.
  - by apply P_decoded.
  - eapply P_view; [| exact H]. reflexivity.
Qed.

Lemma reachable_keeps (s : Viewer) : reachable s -> P s.
Proof.
  induction 1 as [w h d | op s _ IH | cb s _ IH Hcb];
    [| by apply run_keeps | by apply fire_keeps].
  apply P_loaded. by apply (freshlyLoaded_cleared _ 0).
Qed.

End Preservation.

Lemma session_inv_loaded (s : Viewer) : freshlyLoaded s -> session_inv s.
Proof.
  intros [Heq _] uuid act Ha. exists act. rewrite <- Heq. split; [exact Ha |].
  left. apply sameRef_refl.
Qed.

Lemma session_inv_recolor (part : option string) (color : string) (s : Viewer) :
  session_inv s -> session_inv (applyPartColor part color s).
Proof.
  intros Hs.
  destruct part as [uuid |]; [| by rewrite applyPartColor_idle; auto].
  destruct (modelGroupRef s) as [g |] eqn:Hg; [| by rewrite applyPartColor_idle; auto].
  destruct (gltfOriginalMaterialsRef s !! uuid) as [orig |] eqn:Ho;
    [| by rewrite applyPartColor_idle; eauto 6].
  destruct (applyPartColor_loaded uuid color s g orig Hg Ho) as (Ha' & _).
  destruct (applyPartColor_frame (Some uuid) color s) as (Ho' & _).
  intros u act. rewrite Ha', Ho'. rewrite lookup_insert.
  case_decide as Hu; [| apply Hs].
  subst u. intros [= <-]. exists orig. split; [exact Ho |].
  right. by eexists _, _.
Qed.

Lemma store_fresh_loaded (s : Viewer) : freshlyLoaded s -> store_fresh s.
Proof.
  intros [Heq Hb]. split; [exact Hb | split; [by rewrite Heq |]].
  intros uuid act orig Ha Ho Hne. rewrite Heq in Ha.
  assert (act = orig) as -> by congruence.
  by rewrite sameRef_refl in Hne.
Qed.

Lemma store_fresh_recolor (part : option string) (color : string) (s : Viewer) :
  store_fresh s -> store_fresh (applyPartColor part color s).
Proof.
  intros (Hf1 & Hf2 & Hf3).
  destruct part as [uuid |]; [| by rewrite applyPartColor_idle; auto].
  destruct (modelGroupRef s) as [g |] eqn:Hg; [| by rewrite applyPartColor_idle; auto].
  destruct (gltfOriginalMaterialsRef s !! uuid) as [orig |] eqn:Ho;
    [| by rewrite applyPartColor_idle; eauto 6].
  destruct (applyPartColor_loaded uuid color s g orig Hg Ho) as (Ha' & _ & Hn' & _).
  destruct (applyPartColor_frame (Some uuid) color s) as (Ho' & _).
  split; [| split].
  - intros u m. rewrite Ho', Hn'. intros H. specialize (Hf1 u m H). lia.
  - intros u m. rewrite Ha', Hn'. rewrite lookup_insert.
    case_decide as Hu.
    + intros [= <-]. apply cloneAndColorSlot_bound.
    + intros H. specialize (Hf2 u m H). lia.
  - intros u act o. rewrite Ha', Ho'. rewrite lookup_insert.
    case_decide as Hu; [| apply Hf3].
    intros [= <-] _ _ u' o' id Ho'' Hid Hid'.
    apply cloneAndColorSlot_ids in Hid.
    apply slotIds_lt_bound in Hid'. specialize (Hf1 u' o' Ho''). lia.
Qed.

(** The success callback writes the same object under a key in both
    maps, and leaves the other entries alone. *)
Lemma session_inv_decoded (gltf : GltfScene) (s : Viewer) :
  session_inv s -> session_inv (parseSuccess gltf s).
Proof.
  intros Hs. pose proof (parseSuccess_maps gltf s) as Hm. cbv zeta in Hm.
  injection Hm as Ho Ha _. intros uuid act. rewrite Ho, Ha.
  intros [[_ H] | [H Hold]]%foldl_insertEntry_cases.
  - exists act. split; [apply H | left; apply sameRef_refl].
  - rewrite Hold. by apply Hs.
Qed.

Lemma newObjects_elem (gltf : GltfScene) (s : Viewer) (uuid : string)
    (m : MaterialSlot) (id : nat) :
  newObjects gltf s ->
  (uuid, m) ∈ Group_meshes (mkGroup (scene_uuid gltf) (scene_children gltf) origin
                                    (mkVector3 1 1 1) (scene_bounds gltf)) ->
  id ∈ slotIds m -> nextId s <= id.
Proof.
  intros Hnew Hin Hid. unfold newObjects in Hnew.
  rewrite Forall_forall in Hnew. specialize (Hnew _ Hin). simpl in Hnew.
  rewrite Forall_forall in Hnew. apply Hnew. by right.
Qed.

(** Objects that are new share nothing with the clones made so far. *)
Lemma store_fresh_decoded (gltf : GltfScene) (s : Viewer) :
  newObjects gltf s -> store_fresh s -> store_fresh (parseSuccess gltf s).
Proof.
  intros Hnew (Hf1 & Hf2 & Hf3).
  pose proof (parseSuccess_maps gltf s) as Hm. cbv zeta in Hm.
  injection Hm as Ho Ha Hn.
  split; [| split].
  - intros uuid orig. rewrite Ho, Hn.
    intros [[H _] | [H _]]%foldl_insertEntry_cases.
    + apply meshesBound_elem in H. lia.
    + specialize (Hf1 _ _ H). lia.
  - intros uuid act. rewrite Ha, Hn.
    intros [[H _] | [H _]]%foldl_insertEntry_cases.
    + apply meshesBound_elem in H. lia.
    + specialize (Hf2 _ _ H). lia.
  - intros uuid act orig. rewrite Ha, Ho.
    intros [[_ H] | [Hact Hold]]%foldl_insertEntry_cases.
    + rewrite H. intros [= <-]. by rewrite sameRef_refl.
    + rewrite Hold. intros Horig Hne uuid' orig' id.
      intros [[H _] | [H _]]%foldl_insertEntry_cases Hid.
      * intros Hid'. pose proof (newObjects_elem _ _ _ _ _ Hnew H Hid').
        apply slotIds_lt_bound in Hid. specialize (Hf2 _ _ Hact). lia.
      * exact (Hf3 uuid act orig Hact Horig Hne uuid' orig' id H Hid).
Qed.

Lemma reachable_store_fresh (s : Viewer) : reachable s -> store_fresh s.
Proof.
  apply reachable_keeps;
    [apply store_fresh_view | apply store_fresh_loaded | apply store_fresh_recolor
    | apply store_fresh_decoded].
Qed.

(** Framing moves and scales the model group and changes nothing else of
    it. *)
Lemma adjustCameraAndLightsToModel_group (s : Viewer) (g : Group) :
  modelGroupRef s = Some g ->
  exists p sc,
    modelGroupRef (adjustCameraAndLightsToModel s)
    = Some (mkGroup (group_uuid g) (group_children g) p sc (geometryBounds g)).
Proof.
  intros Hg. unfold adjustCameraAndLightsToModel. rewrite Hg.
  destruct (cameraRef s), (controlsRef s), (spotLightRef s), (sceneRef s);
    try (exists (position g), (scale g); rewrite Hg; by destruct g).
  simpl. destruct (groundPlaneRef s); simpl; by eexists _, _.
Qed.

Lemma parseSuccess_group (gltf : GltfScene) (s : Viewer) :
  exists p sc,
    modelGroupRef (parseSuccess gltf s)
    = Some (mkGroup (scene_uuid gltf) (scene_children gltf) p sc (scene_bounds gltf)).
Proof.
  unfold parseSuccess. rewrite onPartSelect_None.
  set (g0 := mkGroup _ _ _ _ _).
  set (s1 := foldl recordMaterial _ _).
  assert (Hs1 : modelGroupRef s1 = Some g0).
  { subst s1.
    destruct (foldl_recordMaterial_frame (Group_meshes g0)
                (set_modelGroupRef (Some g0) (adoptModel g0 s))) as (H & _).
    exact H. }
  set (s2 := match sceneRef s1 with Some _ => _ | None => _ end).
  assert (Hs2 : modelGroupRef s2 = Some g0).
  { subst s2. by destruct (sceneRef s1). }
  destruct (adjustCameraAndLightsToModel_group s2 g0 Hs2) as (p & sc & H).
  exists p, sc. exact H.
Qed.

(** After a successful load every mesh of the model has the very same
    material in both maps. *)
Lemma load_ok_same_entries (gltf : GltfScene) (s : Viewer) :
  gltfLoaderRef s = true -> is_Some (sceneRef s) ->
  let s' := load (ParseOk gltf) s in
  activeMaterialsRef s' = gltfOriginalMaterialsRef s'
  /\ forall g uuid,
       modelGroupRef s' = Some g -> uuid ∈ (Group_meshes g).*1 ->
       exists m, gltfOriginalMaterialsRef s' !! uuid = Some m
                 /\ activeMaterialsRef s' !! uuid = Some m
                 /\ sameRef m m = true.
Proof.
  intros Hl [children Hs]. unfold load, loadModelEffect.
  rewrite Hl, Hs. unfold readerOnload.
  change (sceneRef (set_isLoading true s)) with (sceneRef s).
  rewrite Hs. cbv zeta.
  destruct (clearPreviousModel_empty (set_isLoading true s)) as [Ho Ha].
  set (s0 := clearPreviousModel (set_isLoading true s)) in *.
  pose proof (parseSuccess_maps gltf s0) as Hm. cbv zeta in Hm.
  rewrite Ho, Ha in Hm. injection Hm as Ho' Ha' _.
  split; [congruence |].
  intros g uuid Hg Hin.
  destruct (parseSuccess_group gltf s0) as (p & sc & Hg').
  rewrite Hg' in Hg. injection Hg as <-.
  change (uuid ∈ (Group_meshes (mkGroup (scene_uuid gltf) (scene_children gltf)
                     origin (mkVector3 1 1 1) (scene_bounds gltf))).*1) in Hin.
  destruct (foldl_insertEntry_is_Some _ ∅ uuid (or_introl Hin)) as [m Hm].
  exists m. rewrite Ha', Ho'. auto using sameRef_refl.
Qed.

(** C5: the invariant of the two maps (every active entry has an original,
    and is that very object or a clone made from it) holds initially, is
    kept by every operation, so holds in every state the viewer reaches;
    and right after a successful load the two maps are equal, each mesh of
    the model having the same material object in both. *)
Theorem session_invariant :
  (forall width height devicePixelRatio,
     session_inv (initialViewer width height devicePixelRatio))
  /\ (forall op s, session_inv s -> session_inv (run op s))
  /\ (forall s, reachable s -> session_inv s)
  /\ (forall gltf s g uuid,
        reachable s ->
        modelGroupRef (load (ParseOk gltf) s) = Some g ->
        uuid ∈ (Group_meshes g).*1 ->
        exists orig act,
          gltfOriginalMaterialsRef (load (ParseOk gltf) s) !! uuid = Some orig
          /\ activeMaterialsRef (load (ParseOk gltf) s) !! uuid = Some act
          /\ sameRef act orig = true).
Proof.
  assert (Hrun : forall op s, session_inv s -> session_inv (run op s)).
  { intros op s. apply run_keeps;
      [apply session_inv_view | apply session_inv_loaded | apply session_inv_recolor]. }
  assert (Hreach : forall s, reachable s -> session_inv s).
  { apply reachable_keeps;
      [apply session_inv_view | apply session_inv_loaded | apply session_inv_recolor
      | intros gltf t _; apply session_inv_decoded]. }
  split; [intros; apply Hreach, reachable_initial |].
  split; [exact Hrun |]. split; [exact Hreach |].
  intros gltf s g uuid Hr Hg Hin.
  destruct (reachable_ready s Hr) as (Hl & Hs & _).
  destruct (load_ok_same_entries gltf s Hl Hs) as [_ H].
  destruct (H g uuid Hg Hin) as (m & Ho & Ha & Hsame). eauto.
Qed.

Lemma session_invariant_witness :
  session_inv carLoaded
  /\ session_inv (run (OpSetPartColor "wheel" "#0000ff") carLoaded)
  /\ exists orig act,
       gltfOriginalMaterialsRef carLoaded !! "wheel" = Some orig
       /\ activeMaterialsRef carLoaded !! "wheel" = Some act
       /\ sameRef act orig = true.
Proof.
  destruct session_invariant as (_ & Hrun & Hreach & Hload).
  pose proof (Hreach carLoaded carLoaded_reachable) as H.
  split; [exact H |]. split; [exact (Hrun _ _ H) |].
  apply (Hload car (initialViewer 800 600 2)
           (mkGroup "root" (scene_children car) (mkVector3 (-25) (-25) (-25))
                    (mkVector3 2.5 2.5 2.5) (scene_bounds car)) "wheel").
  - apply reachable_initial.
  - vm_compute; reflexivity.
  - vm_compute. right; left.
Defined.

(** ** Disposal by the colour effect *)

(** C8: in every state the viewer reaches, for a part of the loaded model
    with an active material, [setPartColor] disposes the materials of the
    previous active entry exactly when that entry is not the original
    object ([!==]), and disposes nothing otherwise; and no material it
    disposes belongs to an original entry of any mesh. *)
Theorem setPartColor_disposes_only_clones (M color : string) (s : Viewer)
    (g : Group) (orig previous : MaterialSlot) :
  reachable s ->
  modelGroupRef s = Some g ->
  gltfOriginalMaterialsRef s !! M = Some orig ->
  activeMaterialsRef s !! M = Some previous ->
  exists disposed : list nat,
    disposedMaterials (setPartColor M color s) = (disposedMaterials s ++ disposed)%list
    /\ disposed = (if sameRef previous orig then [] else slotIds previous)
    /\ forall uuid original id,
         gltfOriginalMaterialsRef s !! uuid = Some original ->
         id ∈ slotIds original -> id ∉ disposed.
Proof.
  intros Hreach Hg Ho Ha.
  destruct (reachable_store_fresh s Hreach) as (Hf1 & Hf2 & Hf3).
  destruct (applyPartColor_loaded M color s g orig Hg Ho) as (_ & _ & _ & Hd).
  exists (if sameRef previous orig then [] else slotIds previous).
  split; [| split; [reflexivity |]].
  - unfold setPartColor. rewrite Hd, Ha. f_equal. unfold previousToDispose.
    rewrite (sameRef_clone_fresh _ _ orig previous (Hf2 M previous Ha)).
    by destruct (sameRef previous orig).
  - intros uuid original id Hu Hid.
    destruct (sameRef previous orig) eqn:E; [apply not_elem_of_nil |].
    intros Hin. exact (Hf3 M previous orig Ha Ho E uuid original id Hu Hin Hid).
Qed.

Lemma setPartColor_disposes_only_clones_witness :
  let s := setPartColor "wheel" "#ff0000" carLoaded in
  disposedMaterials (setPartColor "wheel" "#0000ff" s) = [4]
  /\ disposedMaterials s = [].
Proof.
  set (s := setPartColor "wheel" "#ff0000" carLoaded).
  destruct (setPartColor_disposes_only_clones "wheel" "#0000ff" s
              (mkGroup "root" (scene_children car) (mkVector3 (-25) (-25) (-25))
                       (mkVector3 2.5 2.5 2.5) (scene_bounds car))
              (One paint) (One (mkMaterial 4 MeshStandardMaterial (Some 0xff0000%N))))
    as (disposed & Hd & -> & _).
  - apply reachable_setPartColor, carLoaded_reachable.
  - vm_compute; reflexivity.
  - vm_compute; reflexivity.
  - vm_compute; reflexivity.
  - split; [rewrite Hd |]; vm_compute; reflexivity.
Defined.

(** ** Unloading, and a load whose decoding fails *)

Lemma loadModelEffect_mounted (modelFile : option File) (s : Viewer) :
  gltfLoaderRef s = true -> is_Some (sceneRef s) ->
  gltfLoaderRef (loadModelEffect modelFile s) = true
  /\ is_Some (sceneRef (loadModelEffect modelFile s)).
Proof.
  intros Hl Hs. pose proof (loadModelEffect_stage modelFile s) as H.
  unfold stageView in H. injection H as _ _ Hl' Hs' _.
  split; [congruence |].
  apply (bool_decide_unpack _). rewrite Hs'. by apply bool_decide_pack.
Qed.

Lemma unload_mounted (s : Viewer) :
  gltfLoaderRef s = true -> is_Some (sceneRef s) -> unload s = unloadModel s.
Proof. intros Hl [children Hs]. unfold unload, loadModelEffect. by rewrite Hl, Hs. Qed.

Lemma removeModelFromScene_frame (s : Viewer) :
  let s' := removeModelFromScene s in
  gltfOriginalMaterialsRef s' = gltfOriginalMaterialsRef s
  /\ activeMaterialsRef s' = activeMaterialsRef s
  /\ modelGroupRef s' = modelGroupRef s
  /\ disposedMaterials s' = disposedMaterials s
  /\ selectedPart s' = selectedPart s
  /\ selectedPartColor s' = selectedPartColor s
  /\ toasts s' = toasts s.
Proof.
  unfold removeModelFromScene.
  destruct (modelGroupRef s) eqn:Hg; [| rewrite Hg; auto 10].
  destruct (sceneRef s); [| rewrite Hg; auto 10].
  destruct (bool_decide _); simpl; rewrite Hg; auto 10.
Qed.

(** After the removal the old root is no longer a child of the scene. *)
Lemma removeModelFromScene_gone (s : Viewer) (g : Group) (children : list string) :
  modelGroupRef s = Some g ->
  sceneRef (removeModelFromScene s) = Some children ->
  group_uuid g ∉ children.
Proof.
  intros Hg. unfold removeModelFromScene. rewrite Hg.
  destruct (sceneRef s) as [cs |] eqn:Hs; [| by rewrite Hs].
  destruct (bool_decide (group_uuid g ∈ cs)) eqn:E.
  - simpl. intros [= <-]. rewrite list_elem_of_filter. by intros [? _].
  - rewrite Hs. intros [= <-]. by apply bool_decide_eq_false in E.
Qed.

Lemma unloadModel_cleared (s : Viewer) :
  let s' := unloadModel s in
  gltfOriginalMaterialsRef s' = ∅ /\ activeMaterialsRef s' = ∅
  /\ modelGroupRef s' = None /\ selectedPart s' = None /\ isLoading s' = false.
Proof.
  unfold unloadModel. rewrite onPartSelect_None. simpl. auto.
Qed.

(** An unload of a viewer that holds no model changes nothing. *)
Lemma unloadModel_fixed (s : Viewer) :
  gltfOriginalMaterialsRef s = ∅ -> activeMaterialsRef s = ∅ ->
  modelGroupRef s = None -> selectedPart s = None -> isLoading s = false ->
  unloadModel s = s.
Proof.
  intros Ho Ha Hg Hp Hl.
  unfold unloadModel. rewrite onPartSelect_None.
  unfold removeModelFromScene, disposeActiveClones, clonesToDispose.
  simpl. rewrite Hg, Ha, map_to_list_empty. simpl. rewrite app_nil_r.
  destruct s; simpl in *; subst; reflexivity.
Qed.

(** C6: with the viewer mounted, after [unload()] following a load both
    maps are empty, the root is absent and no part is selected; and a
    second [unload()] returns the very same state. *)
Theorem unload_after_load_empties (payload : ParseResult) (s : Viewer) :
  gltfLoaderRef s = true -> is_Some (sceneRef s) ->
  let s' := unload (load payload s) in
  gltfOriginalMaterialsRef s' = ∅
  /\ activeMaterialsRef s' = ∅
  /\ modelGroupRef s' = None
  /\ selectedPart s' = None
  /\ unload s' = s'.
Proof.
  intros Hl Hs.
  destruct (loadModelEffect_mounted (Some (Readable payload)) s Hl Hs)
    as [Hl1 Hs1].
  fold (load payload s) in Hl1, Hs1.
  destruct (loadModelEffect_mounted None (load payload s) Hl1 Hs1) as [Hl2 Hs2].
  fold (unload (load payload s)) in Hl2, Hs2.
  cbv zeta. rewrite (unload_mounted (unload _) Hl2 Hs2).
  rewrite (unload_mounted (load payload s) Hl1 Hs1).
  destruct (unloadModel_cleared (load payload s)) as (Ho & Ha & Hg & Hp & Hi).
  repeat split; try assumption.
  by apply unloadModel_fixed.
Qed.

Lemma unload_after_load_empties_witness :
  let s' := unload (load (ParseOk car) (initialViewer 800 600 2)) in
  gltfOriginalMaterialsRef s' = ∅ /\ modelGroupRef s' = None /\ unload s' = s'.
Proof.
  destruct (unload_after_load_empties (ParseOk car) (initialViewer 800 600 2))
    as (Ho & _ & Hg & _ & Hu).
  - reflexivity.
  - by eexists.
  - cbv zeta. auto.
Defined.

(** [unload()] twice in a row is the same as once, in any state. *)
Lemma unload_idempotent (s : Viewer) : unload (unload s) = unload s.
Proof.
  unfold unload at 2 3. unfold loadModelEffect.
  destruct (gltfLoaderRef s) eqn:Hl;
    [destruct (sceneRef s) as [children |] eqn:Hs |].
  - assert (Hm : gltfLoaderRef (unloadModel s) = true /\ is_Some (sceneRef (unloadModel s))).
    { rewrite <- (unload_mounted s) by eauto. apply loadModelEffect_mounted; eauto. }
    destruct Hm as [Hl' Hs'].
    rewrite (unload_mounted _ Hl' Hs').
    destruct (unloadModel_cleared s) as (Ho & Ha & Hg & Hp & Hi).
    by apply unloadModel_fixed.
  - unfold unload, loadModelEffect. by rewrite Hl, Hs.
  - unfold unload, loadModelEffect. by rewrite Hl.
Qed.

Lemma clearPreviousModel_frame (s : Viewer) :
  let s' := clearPreviousModel s in
  disposedMaterials s'
  = (disposedMaterials s
     ++ clonesToDispose (gltfOriginalMaterialsRef s) (activeMaterialsRef s))%list
  /\ selectedPart s' = selectedPart s
  /\ selectedPartColor s' = selectedPartColor s
  /\ toasts s' = toasts s
  /\ modelGroupRef s' = None
  /\ (forall g children,
        modelGroupRef s = Some g -> sceneRef s' = Some children ->
        group_uuid g ∉ children).
Proof.
  unfold clearPreviousModel.
  set (s0 := set_activeMaterialsRef ∅ (set_gltfOriginalMaterialsRef ∅
               (disposeActiveClones s))).
  destruct (removeModelFromScene_frame s0) as (_ & _ & _ & Hd & Hp & Hc & Ht).
  assert (Hgone : forall g children,
            modelGroupRef s0 = Some g ->
            sceneRef (removeModelFromScene s0) = Some children ->
            group_uuid g ∉ children)
    by (intros g children; apply removeModelFromScene_gone).
  set (s1 := removeModelFromScene s0) in *.
  simpl. rewrite Hd, Hp, Hc, Ht. repeat split; try reflexivity.
  exact Hgone.
Qed.

(** What the teardown disposes: the materials of the active entries that
    are not the original object of their mesh. *)
Lemma elem_of_clonesToDispose (originals active : gmap string MaterialSlot) (id : nat) :
  id ∈ clonesToDispose originals active
  <-> exists uuid m,
        active !! uuid = Some m /\ isCloneWeMade originals uuid m = true
        /\ id ∈ slotIds m.
Proof.
  unfold clonesToDispose. rewrite list_elem_of_bind. split.
  - intros ([uuid m] & Hid & Hin). apply elem_of_map_to_list in Hin.
    exists uuid, m. destruct (isCloneWeMade originals uuid m);
      [auto | by apply not_elem_of_nil in Hid].
  - intros (uuid & m & Hin & Hclone & Hid). exists (uuid, m).
    rewrite Hclone. split; [exact Hid | by apply elem_of_map_to_list].
Qed.





(** ** Selecting a part *)

Lemma handlePartSelect_frame (part : option string) (s : Viewer) :
  let s' := handlePartSelect part s in
  selectedPart s' = part
  /\ gltfOriginalMaterialsRef s' = gltfOriginalMaterialsRef s
  /\ activeMaterialsRef s' = activeMaterialsRef s
  /\ meshMaterial s' = meshMaterial s
  /\ modelGroupRef s' = modelGroupRef s
  /\ nextId s' = nextId s
  /\ disposedMaterials s' = disposedMaterials s.
Proof.
  unfold handlePartSelect.
  destruct part as [uuid |]; [| simpl; auto 10].
  destruct (meshMaterial s !! uuid); simpl; auto 10.
Qed.

(** The colour read from a mesh with a material. *)
Lemma handlePartSelect_color (uuid : string) (s : Viewer) (currentMaterial : MaterialSlot) :
  meshMaterial s !! uuid = Some currentMaterial ->
  selectedPartColor (handlePartSelect (Some uuid) s) = colorToSet currentMaterial.
Proof. intros H. unfold handlePartSelect. by rewrite H. Qed.

Lemma firstColor_Some (ms : list Material) (c : Color) :
  firstColor ms = Some c ->
  exists before mat after,
    ms = (before ++ mat :: after)%list
    /\ Forall (fun m => mat_color m = None) before
    /\ mat_color mat = Some c.
Proof.
  induction ms as [| m ms IH]; simpl; [discriminate |].
  destruct (mat_color m) as [c' |] eqn:E.
  - intros [= ->]. by exists [], m, ms.
  - intros (before & mat & after & -> & Hb & Hc)%IH.
    exists (m :: before), mat, after. repeat split; [| exact Hc].
    by constructor.
Qed.

Lemma firstColor_None (ms : list Material) :
  firstColor ms = None -> Forall (fun m => mat_color m = None) ms.
Proof.
  induction ms as [| m ms IH]; simpl; [constructor |].
  destruct (mat_color m) eqn:E; [discriminate |]. intros H. constructor; auto.
Qed.

(** [colorToSet] is the hex colour of the first material that has a
    colour, and [#FF0000] when none has. *)
Lemma colorToSet_cases (currentMaterial : MaterialSlot) :
  (exists before mat after c,
     slotMaterials currentMaterial = (before ++ mat :: after)%list
     /\ Forall (fun m => mat_color m = None) before
     /\ mat_color mat = Some c
     /\ colorToSet currentMaterial = hexStyle c)
  \/ (Forall (fun m => mat_color m = None) (slotMaterials currentMaterial)
      /\ colorToSet currentMaterial = "#FF0000").
Proof.
  assert (Hlist : forall ms : list Material,
    (exists before mat after c, ms = (before ++ mat :: after)%list
       /\ Forall (fun m => mat_color m = None) before /\ mat_color mat = Some c
       /\ match firstColor ms with Some c => hexStyle c | None => "#FF0000" end
          = hexStyle c)
    \/ (Forall (fun m => mat_color m = None) ms
        /\ match firstColor ms with Some c => hexStyle c | None => "#FF0000" end
           = "#FF0000")).
  { intros ms. destruct (firstColor ms) as [c |] eqn:E.
    - left. apply firstColor_Some in E as (before & mat & after & -> & Hb & Hc).
      by exists before, mat, after, c.
    - right. split; [by apply firstColor_None | reflexivity]. }
  destruct currentMaterial as [mat | a [| mat rest]].
  - specialize (Hlist [mat]). simpl in *. destruct (mat_color mat); exact Hlist.
  - right. split; [constructor | reflexivity].
  - exact (Hlist (mat :: rest)).
Qed.

(** When the selection or the colour changed and the part belongs to the
    loaded model, the effect runs at once for the new selection. *)
Lemma onPartSelect_recolors (uuid : string) (s : Viewer) (g : Group)
    (orig : MaterialSlot) :
  selectedPart s <> Some uuid ->
  modelGroupRef s = Some g ->
  gltfOriginalMaterialsRef s !! uuid = Some orig ->
  let s' := onPartSelect (Some uuid) s in
  let new := cloneAndColorSlot (Color_new (selectedPartColor s')) (nextId s) orig in
  activeMaterialsRef s' = <[uuid := new]> (activeMaterialsRef s)
  /\ meshMaterial s' = <[uuid := new]> (meshMaterial s).
Proof.
  intros Hne Hg Ho.
  destruct (handlePartSelect_frame (Some uuid) s) as (Hp & Ho1 & Ha1 & Hm1 & Hg1 & Hn1 & _).
  unfold onPartSelect, rerender.
  set (s1 := handlePartSelect (Some uuid) s) in *. clearbody s1.
  assert (Hdeps : depsChanged s s1 = true).
  { unfold depsChanged. rewrite Hp.
    rewrite (bool_decide_eq_false_2 (selectedPart s = Some uuid)) by exact Hne.
    reflexivity. }
  rewrite Hdeps. unfold colorEffect. rewrite Hp.
  rewrite <- Hg1 in Hg. rewrite <- Ho1 in Ho.
  destruct (applyPartColor_loaded uuid (selectedPartColor s1) s1 g orig Hg Ho)
    as (Ha' & Hm' & _).
  destruct (applyPartColor_frame (Some uuid) (selectedPartColor s1) s1)
    as (_ & _ & _ & _ & Hc' & _).
  cbv zeta. rewrite Hc', Ha', Hm', Ha1, Hm1, Hn1. auto.
Qed.

(** The same when the part was selected already and it is the colour
    string that changed; all that the effect writes. *)
Lemma onPartSelect_runs (uuid : string) (s : Viewer) (g : Group)
    (orig : MaterialSlot) :
  depsChanged s (handlePartSelect (Some uuid) s) = true ->
  modelGroupRef s = Some g ->
  gltfOriginalMaterialsRef s !! uuid = Some orig ->
  let s' := onPartSelect (Some uuid) s in
  let new := cloneAndColorSlot (Color_new (selectedPartColor s')) (nextId s) orig in
  activeMaterialsRef s' = <[uuid := new]> (activeMaterialsRef s)
  /\ meshMaterial s' = <[uuid := new]> (meshMaterial s)
  /\ nextId s' = nextId s + slotObjects orig
  /\ disposedMaterials s'
     = (disposedMaterials s
        ++ previousToDispose (activeMaterialsRef s !! uuid) orig new)%list.
Proof.
  intros Hdeps Hg Ho.
  destruct (handlePartSelect_frame (Some uuid) s)
    as (Hp & Ho1 & Ha1 & Hm1 & Hg1 & Hn1 & Hd1).
  unfold onPartSelect, rerender.
  set (s1 := handlePartSelect (Some uuid) s) in *. clearbody s1.
  rewrite Hdeps. unfold colorEffect. rewrite Hp.
  rewrite <- Hg1 in Hg. rewrite <- Ho1 in Ho.
  destruct (applyPartColor_loaded uuid (selectedPartColor s1) s1 g orig Hg Ho)
    as (Ha' & Hm' & Hn' & Hd').
  destruct (applyPartColor_frame (Some uuid) (selectedPartColor s1) s1)
    as (_ & _ & _ & _ & Hc' & _).
  cbv zeta. rewrite Hc', Ha', Hm', Hn', Hd', Ha1, Hm1, Hn1, Hd1. auto.
Qed.

(** C3 (the claim does not hold): selecting the wheel of the loaded car
    replaces its active material by a clone. *)
Lemma selectPart_recolors_the_part :
  ~ materialsUntouched carLoaded (selectPart (Some "wheel") carLoaded).
Proof.
  intros (Ha & _).
  apply (f_equal (fun m : gmap string MaterialSlot => m !! "wheel")) in Ha.
  vm_compute in Ha. discriminate Ha.
Qed.

(** C3, amended: [selectPart] records the selection, sets the part colour
    to the one read from the material of the mesh, if it has one, and never
    touches the originals or the model.  It leaves the materials alone
    when the identifier is absent or not in [originalMaterials], when no
    model is loaded, or when neither the selection nor the part colour
    changes.  In every other case, that is when the selection changes, and
    also when the part was selected already but the colour read back is
    another string than the current one, the colour effect runs for the
    selected part: a clone of its original, with the part colour applied,
    becomes the mesh's material and its active entry, and the clone that
    was there before is disposed. *)
Theorem selectPart_effects (identifier : option string) (s : Viewer) :
  let s' := selectPart identifier s in
  selectedPart s' = identifier
  /\ selectedPartColor s'
     = match identifier with
       | Some uuid =>
           match meshMaterial s !! uuid with
           | Some currentMaterial => colorToSet currentMaterial
           | None => selectedPartColor s
           end
       | None => selectedPartColor s
       end
  /\ gltfOriginalMaterialsRef s' = gltfOriginalMaterialsRef s
  /\ modelGroupRef s' = modelGroupRef s
  /\ (identifier = None \/ modelGroupRef s = None
      \/ (exists uuid, identifier = Some uuid
                       /\ gltfOriginalMaterialsRef s !! uuid = None)
      \/ (identifier = selectedPart s
          /\ selectedPartColor s' = selectedPartColor s) ->
      materialsUntouched s s')
  /\ (forall uuid g orig,
        identifier = Some uuid ->
        selectedPart s <> Some uuid \/ selectedPartColor s' <> selectedPartColor s ->
        modelGroupRef s = Some g ->
        gltfOriginalMaterialsRef s !! uuid = Some orig ->
        let new :=
          cloneAndColorSlot (Color_new (selectedPartColor s')) (nextId s) orig in
        activeMaterialsRef s' = <[uuid := new]> (activeMaterialsRef s)
        /\ meshMaterial s' = <[uuid := new]> (meshMaterial s)
        /\ nextId s' = nextId s + slotObjects orig
        /\ disposedMaterials s'
           = (disposedMaterials s
              ++ previousToDispose (activeMaterialsRef s !! uuid) orig new)%list).
Proof.
  cbv zeta. unfold selectPart.
  destruct (handlePartSelect_frame identifier s) as (Hp & Ho1 & Ha1 & Hm1 & Hg1 & Hn1 & Hd1).
  assert (Hframe : selectedPart (onPartSelect identifier s) = identifier
            /\ selectedPartColor (onPartSelect identifier s)
               = selectedPartColor (handlePartSelect identifier s)
            /\ gltfOriginalMaterialsRef (onPartSelect identifier s)
               = gltfOriginalMaterialsRef s
            /\ modelGroupRef (onPartSelect identifier s) = modelGroupRef s).
  { unfold onPartSelect, rerender, colorEffect.
    destruct (depsChanged _ _); [| auto].
    destruct (applyPartColor_frame (selectedPart (handlePartSelect identifier s))
                (selectedPartColor (handlePartSelect identifier s))
                (handlePartSelect identifier s)) as (-> & -> & _ & -> & -> & _).
    auto. }
  destruct Hframe as (H1 & Hcol & H2 & H3).
  split; [exact H1 |]. split; [| split; [exact H2 | split; [exact H3 |]]].
  { rewrite Hcol. unfold handlePartSelect.
    destruct identifier as [uuid |]; [| reflexivity].
    by destruct (meshMaterial s !! uuid). }
  rewrite Hcol. split.
  - intros Hidle.
    assert (Hsame : onPartSelect identifier s = handlePartSelect identifier s).
    { unfold onPartSelect, rerender, colorEffect.
      destruct (depsChanged _ _) eqn:Hdeps; [| reflexivity].
      apply applyPartColor_idle. rewrite Hp, Hg1, Ho1.
      destruct Hidle as [-> | [H | [H | [Heq Hc]]]]; auto.
      unfold depsChanged in Hdeps. rewrite Hp, Hc in Hdeps.
      rewrite !bool_decide_eq_true_2 in Hdeps by done. discriminate Hdeps. }
    rewrite Hsame. unfold materialsUntouched. auto.
  - intros uuid g orig -> Hne Hg Ho.
    assert (Hdeps : depsChanged s (handlePartSelect (Some uuid) s) = true).
    { unfold depsChanged. rewrite Hp. apply negb_true_iff, andb_false_iff.
      destruct Hne as [Hne | Hne]; [left | right]; apply bool_decide_eq_false_2;
        congruence. }
    pose proof (onPartSelect_runs uuid s g orig Hdeps Hg Ho) as Hrun.
    cbv zeta in Hrun. by rewrite Hcol in Hrun.
Qed.

Lemma selectPart_effects_witness :
  materialsUntouched carLoaded (selectPart None carLoaded)
  /\ activeMaterialsRef (selectPart (Some "wheel") carLoaded) !! "wheel"
     = Some (One (mkMaterial 4 MeshStandardMaterial (Some 0xffffff%N)))
  /\ let typed :=
       onSelectedPartColorChange "#FFFFFF" (selectPart (Some "wheel") carLoaded) in
     selectedPartColor (selectPart (Some "wheel") typed) = "#ffffff"
     /\ disposedMaterials typed = [4]
     /\ disposedMaterials (selectPart (Some "wheel") typed) = [4; 5].
Proof.
  split; [| split].
  - destruct (selectPart_effects None carLoaded) as (_ & _ & _ & _ & Hidle & _).
    apply Hidle. left; reflexivity.
  - destruct (selectPart_effects (Some "wheel") carLoaded) as (_ & _ & _ & _ & _ & Hrun).
    destruct (Hrun "wheel"
                (mkGroup "root" (scene_children car) (mkVector3 (-25) (-25) (-25))
                         (mkVector3 2.5 2.5 2.5) (scene_bounds car))
                (One paint)) as [Ha _].
    + reflexivity.
    + left. vm_compute; discriminate.
    + vm_compute; reflexivity.
    + vm_compute; reflexivity.
    + rewrite Ha. rewrite lookup_insert_eq. vm_compute; reflexivity.
  - cbv zeta.
    destruct (selectPart_effects (Some "wheel")
                (onSelectedPartColorChange "#FFFFFF"
                   (selectPart (Some "wheel") carLoaded)))
      as (_ & Hcol & _ & _ & _ & Hrun).
    split; [rewrite Hcol; vm_compute; reflexivity |].
    split; [vm_compute; reflexivity |].
    destruct (Hrun "wheel"
                (mkGroup "root" (scene_children car) (mkVector3 (-25) (-25) (-25))
                         (mkVector3 2.5 2.5 2.5) (scene_bounds car))
                (One paint)) as (_ & _ & _ & Hd).
    + reflexivity.
    + right. rewrite Hcol. vm_compute; discriminate.
    + vm_compute; reflexivity.
    + vm_compute; reflexivity.
    + rewrite Hd. vm_compute; reflexivity.
Defined.

(** C10: a click on a mesh of the loaded model selects it and sets the
    part colour from the material the mesh carries: the hex colour of the
    first component that has a colour, or [#FF0000] when none has.  That
    colour is the one the colour effect applies next, and at once when the
    selection changed: the part's active material is then a clone of its
    original with this colour. *)
Theorem canvas_click_sets_part_color (uuid : string) (s : Viewer) (g : Group)
    (currentMaterial : MaterialSlot) :
  is_Some (mountRef s) -> is_Some (cameraRef s) ->
  modelGroupRef s = Some g ->
  uuid ∈ (Group_meshes g).*1 ->
  meshMaterial s !! uuid = Some currentMaterial ->
  let s' := handleCanvasClick (Some uuid) s in
  selectedPart s' = Some uuid
  /\ ((exists before mat after c,
         slotMaterials currentMaterial = (before ++ mat :: after)%list
         /\ Forall (fun m => mat_color m = None) before
         /\ mat_color mat = Some c
         /\ selectedPartColor s' = hexStyle c)
      \/ (Forall (fun m => mat_color m = None) (slotMaterials currentMaterial)
          /\ selectedPartColor s' = "#FF0000"))
  /\ colorEffect s' = applyPartColor (Some uuid) (selectedPartColor s') s'
  /\ (forall orig,
        gltfOriginalMaterialsRef s !! uuid = Some orig ->
        selectedPart s <> Some uuid ->
        activeMaterialsRef s' !! uuid
        = Some (cloneAndColorSlot (Color_new (selectedPartColor s')) (nextId s) orig)).
Proof.
  intros [m Hm] [cam Hc] Hg Hin Hlive. cbv zeta.
  assert (Hclick : handleCanvasClick (Some uuid) s = onPartSelect (Some uuid) s).
  { unfold handleCanvasClick. rewrite Hm, Hc, Hg.
    by rewrite bool_decide_eq_true_2. }
  rewrite Hclick.
  assert (Hsel : selectedPart (onPartSelect (Some uuid) s) = Some uuid
            /\ selectedPartColor (onPartSelect (Some uuid) s)
               = colorToSet currentMaterial).
  { unfold onPartSelect, rerender, colorEffect.
    destruct (handlePartSelect_frame (Some uuid) s) as (Hp & _).
    pose proof (handlePartSelect_color uuid s currentMaterial Hlive) as Hcol.
    destruct (depsChanged _ _); [| auto].
    destruct (applyPartColor_frame (selectedPart (handlePartSelect (Some uuid) s))
                (selectedPartColor (handlePartSelect (Some uuid) s))
                (handlePartSelect (Some uuid) s)) as (_ & _ & _ & -> & -> & _).
    auto. }
  destruct Hsel as [Hsel Hcol].
  split; [exact Hsel |]. split; [| split].
  - rewrite Hcol. apply colorToSet_cases.
  - unfold colorEffect. by rewrite Hsel.
  - intros orig Ho Hne.
    destruct (onPartSelect_recolors uuid s g orig Hne Hg Ho) as [Ha _].
    rewrite Ha. apply lookup_insert_eq.
Qed.

Lemma canvas_click_sets_part_color_witness :
  let s' := handleCanvasClick (Some "body") carLoaded in
  selectedPart s' = Some "body" /\ selectedPartColor s' = "#00ff00".
Proof.
  destruct (canvas_click_sets_part_color "body" carLoaded
              (mkGroup "root" (scene_children car) (mkVector3 (-25) (-25) (-25))
                       (mkVector3 2.5 2.5 2.5) (scene_bounds car))
              (Many 1 [glass; shader])) as (Hsel & _).
  - by eexists.
  - by eexists.
  - vm_compute; reflexivity.
  - vm_compute. left.
  - vm_compute; reflexivity.
  - cbv zeta. split; [exact Hsel | vm_compute; reflexivity].
Defined.

(* ===================================================================== *)
(** * More about the operations *)
(* ===================================================================== *)

(** ** What the selection and the exports leave alone *)

Lemma handlePartSelect_core (part : option string) (s : Viewer) :
  sessionCore (handlePartSelect part s) = sessionCore s
  /\ surfaceView (handlePartSelect part s) = surfaceView s
  /\ isLoading (handlePartSelect part s) = isLoading s.
Proof. unfold handlePartSelect. repeat case_match; auto. Qed.

Lemma applyPartColor_rest (part : option string) (color : string) (s : Viewer) :
  surfaceView (applyPartColor part color s) = surfaceView s
  /\ disposedGeometries (applyPartColor part color s) = disposedGeometries s
  /\ isLoading (applyPartColor part color s) = isLoading s.
Proof. unfold applyPartColor. repeat case_match; auto. Qed.

Lemma rerender_rest (before after : Viewer) :
  surfaceView (rerender before after) = surfaceView after
  /\ gltfOriginalMaterialsRef (rerender before after) = gltfOriginalMaterialsRef after
  /\ modelGroupRef (rerender before after) = modelGroupRef after
  /\ sceneRef (rerender before after) = sceneRef after
  /\ disposedGeometries (rerender before after) = disposedGeometries after
  /\ isLoading (rerender before after) = isLoading after.
Proof.
  unfold rerender, colorEffect. destruct (depsChanged _ _); [| auto 10].
  destruct (applyPartColor_rest (selectedPart after) (selectedPartColor after) after)
    as (H1 & H2 & H3).
  destruct (applyPartColor_frame (selectedPart after) (selectedPartColor after) after)
    as (H4 & H5 & H6 & _).
  auto 10.
Qed.

Lemma onPartSelect_rest (part : option string) (s : Viewer) :
  surfaceView (onPartSelect part s) = surfaceView s
  /\ gltfOriginalMaterialsRef (onPartSelect part s) = gltfOriginalMaterialsRef s
  /\ modelGroupRef (onPartSelect part s) = modelGroupRef s
  /\ sceneRef (onPartSelect part s) = sceneRef s
  /\ disposedGeometries (onPartSelect part s) = disposedGeometries s
  /\ isLoading (onPartSelect part s) = isLoading s.
Proof.
  unfold onPartSelect.
  destruct (rerender_rest s (handlePartSelect part s)) as (H1 & H2 & H3 & H4 & H5 & H6).
  destruct (handlePartSelect_core part s) as (Hc & Hs & Hl).
  unfold sessionCore in Hc. injection Hc as Ho _ _ _ _ Hdg Hg Hsc.
  rewrite H1, H2, H3, H4, H5, H6. auto 10.
Qed.

Lemma handleCanvasClick_rest (hit : option string) (s : Viewer) :
  surfaceView (handleCanvasClick hit s) = surfaceView s
  /\ gltfOriginalMaterialsRef (handleCanvasClick hit s) = gltfOriginalMaterialsRef s
  /\ modelGroupRef (handleCanvasClick hit s) = modelGroupRef s
  /\ sceneRef (handleCanvasClick hit s) = sceneRef s
  /\ disposedGeometries (handleCanvasClick hit s) = disposedGeometries s
  /\ isLoading (handleCanvasClick hit s) = isLoading s.
Proof.
  unfold handleCanvasClick.
  destruct (mountRef s) eqn:Hm; [| auto 10].
  destruct (cameraRef s) eqn:Hc; [| auto 10].
  destruct (modelGroupRef s) eqn:Hg; [| rewrite Hg; auto 10].
  rewrite <- Hg.
  destruct hit as [uuid |]; [destruct (bool_decide _) |]; apply onPartSelect_rest.
Qed.

Lemma onSelectedPartColorChange_rest (color : string) (s : Viewer) :
  surfaceView (onSelectedPartColorChange color s) = surfaceView s
  /\ gltfOriginalMaterialsRef (onSelectedPartColorChange color s)
     = gltfOriginalMaterialsRef s
  /\ modelGroupRef (onSelectedPartColorChange color s) = modelGroupRef s
  /\ sceneRef (onSelectedPartColorChange color s) = sceneRef s
  /\ disposedGeometries (onSelectedPartColorChange color s) = disposedGeometries s
  /\ isLoading (onSelectedPartColorChange color s) = isLoading s.
Proof.
  unfold onSelectedPartColorChange.
  destruct (rerender_rest s (set_selectedPartColor color s)) as (H1 & H2 & H3 & H4 & H5 & H6).
  rewrite H1, H2, H3, H4, H5, H6. auto 10.
Qed.

Lemma exportToImage_core (scale : float) (s : Viewer) :
  sessionCore (exportToImage scale s) = sessionCore s
  /\ isLoading (exportToImage scale s) = isLoading s
  /\ selectedPart (exportToImage scale s) = selectedPart s.
Proof. unfold exportToImage. repeat case_match; auto. Qed.

Lemma windowResized_core (width height : float) (s : Viewer) :
  sessionCore (windowResized width height s) = sessionCore s
  /\ isLoading (windowResized width height s) = isLoading s
  /\ selectedPart (windowResized width height s) = selectedPart s.
Proof. unfold windowResized, handleResize. repeat case_match; auto. Qed.

Lemma exportToGLB_rest (result : ExporterResult) (s : Viewer) :
  surfaceView (exportToGLB result s) = surfaceView s
  /\ gltfOriginalMaterialsRef (exportToGLB result s) = gltfOriginalMaterialsRef s
  /\ activeMaterialsRef (exportToGLB result s) = activeMaterialsRef s
  /\ modelGroupRef (exportToGLB result s) = modelGroupRef s
  /\ sceneRef (exportToGLB result s) = sceneRef s
  /\ disposedMaterials (exportToGLB result s) = disposedMaterials s
  /\ disposedGeometries (exportToGLB result s) = disposedGeometries s
  /\ isLoading (exportToGLB result s) = isLoading s
  /\ selectedPart (exportToGLB result s) = selectedPart s.
Proof.
  unfold exportToGLB. destruct (modelGroupRef s) eqn:Hg; [| simpl; rewrite ?Hg; auto 12].
  destruct result; simpl; rewrite ?Hg; auto 12.
Qed.

(** ** The pieces of the load effect *)

Lemma loadModelEffect_mounted_cases (modelFile : option File) (s : Viewer) :
  gltfLoaderRef s = true -> is_Some (sceneRef s) ->
  loadModelEffect modelFile s
  = match modelFile with
    | None => unloadModel s
    | Some Unreadable => readerOnerror (set_isLoading true s)
    | Some (Readable (ParseOk gltf)) =>
        parseSuccess gltf (clearPreviousModel (set_isLoading true s))
    | Some (Readable (ParseError message)) =>
        parseFailure message (clearPreviousModel (set_isLoading true s))
    | Some (Readable ParseThrows) => clearPreviousModel (set_isLoading true s)
    end.
Proof.
  intros Hl [children Hs]. unfold loadModelEffect. rewrite Hl, Hs.
  destruct modelFile as [[| [gltf | message |]] |]; try reflexivity;
    unfold readerOnload;
    change (sceneRef (set_isLoading true s)) with (sceneRef s);
    by rewrite Hs.
Qed.

(** The load effect run to its end is one of the ways its pieces can
    run: one after the other, with nothing in between. *)
Lemma loadModelEffect_pieces (file : File) (s : Viewer) :
  gltfLoaderRef s = true -> is_Some (sceneRef s) ->
  loadModelEffect (Some file) s
  = match file with
    | Unreadable => fire ReaderFailed (fire FileChosen s)
    | Readable (ParseOk gltf) =>
        fire (Decoded gltf) (fire ReaderLoaded (fire FileChosen s))
    | Readable (ParseError message) =>
        fire (DecodeFailed message) (fire ReaderLoaded (fire FileChosen s))
    | Readable ParseThrows => fire ReaderLoaded (fire FileChosen s)
    end.
Proof.
  intros Hl [children Hs]. rewrite loadModelEffect_mounted_cases by eauto.
  unfold fire, startReading, readerOnload. rewrite Hl, Hs.
  change (sceneRef (set_isLoading true s)) with (sceneRef s). rewrite Hs.
  by destruct file as [| [gltf | message |]].
Qed.

Lemma removeModelFromScene_rest (s : Viewer) :
  surfaceView (removeModelFromScene s) = surfaceView s
  /\ meshMaterial (removeModelFromScene s) = meshMaterial s
  /\ nextId (removeModelFromScene s) = nextId s
  /\ isLoading (removeModelFromScene s) = isLoading s.
Proof.
  unfold removeModelFromScene.
  destruct (modelGroupRef s); [| auto].
  destruct (sceneRef s); [| auto].
  destruct (bool_decide _); auto.
Qed.

(** With the model in the scene, the removal takes its root out of the
    scene, and no other child, and disposes the geometry of every mesh of
    the model. *)
Lemma removeModelFromScene_scene (s : Viewer) :
  scene_inv s ->
  sceneRef (removeModelFromScene s)
  = match modelGroupRef s with
    | Some g => filter (fun u => u ≠ group_uuid g) <$> sceneRef s
    | None => sceneRef s
    end
  /\ disposedGeometries (removeModelFromScene s)
     = (disposedGeometries s
        ++ match modelGroupRef s with
           | Some g => (Group_meshes g).*1
           | None => []
           end)%list.
Proof.
  unfold scene_inv, removeModelFromScene. intros Hs.
  destruct (modelGroupRef s) as [g |] eqn:Hg.
  - destruct (Hs g eq_refl) as (children & Hc & Hin). rewrite Hc.
    rewrite bool_decide_eq_true_2 by exact Hin. simpl. auto.
  - rewrite app_nil_r. auto.
Qed.

Lemma clearPreviousModel_rest (s : Viewer) :
  surfaceView (clearPreviousModel s) = surfaceView s
  /\ meshMaterial (clearPreviousModel s) = meshMaterial s
  /\ nextId (clearPreviousModel s) = nextId s
  /\ isLoading (clearPreviousModel s) = isLoading s.
Proof.
  unfold clearPreviousModel.
  set (s0 := set_activeMaterialsRef ∅ (set_gltfOriginalMaterialsRef ∅
               (disposeActiveClones s))).
  destruct (removeModelFromScene_rest s0) as (H1 & H2 & H3 & H4).
  set (s1 := removeModelFromScene s0) in *. clearbody s1.
  unfold surfaceView in *. simpl. rewrite H2, H3, H4.
  injection H1 as -> -> ->. auto.
Qed.

Lemma clearPreviousModel_scene (s : Viewer) :
  scene_inv s ->
  sceneRef (clearPreviousModel s)
  = match modelGroupRef s with
    | Some g => filter (fun u => u ≠ group_uuid g) <$> sceneRef s
    | None => sceneRef s
    end
  /\ disposedGeometries (clearPreviousModel s)
     = (disposedGeometries s
        ++ match modelGroupRef s with
           | Some g => (Group_meshes g).*1
           | None => []
           end)%list.
Proof.
  intros Hs. unfold clearPreviousModel.
  set (s0 := set_activeMaterialsRef ∅ (set_gltfOriginalMaterialsRef ∅
               (disposeActiveClones s))).
  assert (Hs0 : scene_inv s0) by exact Hs.
  destruct (removeModelFromScene_scene s0 Hs0) as [H1 H2].
  set (s1 := removeModelFromScene s0) in *. clearbody s1.
  simpl. auto.
Qed.

Lemma unloadModel_rest (s : Viewer) :
  surfaceView (unloadModel s) = surfaceView s
  /\ meshMaterial (unloadModel s) = meshMaterial s
  /\ disposedMaterials (unloadModel s)
     = (disposedMaterials s
        ++ clonesToDispose (gltfOriginalMaterialsRef s) (activeMaterialsRef s))%list
  /\ toasts (unloadModel s) = toasts s
  /\ selectedPartColor (unloadModel s) = selectedPartColor s.
Proof.
  unfold unloadModel. rewrite onPartSelect_None.
  destruct (removeModelFromScene_rest (disposeActiveClones s)) as (H1 & H2 & _).
  destruct (removeModelFromScene_frame (disposeActiveClones s))
    as (_ & _ & _ & Hd & _ & Hc & Ht).
  set (s1 := removeModelFromScene (disposeActiveClones s)) in *. clearbody s1.
  unfold surfaceView in *. simpl. rewrite H2, Hd, Hc, Ht.
  injection H1 as -> -> ->. auto.
Qed.

Lemma unloadModel_scene (s : Viewer) :
  scene_inv s ->
  sceneRef (unloadModel s)
  = match modelGroupRef s with
    | Some g => filter (fun u => u ≠ group_uuid g) <$> sceneRef s
    | None => sceneRef s
    end
  /\ disposedGeometries (unloadModel s)
     = (disposedGeometries s
        ++ match modelGroupRef s with
           | Some g => (Group_meshes g).*1
           | None => []
           end)%list.
Proof.
  intros Hs. unfold unloadModel. rewrite onPartSelect_None.
  assert (Hs0 : scene_inv (disposeActiveClones s)) by exact Hs.
  destruct (removeModelFromScene_scene _ Hs0) as [H1 H2].
  set (s1 := removeModelFromScene (disposeActiveClones s)) in *. clearbody s1.
  simpl. auto.
Qed.

Lemma adjustCameraAndLightsToModel_rest (s : Viewer) :
  let s' := adjustCameraAndLightsToModel s in
  surfaceView s' = surfaceView s
  /\ sceneRef s' = sceneRef s
  /\ meshMaterial s' = meshMaterial s
  /\ disposedMaterials s' = disposedMaterials s
  /\ disposedGeometries s' = disposedGeometries s
  /\ toasts s' = toasts s
  /\ isLoading s' = isLoading s
  /\ selectedPart s' = selectedPart s
  /\ selectedPartColor s' = selectedPartColor s.
Proof.
  unfold adjustCameraAndLightsToModel.
  destruct (modelGroupRef s); [| auto 12].
  destruct (cameraRef s) as [camera |] eqn:Hc; [| auto 12].
  destruct (controlsRef s); [| auto 12].
  destruct (spotLightRef s); [| auto 12].
  destruct (sceneRef s) eqn:Hs; [| auto 12].
  cbv zeta. unfold surfaceView. simpl.
  destruct (groundPlaneRef s); simpl; rewrite Hc, Hs; auto 12.
Qed.

Lemma foldl_recordMaterial_rest (meshes : list (string * MaterialSlot)) (s : Viewer) :
  let s' := foldl recordMaterial s meshes in
  surfaceView s' = surfaceView s
  /\ meshMaterial s' = meshMaterial s
  /\ disposedMaterials s' = disposedMaterials s
  /\ disposedGeometries s' = disposedGeometries s
  /\ toasts s' = toasts s
  /\ isLoading s' = isLoading s.
Proof.
  revert s. induction meshes as [| [u m] meshes IH]; intros s; simpl; [auto 10 |].
  destruct (IH (recordMaterial s (u, m))) as (H1 & H2 & H3 & H4 & H5 & H6).
  simpl in *. auto 10.
Qed.

Lemma adoptModel_store (g : Group) (s : Viewer) :
  meshMaterial (adoptModel g s) = foldl insertEntry (meshMaterial s) (Group_meshes g).
Proof.
  unfold adoptModel. simpl. generalize (meshMaterial s).
  induction (Group_meshes g) as [| [u m] meshes IH]; intros store; simpl;
    [reflexivity | apply IH].
Qed.

Lemma adoptModel_rest (g : Group) (s : Viewer) :
  surfaceView (adoptModel g s) = surfaceView s
  /\ sceneRef (adoptModel g s) = sceneRef s
  /\ disposedMaterials (adoptModel g s) = disposedMaterials s
  /\ disposedGeometries (adoptModel g s) = disposedGeometries s
  /\ toasts (adoptModel g s) = toasts s.
Proof. unfold adoptModel. auto. Qed.

(** Everything the success callback does besides filling the maps. *)
Lemma parseSuccess_rest (gltf : GltfScene) (s : Viewer) :
  let meshes :=
    Group_meshes (mkGroup (scene_uuid gltf) (scene_children gltf) origin
                          (mkVector3 1 1 1) (scene_bounds gltf)) in
  let s' := parseSuccess gltf s in
  surfaceView s' = surfaceView s
  /\ sceneRef s' = Scene_add (scene_uuid gltf) <$> sceneRef s
  /\ meshMaterial s' = foldl insertEntry (meshMaterial s) meshes
  /\ disposedMaterials s' = disposedMaterials s
  /\ disposedGeometries s' = disposedGeometries s
  /\ toasts s' = (toasts s ++ [mkToast "Model loaded successfully!" false])%list
  /\ isLoading s' = false
  /\ selectedPart s' = None.
Proof.
  intros meshes. cbv zeta. unfold parseSuccess. rewrite onPartSelect_None.
  set (g := mkGroup _ _ _ _ _) in *.
  pose proof (adoptModel_store g s) as Hstore.
  destruct (adoptModel_rest g s) as (E1 & E2 & E3 & E4 & E5).
  set (sa := adoptModel g s) in *. clearbody sa.
  set (s0 := set_modelGroupRef (Some g) sa).
  assert (H0 : surfaceView s0 = surfaceView s /\ sceneRef s0 = sceneRef s
               /\ meshMaterial s0 = foldl insertEntry (meshMaterial s) meshes
               /\ disposedMaterials s0 = disposedMaterials s
               /\ disposedGeometries s0 = disposedGeometries s
               /\ toasts s0 = toasts s).
  { subst s0. unfold surfaceView in *. simpl. rewrite Hstore, E2, E3, E4, E5.
    injection E1 as -> -> ->. auto 10. }
  destruct H0 as (A1 & A2 & A3 & A4 & A5 & A6).
  destruct (foldl_recordMaterial_rest (Group_meshes g) s0) as (B1 & B2 & B3 & B4 & B5 & _).
  destruct (foldl_recordMaterial_frame (Group_meshes g) s0) as (_ & Bs & _).
  set (s1 := foldl recordMaterial s0 (Group_meshes g)) in *. clearbody s1 s0.
  set (s2 := match sceneRef s1 with Some _ => _ | None => _ end).
  assert (H2 : surfaceView s2 = surfaceView s1
               /\ sceneRef s2 = Scene_add (scene_uuid gltf) <$> sceneRef s1
               /\ meshMaterial s2 = meshMaterial s1
               /\ disposedMaterials s2 = disposedMaterials s1
               /\ disposedGeometries s2 = disposedGeometries s1
               /\ toasts s2 = toasts s1).
  { subst s2. destruct (sceneRef s1) eqn:E; simpl; auto 10. }
  destruct H2 as (C1 & C2 & C3 & C4 & C5 & C6).
  destruct (adjustCameraAndLightsToModel_rest s2) as (D1 & D2 & D3 & D4 & D5 & D6 & _).
  clearbody s2.
  set (s3 := adjustCameraAndLightsToModel s2) in *. clearbody s3.
  unfold toast, surfaceView in *. simpl.
  rewrite D2, D3, D4, D5, D6, C2, C3, C4, C5, C6, Bs, B2, B3, B4, B5, A2, A3, A4, A5, A6.
  repeat split; congruence.
Qed.

(** ** Invariants of the reachable states *)

(** A property that holds initially and that each step of the
    operations keeps, in states already known to be reachable, holds in
    every reachable state. *)
Section Invariant.

Variable P : Viewer -> Prop.
Hypothesis P_initial : forall w h d, P (initialViewer w h d).
Hypothesis P_select : forall part s, P s -> P (handlePartSelect part s).
Hypothesis P_color : forall color s, P s -> P (set_selectedPartColor color s).
Hypothesis P_recolor : forall part color s, P s -> P (applyPartColor part color s).
Hypothesis P_load :
  forall modelFile s, reachable s -> P s -> P (loadModelEffect modelFile s).
Hypothesis P_exportImage :
  forall scale s, reachable s -> P s -> P (exportToImage scale s).
Hypothesis P_exportModel :
  forall result s, reachable s -> P s -> P (exportToGLB result s).
Hypothesis P_resize :
  forall w h s, reachable s -> P s -> P (windowResized w h s).
Hypothesis P_fire :
  forall cb s, reachable s -> admissible cb s -> P s -> P (fire cb s).

Lemma rerender_invariant (before after : Viewer) : P after -> P (rerender before after).
Proof.
  unfold rerender, colorEffect. intros H.
  destruct (depsChanged _ _); [by apply P_recolor | exact H].
Qed.

Lemma run_invariant (op : Operation) (s : Viewer) : reachable s -> P s -> P (run op s).
Proof.
  intros Hr H. destruct op; simpl.
  - by apply P_load.
  - by apply rerender_invariant, P_select.
  - unfold handleCanvasClick. repeat case_match; try exact H;
      by apply rerender_invariant, P_select.
  - by apply P_recolor.
  - by apply rerender_invariant, P_color.
  - by apply P_exportImage.
  - by apply P_exportModel.
  - by apply P_resize.
Qed.

Lemma reachable_invariant (s : Viewer) : reachable s -> P s.
Proof.
  induction 1 as [w h d | op s Hr IH | cb s Hr IH Hcb];
    [apply P_initial | by apply run_invariant | by apply P_fire].
Qed.

End Invariant.

Lemma surface_inv_view (s t : Viewer) :
  surfaceView s = surfaceView t -> surface_inv s -> surface_inv t.
Proof.
  unfold surfaceView. intros [= Hm Hr Ha] (r & c & m & Hr' & Hc' & Hm' & Hw & Hh & Hasp).
  rewrite Hc' in Ha. simpl in Ha. symmetry in Ha.
  apply fmap_Some in Ha as (c' & Hc'' & Ha').
  exists r, c', m. rewrite <- Hr, <- Hm, <- Ha'. auto 10.
Qed.

Lemma loadModelEffect_surface (modelFile : option File) (s : Viewer) :
  surfaceView (loadModelEffect modelFile s) = surfaceView s.
Proof.
  destruct (gltfLoaderRef s) eqn:Hl; [destruct (sceneRef s) as [children |] eqn:Hs |].
  - rewrite loadModelEffect_mounted_cases by eauto.
    destruct modelFile as [[| [gltf | message |]] |]; try reflexivity.
    + destruct (parseSuccess_rest gltf (clearPreviousModel (set_isLoading true s)))
        as (-> & _).
      by destruct (clearPreviousModel_rest (set_isLoading true s)) as (-> & _).
    + transitivity (surfaceView (clearPreviousModel (set_isLoading true s)));
        [reflexivity |].
      by destruct (clearPreviousModel_rest (set_isLoading true s)) as (-> & _).
    + by destruct (clearPreviousModel_rest (set_isLoading true s)) as (-> & _).
    + by destruct (unloadModel_rest s) as (-> & _).
  - unfold loadModelEffect. rewrite Hl, Hs.
    destruct modelFile; [destruct (isLoading s) |]; reflexivity.
  - unfold loadModelEffect. rewrite Hl.
    destruct modelFile; [destruct (isLoading s) |]; reflexivity.
Qed.

Lemma fire_surface (cb : Callback) (s : Viewer) :
  surfaceView (fire cb s) = surfaceView s.
Proof.
  destruct cb as [| | | gltf | message]; simpl.
  - unfold startReading. repeat case_match; reflexivity.
  - unfold readerOnload. destruct (sceneRef s); [| reflexivity].
    by destruct (clearPreviousModel_rest s) as (-> & _).
  - reflexivity.
  - by destruct (parseSuccess_rest gltf s) as (-> & _).
  - reflexivity.
Qed.

(** Initialisation and the resize listener fit the renderer and the
    camera to the container, the image export puts them back, and nothing
    else writes them. *)
Lemma reachable_surface_inv (s : Viewer) : reachable s -> surface_inv s.
Proof.
  apply reachable_invariant.
  - intros w h d. unfold surface_inv; simpl. eexists _, _, _. repeat split; reflexivity.
  - intros part t. apply surface_inv_view. symmetry. apply handlePartSelect_core.
  - intros color t. by apply surface_inv_view.
  - intros part color t. apply surface_inv_view. symmetry. apply applyPartColor_rest.
  - intros f t _. apply surface_inv_view. symmetry. apply loadModelEffect_surface.
  - intros scale t Hr. apply surface_inv_view.
    destruct (exportToImage_ready scale t (reachable_ready t Hr)) as (Hr' & Hc' & Hm').
    unfold surfaceView. by rewrite Hr', Hc', Hm'.
  - intros result t _. apply surface_inv_view. symmetry. apply exportToGLB_rest.
  - intros w h t Hr _.
    destruct (reachable_ready t Hr) as (_ & _ & [cam Hc] & r & m & Hr' & Hm & _).
    unfold windowResized, handleResize. rewrite Hm. simpl. rewrite Hr', Hc.
    unfold surface_inv; simpl. eexists _, _, _. repeat split; reflexivity.
  - intros cb t _ _. apply surface_inv_view. symmetry. apply fire_surface.
Qed.

Lemma scene_inv_same (s t : Viewer) :
  sceneRef t = sceneRef s -> modelGroupRef t = modelGroupRef s ->
  scene_inv s -> scene_inv t.
Proof. unfold scene_inv. by intros -> ->. Qed.

Lemma scene_inv_none (s : Viewer) : modelGroupRef s = None -> scene_inv s.
Proof. intros H g. rewrite H. discriminate. Qed.

Lemma stage_scene (s t : Viewer) :
  stageView s = stageView t -> is_Some (sceneRef t) -> is_Some (sceneRef s).
Proof.
  unfold stageView. intros [= _ _ _ H _] Hs.
  apply (bool_decide_unpack _). rewrite H. by apply bool_decide_pack.
Qed.


Lemma elem_of_Scene_add (uuid : string) (children : list string) :
  uuid ∈ Scene_add uuid children.
Proof. unfold Scene_add. apply elem_of_app. right. left. Qed.

(** The success callback adds the root it makes the model. *)
Lemma parseSuccess_scene_inv (gltf : GltfScene) (s : Viewer) :
  is_Some (sceneRef s) -> scene_inv (parseSuccess gltf s).
Proof.
  intros [children Hs] g.
  destruct (parseSuccess_rest gltf s) as (_ & Hsc & _).
  destruct (parseSuccess_group gltf s) as (p & sc & Hg).
  rewrite Hg, Hsc, Hs. intros [= <-]. simpl.
  eexists. split; [reflexivity | apply elem_of_Scene_add].
Qed.

Lemma clearPreviousModel_scene_inv (s : Viewer) : scene_inv (clearPreviousModel s).
Proof.
  apply scene_inv_none. by destruct (clearPreviousModel_frame s) as (_ & _ & _ & _ & Hg & _).
Qed.

(** The model is added to the scene when it becomes the model, and
    nothing but its own removal takes a root out of the scene. *)
Lemma reachable_scene_inv (s : Viewer) : reachable s -> scene_inv s.
Proof.
  apply reachable_invariant.
  - intros w h d. by apply scene_inv_none.
  - intros part t. destruct (handlePartSelect_core part t) as ([= _ _ _ _ _ _ Hg Hs] & _).
    by apply scene_inv_same.
  - intros color t. by apply scene_inv_same.
  - intros part color t. destruct (applyPartColor_frame part color t) as (_ & Hg & Hs & _).
    by apply scene_inv_same.
  - intros f t Hr Hinv.
    destruct (reachable_ready t Hr) as (Hl & Hs & _).
    rewrite loadModelEffect_mounted_cases by assumption.
    destruct f as [[| [gltf | message |]] |]; try exact Hinv.
    + apply parseSuccess_scene_inv.
      apply (stage_scene _ t); [| exact Hs].
      exact (clearPreviousModel_stage (set_isLoading true t)).
    + exact (clearPreviousModel_scene_inv (set_isLoading true t)).
    + exact (clearPreviousModel_scene_inv (set_isLoading true t)).
    + apply scene_inv_none. by destruct (unloadModel_cleared t) as (_ & _ & Hg & _).
  - intros scale t _. destruct (exportToImage_core scale t) as ([= _ _ _ _ _ _ Hg Hs] & _).
    by apply scene_inv_same.
  - intros result t _. destruct (exportToGLB_rest result t) as (_ & _ & _ & Hg & Hs & _).
    by apply scene_inv_same.
  - intros w h t _. destruct (windowResized_core w h t) as ([= _ _ _ _ _ _ Hg Hs] & _).
    by apply scene_inv_same.
  - intros cb t Hr _ Hinv.
    destruct (reachable_ready t Hr) as (_ & [children Hs] & _).
    destruct cb as [| | | gltf | message]; simpl; try exact Hinv.
    + unfold startReading. by repeat case_match.
    + unfold readerOnload. rewrite Hs. apply clearPreviousModel_scene_inv.
    + apply parseSuccess_scene_inv. by exists children.
Qed.

Lemma installed_inv_same (s t : Viewer) :
  activeMaterialsRef t = activeMaterialsRef s -> meshMaterial t = meshMaterial s ->
  installed_inv s -> installed_inv t.
Proof. unfold installed_inv. by intros -> ->. Qed.

Lemma installed_inv_empty (s : Viewer) : activeMaterialsRef s = ∅ -> installed_inv s.
Proof. intros H uuid m. rewrite H, lookup_empty. discriminate. Qed.

(** Re-applying the active materials changes no mesh when each mesh
    already carries its active material. *)
Lemma reapply_installed (active store : gmap string MaterialSlot)
    (meshes : list (string * MaterialSlot)) :
  (forall uuid m, active !! uuid = Some m -> store !! uuid = Some m) ->
  foldl (reapplyMaterial active) store meshes = store.
Proof.
  intros H. induction meshes as [| child meshes IH]; simpl; [reflexivity |].
  unfold reapplyMaterial at 2.
  destruct (active !! child.1) as [m |] eqn:E; [| exact IH].
  rewrite (insert_id store child.1 m (H _ _ E)). exact IH.
Qed.

Lemma exportToGLB_installed (result : ExporterResult) (s : Viewer) :
  installed_inv s -> meshMaterial (exportToGLB result s) = meshMaterial s.
Proof.
  intros H. unfold exportToGLB. destruct (modelGroupRef s) as [g |]; [| reflexivity].
  destruct result; simpl; by apply reapply_installed.
Qed.

(** The success callback records under each mesh what the mesh carries. *)
Lemma parseSuccess_installed (gltf : GltfScene) (s : Viewer) :
  installed_inv s -> installed_inv (parseSuccess gltf s).
Proof.
  intros Hinv.
  destruct (parseSuccess_rest gltf s) as (_ & _ & Hm & _).
  pose proof (parseSuccess_maps gltf s) as Hmaps. cbv zeta in Hmaps, Hm.
  injection Hmaps as _ Ha _.
  intros u m. rewrite Ha, Hm.
  intros [[_ H] | [H Hold]]%foldl_insertEntry_cases; [apply H |].
  rewrite Hold. by apply Hinv.
Qed.

(** The load records what each mesh carries, and the colour effect
    installs the clone it records. *)
Lemma reachable_installed_inv (s : Viewer) : reachable s -> installed_inv s.
Proof.
  apply reachable_invariant.
  - intros w h d. by apply installed_inv_empty.
  - intros part t. destruct (handlePartSelect_core part t) as ([= _ Ha Hm _ _ _ _ _] & _).
    by apply installed_inv_same.
  - intros color t. by apply installed_inv_same.
  - intros part color t Hinv.
    destruct part as [uuid |]; [| by rewrite applyPartColor_idle; auto].
    destruct (modelGroupRef t) as [g |] eqn:Hg; [| by rewrite applyPartColor_idle; auto].
    destruct (gltfOriginalMaterialsRef t !! uuid) as [orig |] eqn:Ho;
      [| by rewrite applyPartColor_idle; eauto 6].
    destruct (applyPartColor_loaded uuid color t g orig Hg Ho) as (Ha & Hm & _).
    intros u m. rewrite Ha, Hm, !lookup_insert.
    case_decide; [done | apply Hinv].
  - intros f t Hr Hinv.
    destruct (reachable_ready t Hr) as (Hl & Hs & _).
    rewrite loadModelEffect_mounted_cases by assumption.
    destruct f as [[| [gltf | message |]] |]; try exact Hinv.
    + apply parseSuccess_installed, installed_inv_empty.
      by destruct (clearPreviousModel_empty (set_isLoading true t)) as [_ Ha].
    + apply installed_inv_empty.
      destruct (clearPreviousModel_empty (set_isLoading true t)) as [_ Ha].
      exact Ha.
    + apply installed_inv_empty.
      by destruct (clearPreviousModel_empty (set_isLoading true t)) as [_ Ha].
    + apply installed_inv_empty. by destruct (unloadModel_cleared t) as (_ & Ha & _).
  - intros scale t _. destruct (exportToImage_core scale t) as ([= _ Ha Hm _ _ _ _ _] & _).
    by apply installed_inv_same.
  - intros result t _ Hinv.
    destruct (exportToGLB_rest result t) as (_ & _ & Ha & _).
    apply (installed_inv_same t); [exact Ha | by apply exportToGLB_installed | exact Hinv].
  - intros w h t _. destruct (windowResized_core w h t) as ([= _ Ha Hm _ _ _ _ _] & _).
    by apply installed_inv_same.
  - intros cb t _ _ Hinv.
    destruct cb as [| | | gltf | message]; simpl; try exact Hinv.
    + unfold startReading. by repeat case_match.
    + unfold readerOnload. destruct (sceneRef t); [| exact Hinv].
      apply installed_inv_empty. by destruct (clearPreviousModel_empty t) as [_ Ha].
    + by apply parseSuccess_installed.
Qed.


Lemma reachable_session_inv (s : Viewer) : reachable s -> session_inv s.
Proof.
  apply reachable_keeps;
    [apply session_inv_view | apply session_inv_loaded | apply session_inv_recolor
    | intros gltf t _; apply session_inv_decoded].
Qed.

Lemma reachable_keys_inv (s : Viewer) : reachable s -> keys_inv s.
Proof.
  apply reachable_keeps.
  - unfold keys_inv, mapsView. intros t t' [= Ho Ha _]. by rewrite Ho, Ha.
  - unfold keys_inv. by intros t [-> _].
  - unfold keys_inv. intros part color t Hk.
    destruct part as [uuid |]; [| by rewrite applyPartColor_idle; auto].
    destruct (modelGroupRef t) as [g |] eqn:Hg; [| by rewrite applyPartColor_idle; auto].
    destruct (gltfOriginalMaterialsRef t !! uuid) as [orig |] eqn:Ho;
      [| by rewrite applyPartColor_idle; eauto 6].
    destruct (applyPartColor_loaded uuid color t g orig Hg Ho) as (Ha & _).
    destruct (applyPartColor_frame (Some uuid) color t) as (Ho' & _).
    rewrite Ha, Ho', dom_insert_L, Hk.
    apply subseteq_union_1_L, singleton_subseteq_l, elem_of_dom. eauto.
  - unfold keys_inv. intros gltf t _ Hk.
    pose proof (parseSuccess_maps gltf t) as Hm. cbv zeta in Hm.
    injection Hm as Ho Ha _.
    rewrite Ha, Ho, (foldl_insertEntry_union _ (activeMaterialsRef t)),
      (foldl_insertEntry_union _ (gltfOriginalMaterialsRef t)), !dom_union_L.
    by rewrite Hk.
Qed.

Lemma reachable_idle_inv (s : Viewer) : reachable s -> idle_inv s.
Proof.
  assert (Hsome : forall t g, modelGroupRef t = Some g -> idle_inv t).
  { intros t g Hg. unfold idle_inv. rewrite Hg. discriminate. }
  assert (Hclear : forall t,
            gltfOriginalMaterialsRef t = ∅ -> activeMaterialsRef t = ∅ -> idle_inv t).
  { intros t Ho Ha _. auto. }
  apply reachable_invariant.
  - intros w h d. by apply Hclear.
  - intros part t. destruct (handlePartSelect_core part t) as ([= Ho Ha _ _ _ _ Hg _] & _).
    unfold idle_inv. by rewrite Ho, Ha, Hg.
  - intros color t. auto.
  - intros part color t Hinv.
    destruct (modelGroupRef t) as [g |] eqn:Hg; [| by rewrite applyPartColor_idle; auto].
    destruct (applyPartColor_frame part color t) as (_ & Hg' & _).
    apply (Hsome _ g). by rewrite Hg'.
  - intros f t Hr Hm.
    destruct (reachable_ready t Hr) as (Hl & Hs & _).
    rewrite loadModelEffect_mounted_cases by assumption.
    destruct f as [[| [gltf | message |]] |]; try exact Hm.
    + destruct (parseSuccess_group gltf (clearPreviousModel (set_isLoading true t)))
        as (p & sc & Hg).
      by apply (Hsome _ _ Hg).
    + destruct (clearPreviousModel_empty (set_isLoading true t)) as [Ho Ha].
      by apply Hclear.
    + destruct (clearPreviousModel_empty (set_isLoading true t)) as [Ho Ha].
      by apply Hclear.
    + destruct (unloadModel_cleared t) as (Ho & Ha & _). by apply Hclear.
  - intros scale t _. destruct (exportToImage_core scale t) as ([= Ho Ha _ _ _ _ Hg _] & _).
    unfold idle_inv. by rewrite Ho, Ha, Hg.
  - intros result t _.
    destruct (exportToGLB_rest result t) as (_ & Ho & Ha & Hg & _).
    unfold idle_inv. by rewrite Ho, Ha, Hg.
  - intros w h t _. destruct (windowResized_core w h t) as ([= Ho Ha _ _ _ _ Hg _] & _).
    unfold idle_inv. by rewrite Ho, Ha, Hg.
  - intros cb t _ _ Hm.
    destruct cb as [| | | gltf | message]; simpl; try exact Hm.
    + unfold startReading. by repeat case_match.
    + unfold readerOnload. destruct (sceneRef t); [| exact Hm].
      destruct (clearPreviousModel_empty t) as [Ho Ha]. by apply Hclear.
    + destruct (parseSuccess_group gltf t) as (p & sc & Hg). by apply (Hsome _ _ Hg).
Qed.

Lemma clonesToDispose_spares_originals (s : Viewer) (id : nat) (uuid : string)
    (orig : MaterialSlot) :
  reachable s ->
  id ∈ clonesToDispose (gltfOriginalMaterialsRef s) (activeMaterialsRef s) ->
  gltfOriginalMaterialsRef s !! uuid = Some orig ->
  id ∉ slotIds orig.
Proof.
  intros Hr (u & m & Ha & Hclone & Hid)%elem_of_clonesToDispose Ho.
  destruct (reachable_session_inv s Hr u m Ha) as (o & Ho' & _).
  destruct (reachable_store_fresh s Hr) as (_ & _ & Hf3).
  unfold isCloneWeMade in Hclone. rewrite Ho' in Hclone.
  apply negb_true_iff in Hclone.
  exact (Hf3 u m o Ha Ho' Hclone uuid orig id Ho Hid).
Qed.

(** The materials the load effect disposes. *)
Lemma loadModelEffect_disposed (modelFile : option File) (s : Viewer) :
  gltfLoaderRef s = true -> is_Some (sceneRef s) ->
  disposedMaterials (loadModelEffect modelFile s)
  = (disposedMaterials s
     ++ if tearsDown modelFile
        then clonesToDispose (gltfOriginalMaterialsRef s) (activeMaterialsRef s)
        else [])%list.
Proof.
  intros Hl Hs. rewrite loadModelEffect_mounted_cases by assumption.
  destruct modelFile as [[| [gltf | message |]] |]; cbn [tearsDown].
  - simpl. by rewrite app_nil_r.
  - destruct (parseSuccess_rest gltf (clearPreviousModel (set_isLoading true s)))
      as (_ & _ & _ & -> & _).
    by destruct (clearPreviousModel_frame (set_isLoading true s)) as (-> & _).
  - change (disposedMaterials (parseFailure message ?t)) with (disposedMaterials t).
    by destruct (clearPreviousModel_frame (set_isLoading true s)) as (-> & _).
  - by destruct (clearPreviousModel_frame (set_isLoading true s)) as (-> & _).
  - by destruct (unloadModel_rest s) as (_ & _ & -> & _).
Qed.


Lemma cloneAndColorMaterial_class (c : Color) (fresh : nat) (m : Material) :
  mat_class (cloneAndColorMaterial c fresh m) = mat_class m.
Proof.
  unfold cloneAndColorMaterial, Material_clone; simpl.
  destruct (mat_color m); simpl; [reflexivity |].
  destruct (hasSettableColor (mat_class m)); reflexivity.
Qed.

Lemma cloneAndColorSlot_materials (c : Color) (fresh : nat) (orig : MaterialSlot) :
  mat_class <$> slotMaterials (cloneAndColorSlot c fresh orig)
  = mat_class <$> slotMaterials orig
  /\ slotColors (cloneAndColorSlot c fresh orig)
     = (fun m => if takesColor m then Some c else None) <$> slotMaterials orig.
Proof.
  destruct orig as [m | a ms]; unfold slotColors; simpl.
  - by rewrite cloneAndColorMaterial_class, cloneAndColorMaterial_color.
  - rewrite !fmap_imap. split.
    + rewrite <- (imap_const mat_class ms). apply imap_ext. intros i m _. simpl.
      apply cloneAndColorMaterial_class.
    + rewrite <- (imap_const (fun m => if takesColor m then Some c else None) ms).
      apply imap_ext. intros i m _. simpl. apply cloneAndColorMaterial_color.
Qed.

Lemma fitScaleOf_finite (size : Vector3) : is_finite (fitScaleOf size) = true.
Proof.
  rewrite fitScaleOf_cases. unfold Js.Number_isFinite.
  destruct (is_finite (5 / maxDimOf size)) eqn:E; [exact E | reflexivity].
Qed.

(* ===================================================================== *)
(** * Further properties of the viewer *)
(* ===================================================================== *)

(** X1: in every reachable state the renderer has the client size of its
    container and the camera's aspect ratio is that width over that
    height. *)
Theorem surface_fits_container (s : Viewer) :
  reachable s ->
  exists renderer camera mount,
    rendererRef s = Some renderer /\ cameraRef s = Some camera
    /\ mountRef s = Some mount
    /\ r_width renderer = clientWidth mount
    /\ r_height renderer = clientHeight mount
    /\ aspect camera = (clientWidth mount / clientHeight mount)%float.
Proof.
  intros Hr. destruct (reachable_surface_inv s Hr) as (r & c & m & H).
  exists r, c, m. exact H.
Qed.

Lemma surface_fits_container_witness :
  exists renderer camera,
    rendererRef (windowResized 1024 768 carLoaded) = Some renderer
    /\ cameraRef (windowResized 1024 768 carLoaded) = Some camera
    /\ r_width renderer = 1024%float
    /\ aspect camera = (1024 / 768)%float.
Proof.
  destruct (surface_fits_container (windowResized 1024 768 carLoaded))
    as (r & c & m & Hr & Hc & Hm & Hw & _ & Ha).
  - apply (reachable_run (OpWindowResize 1024 768)), carLoaded_reachable.
  - exists r, c. rewrite Hw, Ha.
    assert (m = mkMount 1024 768) as ->.
    { vm_compute in Hm. congruence. }
    auto.
Defined.

Lemma twoLoads_reachable : reachable twoLoads.
Proof.
  unfold twoLoads.
  do 6 (apply reachable_fire; [| try exact I; vm_compute; repeat constructor]).
  apply reachable_initial.
Qed.

Lemma run_other_scene (op : Operation) (s : Viewer) :
  (forall modelFile, op <> OpLoadModel modelFile) ->
  sceneRef (run op s) = sceneRef s.
Proof.
  intros Hop. destruct op; simpl.
  - by destruct (Hop modelFile).
  - by destruct (onPartSelect_rest identifier s) as (_ & _ & _ & H & _).
  - by destruct (handleCanvasClick_rest hit s) as (_ & _ & _ & H & _).
  - by destruct (applyPartColor_frame (Some identifier) color s) as (_ & _ & H & _).
  - by destruct (onSelectedPartColorChange_rest color s) as (_ & _ & _ & H & _).
  - unfold exportToImage. repeat case_match; auto.
  - by destruct (exportToGLB_rest result s) as (_ & _ & _ & _ & H & _).
  - unfold windowResized, handleResize. repeat case_match; auto.
Qed.

(** A child of the scene that is not the root of the current model
    outlives the removal of the model, and the arrival of another. *)
Lemma filter_keeps_child (u root : string) (children : list string) :
  u ∈ children -> root <> u -> u ∈ filter (fun v => v ≠ root) children.
Proof. intros Hin Hne. apply list_elem_of_filter. split; [congruence | exact Hin]. Qed.

Lemma clearPreviousModel_keeps_child (s : Viewer) (children : list string) (u : string) :
  scene_inv s -> sceneRef s = Some children -> u ∈ children ->
  (forall g, modelGroupRef s = Some g -> group_uuid g <> u) ->
  exists children', sceneRef (clearPreviousModel s) = Some children' /\ u ∈ children'.
Proof.
  intros Hinv Hs Hin Hne. destruct (clearPreviousModel_scene s Hinv) as [-> _].
  rewrite Hs. destruct (modelGroupRef s) as [g |]; simpl; [| eauto].
  eexists. split; [reflexivity |]. apply filter_keeps_child; auto.
Qed.

Lemma unloadModel_keeps_child (s : Viewer) (children : list string) (u : string) :
  scene_inv s -> sceneRef s = Some children -> u ∈ children ->
  (forall g, modelGroupRef s = Some g -> group_uuid g <> u) ->
  exists children', sceneRef (unloadModel s) = Some children' /\ u ∈ children'.
Proof.
  intros Hinv Hs Hin Hne. destruct (unloadModel_scene s Hinv) as [-> _].
  rewrite Hs. destruct (modelGroupRef s) as [g |]; simpl; [| eauto].
  eexists. split; [reflexivity |]. apply filter_keeps_child; auto.
Qed.

Lemma parseSuccess_keeps_child (gltf : GltfScene) (s : Viewer)
    (children : list string) (u : string) :
  sceneRef s = Some children -> u ∈ children ->
  exists children', sceneRef (parseSuccess gltf s) = Some children' /\ u ∈ children'.
Proof.
  intros Hs Hin. destruct (parseSuccess_rest gltf s) as (_ & -> & _).
  rewrite Hs. simpl. eexists. split; [reflexivity |].
  unfold Scene_add. apply elem_of_app.
  destruct (decide (scene_uuid gltf = u)) as [-> | Hne]; [right; left |].
  left. by apply filter_keeps_child.
Qed.

(** X2: in every reachable state, also when the pieces of several loads
    have interleaved, the root of the current model is a child of the
    scene.  The scene can hold other roots besides, those of models
    decoded while another load was in flight, and these stay: the only
    root an operation or a callback takes out of the scene is that of the
    current model. *)
Theorem scene_holds_current_model (s : Viewer) :
  reachable s ->
  (forall g, modelGroupRef s = Some g ->
     exists children, sceneRef s = Some children /\ group_uuid g ∈ children)
  /\ (forall children u,
        sceneRef s = Some children -> u ∈ children ->
        (forall g, modelGroupRef s = Some g -> group_uuid g <> u) ->
        (forall op, exists children',
            sceneRef (run op s) = Some children' /\ u ∈ children')
        /\ (forall cb, exists children',
              sceneRef (fire cb s) = Some children' /\ u ∈ children')).
Proof.
  intros Hr. pose proof (reachable_scene_inv s Hr) as Hinv.
  split; [exact Hinv |].
  intros children u Hs Hin Hne.
  destruct (reachable_ready s Hr) as (Hl & Hsome & _).
  assert (Hclear : exists children',
            sceneRef (clearPreviousModel (set_isLoading true s)) = Some children'
            /\ u ∈ children')
    by (by apply (clearPreviousModel_keeps_child (set_isLoading true s) children)).
  split.
  - intros op.
    destruct op as [modelFile | | | | | | |];
      try (rewrite run_other_scene by discriminate; by exists children).
    simpl. rewrite loadModelEffect_mounted_cases by assumption.
    destruct modelFile as [[| [gltf | message |]] |].
    + by exists children.
    + destruct Hclear as (children' & Hs' & Hin').
      by apply (parseSuccess_keeps_child gltf _ children').
    + exact Hclear.
    + exact Hclear.
    + by apply (unloadModel_keeps_child s children).
  - intros cb. destruct cb as [| | | gltf | message]; cbn [fire].
    + exists children. split; [| exact Hin].
      unfold startReading. rewrite Hl, Hs. exact Hs.
    + unfold readerOnload. rewrite Hs.
      by apply (clearPreviousModel_keeps_child s children).
    + by exists children.
    + by apply (parseSuccess_keeps_child gltf s children).
    + by exists children.
Qed.

Lemma scene_holds_current_model_witness :
  sceneRef twoLoads = Some ["root"; "crate"]
  /\ exists children, sceneRef (unload twoLoads) = Some children /\ "root" ∈ children.
Proof.
  split; [vm_compute; reflexivity |].
  destruct (scene_holds_current_model twoLoads twoLoads_reachable) as [_ H].
  destruct (H ["root"; "crate"] "root") as [Hop _].
  - vm_compute; reflexivity.
  - left.
  - intros g. vm_compute. intros [= <-]. discriminate.
  - exact (Hop (OpLoadModel None)).
Defined.

(** X3: from a reachable state, also one reached with loads in flight,
    every teardown disposes the geometry of each mesh of the current
    model, once and in traversal order: the unload, and [reader.onload]
    for any file that has been read, an empty one too, before the decoder
    is called.  A file that cannot be read disposes none. *)
Theorem teardown_disposes_model_geometry (modelFile : option File) (s : Viewer) :
  reachable s ->
  disposedGeometries (loadModelEffect modelFile s)
  = (disposedGeometries s
     ++ match tearsDown modelFile, modelGroupRef s with
        | true, Some g => (Group_meshes g).*1
        | _, _ => []
        end)%list
  /\ disposedGeometries (fire ReaderLoaded s)
     = (disposedGeometries s
        ++ match modelGroupRef s with
           | Some g => (Group_meshes g).*1
           | None => []
           end)%list.
Proof.
  intros Hr. destruct (reachable_ready s Hr) as (Hl & Hs & _).
  pose proof (reachable_scene_inv s Hr) as Hinv.
  assert (Hinv' : scene_inv (set_isLoading true s)) by exact Hinv.
  split.
  - rewrite loadModelEffect_mounted_cases by assumption.
    destruct modelFile as [[| [gltf | message |]] |]; cbn [tearsDown].
    + simpl. by rewrite app_nil_r.
    + destruct (parseSuccess_rest gltf (clearPreviousModel (set_isLoading true s)))
        as (_ & _ & _ & _ & -> & _).
      by destruct (clearPreviousModel_scene _ Hinv') as [_ ->].
    + change (disposedGeometries (parseFailure message ?t)) with (disposedGeometries t).
      by destruct (clearPreviousModel_scene _ Hinv') as [_ ->].
    + by destruct (clearPreviousModel_scene _ Hinv') as [_ ->].
    + by destruct (unloadModel_scene s Hinv) as [_ ->].
  - simpl. unfold readerOnload. destruct Hs as [children Hs]. rewrite Hs.
    by destruct (clearPreviousModel_scene s Hinv) as [_ ->].
Qed.

Lemma teardown_disposes_model_geometry_witness :
  disposedGeometries (unload carLoaded) = ["body"; "wheel"]
  /\ disposedGeometries (load ParseThrows carLoaded) = ["body"; "wheel"].
Proof.
  unfold unload, load. split.
  - destruct (teardown_disposes_model_geometry None carLoaded carLoaded_reachable)
      as [-> _].
    vm_compute; reflexivity.
  - destruct (teardown_disposes_model_geometry (Some (Readable ParseThrows)) carLoaded
                carLoaded_reachable) as [-> _].
    vm_compute; reflexivity.
Defined.

(** X4: in every reachable state each entry of [activeMaterials] is the
    material its mesh carries, and the two maps have the same keys. *)
Theorem active_materials_are_installed (s : Viewer) :
  reachable s ->
  (forall uuid m,
     activeMaterialsRef s !! uuid = Some m -> meshMaterial s !! uuid = Some m)
  /\ dom (activeMaterialsRef s) = dom (gltfOriginalMaterialsRef s).
Proof.
  intros Hr. split; [exact (reachable_installed_inv s Hr) | exact (reachable_keys_inv s Hr)].
Qed.

Lemma active_materials_are_installed_witness :
  meshMaterial (setPartColor "wheel" "#0000ff" carLoaded) !! "wheel"
  = Some (One (mkMaterial 4 MeshStandardMaterial (Some 0x0000ff%N))).
Proof.
  destruct (active_materials_are_installed (setPartColor "wheel" "#0000ff" carLoaded))
    as [H _].
  - apply reachable_setPartColor, carLoaded_reachable.
  - apply H. vm_compute; reflexivity.
Defined.

(** X5: in every reachable state [exportToGLB] changes nothing but the
    notifications.  Without a model it reports "Export Error"; with one,
    putting the active materials back on the meshes changes no mesh, and
    the notification tells what the exporter answered. *)
Theorem exportToGLB_only_notifies (result : ExporterResult) (s : Viewer) :
  reachable s ->
  exportToGLB result s
  = match modelGroupRef s, result with
    | None, _ => toast "Export Error" true s
    | Some _, ExportedBuffer => toast "Model Exported" false s
    | Some _, ExportedJson => toast "Export Error" true s
    | Some _, ExporterError _ => toast "GLTF Export Error" true s
    end.
Proof.
  intros Hr. pose proof (reachable_installed_inv s Hr) as Hinv.
  unfold exportToGLB. destruct (modelGroupRef s) as [g |]; [| reflexivity].
  rewrite (reapply_installed _ _ _ Hinv).
  assert (Hid : set_meshMaterial (meshMaterial s) s = s) by (by destruct s).
  rewrite Hid. by destruct result.
Qed.

Lemma exportToGLB_only_notifies_witness :
  exportToGLB ExportedBuffer (setPartColor "wheel" "#0000ff" carLoaded)
  = toast "Model Exported" false (setPartColor "wheel" "#0000ff" carLoaded)
  /\ exportToGLB ExportedBuffer (initialViewer 800 600 2)
     = toast "Export Error" true (initialViewer 800 600 2).
Proof.
  split.
  - rewrite exportToGLB_only_notifies
      by apply reachable_setPartColor, carLoaded_reachable.
    assert (H : modelGroupRef (setPartColor "wheel" "#0000ff" carLoaded)
                = modelGroupRef carLoaded)
      by apply (applyPartColor_frame (Some "wheel")).
    rewrite H. reflexivity.
  - by rewrite exportToGLB_only_notifies by apply reachable_initial.
Defined.

(** X6: from a reachable state the load effect disposes no material of
    any original entry, whatever the file; and when it tears the model
    down (an unload, or a file that reaches the decoder) it disposes every
    material of every active entry that is not the original object. *)
Theorem load_effect_spares_originals (modelFile : option File) (s : Viewer) :
  reachable s ->
  exists released : list nat,
    disposedMaterials (loadModelEffect modelFile s)
    = (disposedMaterials s ++ released)%list
    /\ (forall id uuid orig,
          id ∈ released -> gltfOriginalMaterialsRef s !! uuid = Some orig ->
          id ∉ slotIds orig)
    /\ (tearsDown modelFile = true ->
        forall uuid act orig id,
          activeMaterialsRef s !! uuid = Some act ->
          gltfOriginalMaterialsRef s !! uuid = Some orig ->
          sameRef act orig = false ->
          id ∈ slotIds act -> id ∈ released).
Proof.
  intros Hr. destruct (reachable_ready s Hr) as (Hl & Hs & _).
  eexists. split; [apply (loadModelEffect_disposed modelFile s Hl Hs) |].
  destruct (tearsDown modelFile); split.
  - intros id uuid orig Hid Ho. by apply (clonesToDispose_spares_originals s id uuid orig).
  - intros _ uuid act orig id Ha Ho Hne Hid.
    apply elem_of_clonesToDispose. exists uuid, act.
    repeat split; [exact Ha | | exact Hid].
    unfold isCloneWeMade. by rewrite Ho, Hne.
  - intros id uuid orig Hid. by apply not_elem_of_nil in Hid.
  - discriminate.
Qed.

Lemma load_effect_spares_originals_witness :
  disposedMaterials (unload (setPartColor "wheel" "#0000ff" carLoaded)) = [4].
Proof.
  destruct (load_effect_spares_originals None (setPartColor "wheel" "#0000ff" carLoaded))
    as (released & Hd & _).
  - apply reachable_setPartColor, carLoaded_reachable.
  - vm_compute; reflexivity.
Defined.

(** X7: in a reachable state with no model loaded, [unload()] disposes
    nothing and changes only two things: the selection is cleared and the
    loading flag is reset (it can be set, while a load is in flight or
    after a decoder that threw). *)
Theorem unload_without_model (s : Viewer) :
  reachable s -> modelGroupRef s = None ->
  unload s = set_isLoading false (set_selectedPart None s).
Proof.
  intros Hr Hg. destruct (reachable_ready s Hr) as (Hl & Hs & _).
  destruct (reachable_idle_inv s Hr Hg) as [Ho Ha].
  rewrite (unload_mounted s Hl Hs).
  unfold unloadModel. rewrite onPartSelect_None.
  unfold removeModelFromScene, disposeActiveClones, clonesToDispose.
  simpl. rewrite Hg, Ha, map_to_list_empty. simpl. rewrite app_nil_r.
  destruct s; simpl in *; subst; reflexivity.
Qed.

Lemma unload_without_model_witness :
  unload (load ParseThrows (selectPart (Some "wheel") (initialViewer 800 600 2)))
  = initialViewer 800 600 2.
Proof.
  rewrite unload_without_model.
  - vm_compute; reflexivity.
  - apply reachable_loadModelEffect, reachable_selectPart, reachable_initial.
  - vm_compute; reflexivity.
Defined.

Lemma rerender_toasts (before after : Viewer) :
  toasts (rerender before after) = toasts after.
Proof.
  unfold rerender, colorEffect. destruct (depsChanged _ _); [| reflexivity].
  by destruct (applyPartColor_frame (selectedPart after) (selectedPartColor after) after)
    as (_ & _ & _ & _ & _ & _ & H).
Qed.

Lemma onPartSelect_toasts (part : option string) (s : Viewer) :
  toasts (onPartSelect part s) = toasts s.
Proof.
  unfold onPartSelect. rewrite rerender_toasts.
  unfold handlePartSelect. by repeat case_match.
Qed.

Lemma shown_none (t s : Viewer) :
  toasts t = toasts s ->
  exists shown, toasts t = (toasts s ++ shown)%list
                /\ Forall (fun t => title t <> "File Read Issue") shown.
Proof. intros ->. exists []. split; [by rewrite app_nil_r | constructor]. Qed.

Lemma shown_one (t s : Viewer) (name : string) (b : bool) :
  name <> "File Read Issue" ->
  toasts t = (toasts s ++ [mkToast name b])%list ->
  exists shown, toasts t = (toasts s ++ shown)%list
                /\ Forall (fun t => title t <> "File Read Issue") shown.
Proof. intros Hname ->. eexists. split; [reflexivity |]. by repeat constructor. Qed.

(** What an operation or a callback adds to the notifications when the
    scene exists. *)
Lemma run_toasts (op : Operation) (s : Viewer) :
  gltfLoaderRef s = true -> is_Some (sceneRef s) ->
  exists shown,
    toasts (run op s) = (toasts s ++ shown)%list
    /\ Forall (fun t => title t <> "File Read Issue") shown.
Proof.
  intros Hl Hs.
  pose proof (fun t => shown_none t s) as Hnone.
  pose proof (fun t => shown_one t s) as Hone.
  destruct op; simpl.
  - rewrite loadModelEffect_mounted_cases by assumption.
    destruct (clearPreviousModel_frame (set_isLoading true s)) as (_ & _ & _ & Ht & _).
    destruct modelFile as [[| [gltf | message |]] |].
    + by apply (Hone _ "Error Reading File" true).
    + apply (Hone _ "Model loaded successfully!" false); [done |].
      destruct (parseSuccess_rest gltf (clearPreviousModel (set_isLoading true s)))
        as (_ & _ & _ & _ & _ & -> & _).
      by rewrite Ht.
    + apply (Hone _ "Error loading model" true); [done |].
      change (toasts (parseFailure message ?t))
        with (toasts t ++ [mkToast "Error loading model" true])%list.
      by rewrite Ht.
    + by apply Hnone.
    + apply Hnone. by destruct (unloadModel_rest s) as (_ & _ & _ & H & _).
  - apply Hnone, onPartSelect_toasts.
  - apply Hnone. unfold handleCanvasClick.
    repeat case_match; try reflexivity; apply onPartSelect_toasts.
  - apply Hnone. by destruct (applyPartColor_frame (Some identifier) color s)
      as (_ & _ & _ & _ & _ & _ & H).
  - apply Hnone. unfold onSelectedPartColorChange. by rewrite rerender_toasts.
  - unfold exportToImage.
    destruct (rendererRef s), (sceneRef s), (cameraRef s), (mountRef s);
      try (by apply (Hone _ "Export Error" true));
      by apply (Hone _ "Image Exported" false).
  - unfold exportToGLB. destruct (modelGroupRef s);
      [destruct result |];
      first [ by apply (Hone _ "Model Exported" false)
            | by apply (Hone _ "Export Error" true)
            | by apply (Hone _ "GLTF Export Error" true) ].
  - apply Hnone. unfold windowResized, handleResize. by repeat case_match.
Qed.

Lemma fire_toasts (cb : Callback) (s : Viewer) :
  is_Some (sceneRef s) ->
  exists shown,
    toasts (fire cb s) = (toasts s ++ shown)%list
    /\ Forall (fun t => title t <> "File Read Issue") shown.
Proof.
  intros [children Hs].
  destruct cb as [| | | gltf | message]; cbn [fire].
  - apply shown_none. unfold startReading. by repeat case_match.
  - apply shown_none. unfold readerOnload. rewrite Hs.
    by destruct (clearPreviousModel_frame s) as (_ & _ & _ & H & _).
  - by apply (shown_one _ _ "Error Reading File" true).
  - apply (shown_one _ _ "Model loaded successfully!" false); [done |].
    by destruct (parseSuccess_rest gltf s) as (_ & _ & _ & _ & _ & -> & _).
  - by apply (shown_one _ _ "Error loading model" true).
Qed.

(** X8: with the viewer mounted, a file that cannot be read leaves the
    whole state as it was but for the notification "Error Reading File"
    (and a loading flag that ends reset): the loaded model, both maps and
    the scene are untouched.  The other notification about the read,
    "File Read Issue", is shown by [reader.onload] only when the scene is
    gone by the time it runs; in the states the viewer reaches while
    mounted it is never shown, whatever file is chosen, an empty one
    included. *)
Theorem read_failure_keeps_session (s : Viewer) :
  gltfLoaderRef s = true -> is_Some (sceneRef s) ->
  loadModelEffect (Some Unreadable) s
  = set_isLoading false (toast "Error Reading File" true s)
  /\ sessionPreserved s (loadModelEffect (Some Unreadable) s)
  /\ (forall payload t,
        sceneRef t = None ->
        readerOnload payload t = set_isLoading false (toast "File Read Issue" true t))
  /\ (forall t, reachable t ->
        Forall (fun shown => title shown <> "File Read Issue") (toasts t)).
Proof.
  intros Hl Hs.
  assert (Heq : loadModelEffect (Some Unreadable) s
                = set_isLoading false (toast "Error Reading File" true s))
    by (by rewrite loadModelEffect_mounted_cases by assumption).
  split; [exact Heq |].
  split; [rewrite Heq; unfold sessionPreserved; auto |].
  split; [intros payload t Ht; unfold readerOnload; by rewrite Ht |].
  induction 1 as [w h d | op t Hr IH | cb t Hr IH Hcb].
  - constructor.
  - destruct (reachable_ready t Hr) as (Hl' & Hs' & _).
    destruct (run_toasts op t Hl' Hs') as (shown & -> & Hshown).
    by apply Forall_app.
  - destruct (reachable_ready t Hr) as (_ & Hs' & _).
    destruct (fire_toasts cb t Hs') as (shown & -> & Hshown).
    by apply Forall_app.
Qed.

Lemma read_failure_keeps_session_witness :
  modelGroupRef (loadModelEffect (Some Unreadable) carLoaded) = modelGroupRef carLoaded
  /\ toasts (load ParseThrows carLoaded)
     = [mkToast "Model loaded successfully!" false].
Proof.
  destruct (read_failure_keeps_session carLoaded) as (_ & (H & _) & _);
    [reflexivity | by eexists |].
  split; [exact H | vm_compute; reflexivity].
Defined.

(** X9: with the viewer mounted, when the load effect and the callbacks
    it starts run to their end, the loading flag ends off for every file
    but one on which the decoder throws (an empty file, text that is not
    JSON): then it stays on.  Piece by piece: the start of a read sets the
    flag, [reader.onload] leaves it as it finds it, and [reader.onerror]
    and either callback of the decoder reset it. *)
Theorem load_effect_ends_loading (modelFile : option File) (s : Viewer) :
  gltfLoaderRef s = true -> is_Some (sceneRef s) ->
  isLoading (loadModelEffect modelFile s)
  = match modelFile with
    | Some (Readable ParseThrows) => true
    | _ => false
    end
  /\ forall cb,
       isLoading (fire cb s)
       = match cb with
         | FileChosen => true
         | ReaderLoaded => isLoading s
         | _ => false
         end.
Proof.
  intros Hl Hs. split.
  - rewrite loadModelEffect_mounted_cases by assumption.
    destruct modelFile as [[| [gltf | message |]] |]; try reflexivity.
    + by destruct (parseSuccess_rest gltf (clearPreviousModel (set_isLoading true s)))
        as (_ & _ & _ & _ & _ & _ & H & _).
    + by destruct (clearPreviousModel_rest (set_isLoading true s)) as (_ & _ & _ & ->).
  - destruct Hs as [children Hs].
    intros cb. destruct cb as [| | | gltf | message]; simpl; try reflexivity.
    + unfold startReading. by rewrite Hl, Hs.
    + unfold readerOnload. rewrite Hs.
      by destruct (clearPreviousModel_rest s) as (_ & _ & _ & ->).
    + by destruct (parseSuccess_rest gltf s) as (_ & _ & _ & _ & _ & _ & H & _).
Qed.

Lemma load_effect_ends_loading_witness :
  isLoading (load ParseThrows carLoaded) = true
  /\ isLoading (load (ParseError "Unsupported asset") carLoaded) = false.
Proof.
  split.
  - destruct (load_effect_ends_loading (Some (Readable ParseThrows)) carLoaded)
      as [H _]; [reflexivity | by eexists | exact H].
  - destruct (load_effect_ends_loading
                (Some (Readable (ParseError "Unsupported asset"))) carLoaded)
      as [H _]; [reflexivity | by eexists | exact H].
Defined.





(** X11: only the load effect writes [originalMaterials], the model, the
    scene and the geometry disposals: every other operation leaves them
    exactly as they were. *)
Theorem only_load_writes_originals (op : Operation) (s : Viewer) :
  (forall modelFile, op <> OpLoadModel modelFile) ->
  gltfOriginalMaterialsRef (run op s) = gltfOriginalMaterialsRef s
  /\ modelGroupRef (run op s) = modelGroupRef s
  /\ sceneRef (run op s) = sceneRef s
  /\ disposedGeometries (run op s) = disposedGeometries s.
Proof.
  intros Hop. destruct op; simpl.
  - by destruct (Hop modelFile).
  - destruct (onPartSelect_rest identifier s) as (_ & H1 & H2 & H3 & H4 & _). auto.
  - destruct (handleCanvasClick_rest hit s) as (_ & H1 & H2 & H3 & H4 & _). auto.
  - destruct (applyPartColor_frame (Some identifier) color s) as (H1 & H2 & H3 & _).
    destruct (applyPartColor_rest (Some identifier) color s) as (_ & H4 & _). auto.
  - destruct (onSelectedPartColorChange_rest color s) as (_ & H1 & H2 & H3 & H4 & _). auto.
  - unfold exportToImage. repeat case_match; auto.
  - destruct (exportToGLB_rest result s) as (_ & H1 & _ & H2 & H3 & _ & H4 & _). auto.
  - unfold windowResized, handleResize. repeat case_match; auto.
Qed.

Lemma only_load_writes_originals_witness :
  gltfOriginalMaterialsRef (run (OpSetPartColor "wheel" "#0000ff") carLoaded)
  = gltfOriginalMaterialsRef carLoaded.
Proof.
  destruct (only_load_writes_originals (OpSetPartColor "wheel" "#0000ff") carLoaded)
    as (H & _); [discriminate | exact H].
Defined.

(** X12: in a reachable state, [setPartColor] on a part of the loaded
    model installs a new object: the mesh carries it and it is the active
    entry; it is not the original ([!==]) and none of its materials is in
    any entry the maps held before; each of its materials has the class of
    the original's, and the applied colour if the material has a colour or
    is of a class that takes one, no colour otherwise; the entries of the
    other parts are untouched. *)
Theorem setPartColor_installs_fresh_clone (M color : string) (s : Viewer)
    (g : Group) (orig : MaterialSlot) :
  reachable s ->
  modelGroupRef s = Some g ->
  gltfOriginalMaterialsRef s !! M = Some orig ->
  let s' := setPartColor M color s in
  exists new : MaterialSlot,
    activeMaterialsRef s' !! M = Some new
    /\ meshMaterial s' !! M = Some new
    /\ sameRef new orig = false
    /\ (forall id uuid m,
          id ∈ slotIds new ->
          gltfOriginalMaterialsRef s !! uuid = Some m
          \/ activeMaterialsRef s !! uuid = Some m ->
          id ∉ slotIds m)
    /\ mat_class <$> slotMaterials new = mat_class <$> slotMaterials orig
    /\ slotColors new
       = (fun m => if takesColor m then Some (Color_new color) else None)
           <$> slotMaterials orig
    /\ (forall uuid, uuid <> M ->
          activeMaterialsRef s' !! uuid = activeMaterialsRef s !! uuid
          /\ meshMaterial s' !! uuid = meshMaterial s !! uuid).
Proof.
  intros Hr Hg Ho. cbv zeta. unfold setPartColor.
  destruct (applyPartColor_loaded M color s g orig Hg Ho) as (Ha & Hm & _).
  destruct (reachable_store_fresh s Hr) as (Hf1 & Hf2 & _).
  destruct (cloneAndColorSlot_materials (Color_new color) (nextId s) orig) as [Hclass Hcol].
  exists (cloneAndColorSlot (Color_new color) (nextId s) orig).
  rewrite Ha, Hm, !lookup_insert_eq.
  split; [reflexivity |]. split; [reflexivity |]. split; [| split].
  - destruct (sameRef _ orig) eqn:E; [| reflexivity].
    apply sameRef_refId in E. rewrite cloneAndColorSlot_refId in E.
    pose proof (refId_lt_bound orig). specialize (Hf1 M orig Ho). lia.
  - intros id uuid m Hid Hin Hid'.
    apply cloneAndColorSlot_ids in Hid. apply slotIds_lt_bound in Hid'.
    destruct Hin as [Hin | Hin];
      [specialize (Hf1 uuid m Hin) | specialize (Hf2 uuid m Hin)]; lia.
  - split; [exact Hclass |]. split; [exact Hcol |].
    intros uuid Hne. by rewrite !lookup_insert_ne.
Qed.

Lemma setPartColor_installs_fresh_clone_witness :
  slotColors <$> (activeMaterialsRef (setPartColor "body" "#0000ff" carLoaded) !! "body")
  = Some [Some 0x0000ff%N; None]
  /\ activeMaterialsRef (setPartColor "body" "#0000ff" carLoaded) !! "wheel"
     = Some (One paint).
Proof.
  destruct (setPartColor_installs_fresh_clone "body" "#0000ff" carLoaded
              (mkGroup "root" (scene_children car) (mkVector3 (-25) (-25) (-25))
                       (mkVector3 2.5 2.5 2.5) (scene_bounds car))
              (Many 1 [glass; shader]))
    as (new & Ha & _ & _ & _ & _ & Hcol & Hother).
  - apply carLoaded_reachable.
  - vm_compute; reflexivity.
  - vm_compute; reflexivity.
  - cbv zeta in *. rewrite Ha. simpl. rewrite Hcol. split; [reflexivity |].
    destruct (Hother "wheel") as [-> _]; [discriminate | vm_compute; reflexivity].
Defined.

(** X13: whatever the bounding box (empty, of zero or infinite extent, or
    with a [NaN] in it), the scale framing computes is a finite number;
    and when framing runs, the model gets that one number as its scale on
    the three axes. *)
Theorem framing_scale_is_finite (s : Viewer) (g : Group) :
  modelGroupRef s = Some g ->
  is_Some (cameraRef s) -> is_Some (controlsRef s) ->
  is_Some (spotLightRef s) -> is_Some (sceneRef s) ->
  (forall size, is_finite (fitScaleOf size) = true)
  /\ exists f g',
       modelGroupRef (adjustCameraAndLightsToModel s) = Some g'
       /\ scale g' = mkVector3 f f f
       /\ f = fitScaleOf (Box3_getSize (Box3_setFromObject g))
       /\ is_finite f = true.
Proof.
  intros Hg [cam Hc] [ctl Hctl] [light Hlight] [children Hs].
  split; [exact fitScaleOf_finite |].
  unfold adjustCameraAndLightsToModel. rewrite Hg, Hc, Hctl, Hlight, Hs. simpl.
  destruct (groundPlaneRef s); simpl;
    (eexists _, _; split; [reflexivity |]; simpl;
     split; [reflexivity |]; split; [reflexivity | apply fitScaleOf_finite]).
Qed.

Lemma framing_scale_is_finite_witness :
  is_finite (fitScaleOf (mkVector3 nan 0 infinity)) = true
  /\ scale <$> modelGroupRef
       (adjustCameraAndLightsToModel
          (set_modelGroupRef
             (Some (mkGroup "root" [] origin (mkVector3 1 1 1) Box3_empty))
             (initialViewer 800 600 2)))
     = Some (mkVector3 5 5 5).
Proof.
  destruct (framing_scale_is_finite
              (set_modelGroupRef
                 (Some (mkGroup "root" [] origin (mkVector3 1 1 1) Box3_empty))
                 (initialViewer 800 600 2))
              (mkGroup "root" [] origin (mkVector3 1 1 1) Box3_empty)
              eq_refl (mk_is_Some _ _ eq_refl) (mk_is_Some _ _ eq_refl)
              (mk_is_Some _ _ eq_refl) (mk_is_Some _ _ eq_refl))
    as (Hfin & f & g' & Hg' & Hsc & Hf & _).
  split; [apply Hfin |].
  rewrite Hg'. simpl. rewrite Hsc, Hf. vm_compute; reflexivity.
Defined.

(** X14: a click that hits nothing, or an object that is not a mesh of
    the loaded model, only clears the selection: the part colour and all
    materials stay; and with no model loaded a click changes nothing. *)
Theorem canvas_click_miss (hit : option string) (s : Viewer) :
  (modelGroupRef s = None -> handleCanvasClick hit s = s)
  /\ (forall g,
        is_Some (mountRef s) -> is_Some (cameraRef s) ->
        modelGroupRef s = Some g ->
        (forall uuid, hit = Some uuid -> uuid ∉ (Group_meshes g).*1) ->
        handleCanvasClick hit s = set_selectedPart None s).
Proof.
  split.
  - intros Hg. unfold handleCanvasClick. rewrite Hg. by repeat case_match.
  - intros g [m Hm] [cam Hc] Hg Hmiss. unfold handleCanvasClick. rewrite Hm, Hc, Hg.
    destruct hit as [uuid |]; [| apply onPartSelect_None].
    rewrite bool_decide_eq_false_2 by (by apply Hmiss). apply onPartSelect_None.
Qed.

Lemma canvas_click_miss_witness :
  handleCanvasClick (Some "chassis") (selectPart (Some "wheel") carLoaded)
  = set_selectedPart None (selectPart (Some "wheel") carLoaded).
Proof.
  destruct (canvas_click_miss (Some "chassis") (selectPart (Some "wheel") carLoaded))
    as [_ H].
  apply (H (mkGroup "root" (scene_children car) (mkVector3 (-25) (-25) (-25))
                    (mkVector3 2.5 2.5 2.5) (scene_bounds car))).
  - by eexists.
  - by eexists.
  - vm_compute; reflexivity.
  - intros uuid [= <-]. vm_compute.
    intros [H' | [H' | H']%elem_of_cons]%elem_of_cons;
      [discriminate | discriminate | by apply not_elem_of_nil in H'].
Defined.

Lemma colorToSet_firstColor (currentMaterial : MaterialSlot) (c : Color) :
  firstColor (slotMaterials currentMaterial) = Some c ->
  colorToSet currentMaterial = hexStyle c.
Proof.
  destruct currentMaterial as [m | a [| m ms]]; simpl.
  - destruct (mat_color m); [by intros [= ->] | discriminate].
  - discriminate.
  - by intros ->.
Qed.

(** X15: a click that newly selects a part of the loaded model recolours
    it with the colour read from the mesh: when the first colour among
    the materials the mesh carries is a 24-bit colour [c], every material
    of the new active entry that takes a colour has exactly [c], also
    those whose original had another colour. *)
Theorem selecting_applies_first_colour (uuid : string) (s : Viewer) (g : Group)
    (currentMaterial orig : MaterialSlot) (c : Color) :
  is_Some (mountRef s) -> is_Some (cameraRef s) ->
  modelGroupRef s = Some g ->
  uuid ∈ (Group_meshes g).*1 ->
  selectedPart s <> Some uuid ->
  meshMaterial s !! uuid = Some currentMaterial ->
  gltfOriginalMaterialsRef s !! uuid = Some orig ->
  firstColor (slotMaterials currentMaterial) = Some c ->
  (c < 2 ^ 24)%N ->
  exists new : MaterialSlot,
    activeMaterialsRef (handleCanvasClick (Some uuid) s) !! uuid = Some new
    /\ slotColors new
       = (fun m => if takesColor m then Some c else None) <$> slotMaterials orig.
Proof.
  intros [m Hm] [cam Hc] Hg Hin Hne Hlive Ho Hfirst Hc24.
  assert (Hclick : handleCanvasClick (Some uuid) s = onPartSelect (Some uuid) s).
  { unfold handleCanvasClick. rewrite Hm, Hc, Hg. by rewrite bool_decide_eq_true_2. }
  rewrite Hclick.
  destruct (onPartSelect_recolors uuid s g orig Hne Hg Ho) as [Ha _].
  assert (Hcol : selectedPartColor (onPartSelect (Some uuid) s) = hexStyle c).
  { unfold onPartSelect, rerender, colorEffect.
    pose proof (handlePartSelect_color uuid s currentMaterial Hlive) as Hsel.
    rewrite (colorToSet_firstColor _ c Hfirst) in Hsel.
    destruct (depsChanged _ _); [| exact Hsel].
    by destruct (applyPartColor_frame (selectedPart (handlePartSelect (Some uuid) s))
                   (selectedPartColor (handlePartSelect (Some uuid) s))
                   (handlePartSelect (Some uuid) s)) as (_ & _ & _ & _ & -> & _). }
  cbv zeta in Ha. rewrite Hcol, (Color_new_hexStyle c Hc24) in Ha.
  eexists. rewrite Ha, lookup_insert_eq. split; [reflexivity |].
  apply cloneAndColorSlot_materials.
Qed.

Lemma selecting_applies_first_colour_witness :
  slotColors <$> (activeMaterialsRef (handleCanvasClick (Some "body") carLoaded) !! "body")
  = Some [Some 0x00ff00%N; None].
Proof.
  destruct (selecting_applies_first_colour "body" carLoaded
              (mkGroup "root" (scene_children car) (mkVector3 (-25) (-25) (-25))
                       (mkVector3 2.5 2.5 2.5) (scene_bounds car))
              (Many 1 [glass; shader]) (Many 1 [glass; shader]) 0x00ff00%N)
    as (new & Ha & Hcol).
  - by eexists.
  - by eexists.
  - vm_compute; reflexivity.
  - vm_compute. left.
  - vm_compute; discriminate.
  - vm_compute; reflexivity.
  - vm_compute; reflexivity.
  - reflexivity.
  - reflexivity.
  - rewrite Ha. simpl. rewrite Hcol. reflexivity.
Defined.

(** X16: the clean-up on unmount looks each original up under the
    material's own uuid (or the empty string, for an array) in a map whose
    keys are mesh uuids.  When none of these is a key, it disposes every
    material of every active entry, the loader's originals included, where
    the unload disposes only the clones; afterwards both maps are empty
    and the model is absent. *)
Theorem unmountCleanup_disposes_originals (materialUuid : nat -> string) (s : Viewer) :
  (forall uuid m,
     activeMaterialsRef s !! uuid = Some m ->
     gltfOriginalMaterialsRef s !! originalKey materialUuid m = None) ->
  let s' := unmountCleanup materialUuid s in
  (forall uuid m id,
     activeMaterialsRef s !! uuid = Some m -> id ∈ slotIds m ->
     id ∈ disposedMaterials s')
  /\ gltfOriginalMaterialsRef s' = ∅
  /\ activeMaterialsRef s' = ∅
  /\ modelGroupRef s' = None.
Proof.
  intros Hkeys. cbv zeta. unfold unmountCleanup.
  set (s0 := set_gltfOriginalMaterialsRef ∅ (set_activeMaterialsRef ∅
               (set_disposedMaterials _ s))).
  destruct (removeModelFromScene_frame s0) as (Ho & Ha & _ & Hd & _).
  set (s1 := removeModelFromScene s0) in *. clearbody s1.
  simpl. rewrite Ho, Ha, Hd. subst s0. simpl.
  split; [| auto].
  intros uuid m id Hin Hid. apply elem_of_app. right.
  unfold cleanupToDispose. apply list_elem_of_bind. exists (uuid, m).
  split; [| by apply elem_of_map_to_list].
  simpl. by rewrite (Hkeys uuid m Hin).
Qed.

Lemma unmountCleanup_disposes_originals_witness :
  0 ∈ disposedMaterials (unmountCleanup (fun _ => "material") carLoaded)
  /\ disposedMaterials (unload carLoaded) = [].
Proof.
  split; [| vm_compute; reflexivity].
  destruct (unmountCleanup_disposes_originals (fun _ => "material") carLoaded) as [H _].
  - intros uuid [m | a ms] _; vm_compute; reflexivity.
  - apply (H "wheel" (One paint) 0); [vm_compute; reflexivity | left].
Defined.

Lemma lightHelperEffect_step (show : bool) (r : LightRig) (tc : TransformControls) :
  transformControlsRef r = Some tc -> lightAndScene r = true -> helper_counted r ->
  transformControlsRef (lightHelperEffect show r)
  = Some (mkTransformControls show show show)
  /\ lightAndScene (lightHelperEffect show r) = true
  /\ helper_counted (lightHelperEffect show r)
  /\ spotLightHelperRef (lightHelperEffect show r)
     = if show then Some true else (fun _ => false) <$> spotLightHelperRef r.
Proof.
  intros Htc Hls Hcount. unfold lightHelperEffect, helper_counted in *.
  rewrite Htc, Hls.
  destruct show, (spotLightHelperRef r); simpl in *; rewrite ?Hcount; auto.
Qed.

(** X17: however often the light helper is switched on and off, the
    effect ends with the gizmo attached, visible and enabled exactly when
    the helper is shown, shows the helper when on and hides it when off,
    and never has more than one helper in the scene: the first switch-on
    creates it and later ones reuse it. *)
Theorem lightHelperEffect_toggles (shows : list bool) (show : bool) (r : LightRig)
    (tc : TransformControls) :
  transformControlsRef r = Some tc -> lightAndScene r = true -> helper_counted r ->
  let before := foldl (fun r b => lightHelperEffect b r) r shows in
  let r' := lightHelperEffect show before in
  transformControlsRef r' = Some (mkTransformControls show show show)
  /\ spotLightHelperRef r'
     = (if show then Some true else (fun _ => false) <$> spotLightHelperRef before)
  /\ helpersInScene r' <= 1
  /\ helpersInScene r <= helpersInScene r'.
Proof.
  intros Htc Hls Hcount. cbv zeta.
  assert (Hbefore : exists tc',
            transformControlsRef (foldl (fun r b => lightHelperEffect b r) r shows)
            = Some tc'
            /\ lightAndScene (foldl (fun r b => lightHelperEffect b r) r shows) = true
            /\ helper_counted (foldl (fun r b => lightHelperEffect b r) r shows)
            /\ helpersInScene r
               <= helpersInScene (foldl (fun r b => lightHelperEffect b r) r shows)).
  { revert r tc Htc Hls Hcount.
    induction shows as [| b shows IH]; intros r tc Htc Hls Hcount; simpl; [eauto |].
    destruct (lightHelperEffect_step b r tc Htc Hls Hcount) as (Htc' & Hls' & Hc' & Hh').
    destruct (IH _ _ Htc' Hls' Hc') as (tc' & H1 & H2 & H3 & H4).
    exists tc'. repeat split; try assumption.
    etransitivity; [| exact H4].
    unfold helper_counted in Hcount, Hc'. rewrite Hcount, Hc', Hh'.
    destruct b, (spotLightHelperRef r); simpl; lia. }
  destruct Hbefore as (tc' & Htc' & Hls' & Hc' & Hmono).
  destruct (lightHelperEffect_step show _ tc' Htc' Hls' Hc') as (H1 & _ & H3 & H4).
  split; [exact H1 |]. split; [exact H4 |].
  unfold helper_counted in H3, Hc'.
  set (before := foldl _ r shows) in *. clearbody before.
  set (r' := lightHelperEffect show before) in *. clearbody r'.
  split.
  - rewrite H3. destruct (spotLightHelperRef r'); lia.
  - etransitivity; [exact Hmono |]. rewrite H3, Hc', H4.
    destruct show, (spotLightHelperRef before); simpl; lia.
Qed.

Lemma lightHelperEffect_toggles_witness :
  let r' := lightHelperEffect true
              (foldl (fun r b => lightHelperEffect b r) initialLightRig
                     [false; true; false]) in
  helpersInScene r' = 1 /\ spotLightHelperRef r' = Some true.
Proof.
  destruct (lightHelperEffect_toggles [false; true; false] true initialLightRig
              (mkTransformControls false true true))
    as (_ & Hh & _ & _); try reflexivity.
  cbv zeta in *. split; [reflexivity | exact Hh].
Defined.
